(** * Triangle splats: geometry builder, depth sorter and shader stages

  A shallow embedding of
  - [createTriangleSplatsGeometry] (TriangleSplatsHelpers.ts),
  - [sortAndPrepareIndexBuffer] and [self.onmessage] (the triangle sort
    worker),
  - the vertex and fragment [main] of [createTriangleSplatsMaterial],
    with [fetchSHDataAt], [computeVertexColor] and [computeSH],
  - [updateGeometryIndexByTriangleSort], [setGeometryIndexBuffer] and
    [reorderGeometryByTriangleSort] (TriangleSorter.ts),
  - [analyzeTriangleFiltering] (TriangleSplatsAnalyze.ts),
  followed by the properties of the rendering specification that concern
  them, and by further properties of the code.

  Arithmetic is exact.  The TypeScript side works on rationals extended
  with the special values of JavaScript numbers ([JS.number]); the GLSL
  side works on real numbers.  The rounding of a store into a
  [Float32Array] is represented ([JS.fround]) where an integer or an
  order of numbers depends on it: at the depths that the sorter stores
  and at the vertex indices that the builder stores.  The other stores,
  the rounding of binary64 arithmetic and the sign of zero are not
  represented. *)

From Stdlib Require Import ZArith QArith Qround Reals Psatz Lia List Sorted.
From stdpp Require Import base list.

Set Default Proof Using "Type".

(* ================================================================== *)
(** * Part I: definitions *)
(* ================================================================== *)

(** ** JavaScript numbers *)

Module JS.

Inductive number : Type :=
| NaN
| NegInf
| PosInf
| Fin (q : Q).

Definition Qlt_bool (a b : Q) : bool := negb (Qle_bool b a).

Definition neg (a : number) : number :=
  match a with
  | NaN => NaN
  | NegInf => PosInf
  | PosInf => NegInf
  | Fin q => Fin (- q)
  end.

Definition add (a b : number) : number :=
  match a, b with
  | NaN, _ | _, NaN => NaN
  | PosInf, NegInf | NegInf, PosInf => NaN
  | PosInf, _ | _, PosInf => PosInf
  | NegInf, _ | _, NegInf => NegInf
  | Fin x, Fin y => Fin (x + y)
  end.

Definition sub (a b : number) : number := add a (neg b).

(** Sign of an infinity multiplied or divided by the finite [q]. *)
Definition signed_inf (positive : bool) : number :=
  if positive then PosInf else NegInf.

Definition mul (a b : number) : number :=
  match a, b with
  | NaN, _ | _, NaN => NaN
  | PosInf, PosInf | NegInf, NegInf => PosInf
  | PosInf, NegInf | NegInf, PosInf => NegInf
  | PosInf, Fin q | Fin q, PosInf =>
      if Qeq_bool q 0 then NaN else signed_inf (Qlt_bool 0 q)
  | NegInf, Fin q | Fin q, NegInf =>
      if Qeq_bool q 0 then NaN else signed_inf (Qlt_bool q 0)
  | Fin x, Fin y => Fin (x * y)
  end.

(** Division; a zero divisor is taken to be [+0]. *)
Definition div (a b : number) : number :=
  match a, b with
  | NaN, _ | _, NaN => NaN
  | (PosInf | NegInf), (PosInf | NegInf) => NaN
  | PosInf, Fin q => signed_inf (Qle_bool 0 q)
  | NegInf, Fin q => signed_inf (Qlt_bool q 0)
  | Fin _, (PosInf | NegInf) => Fin 0
  | Fin x, Fin y =>
      if Qeq_bool y 0
      then (if Qeq_bool x 0 then NaN else signed_inf (Qlt_bool 0 x))
      else Fin (x / y)
  end.

(** [a < b]; every comparison with [NaN] is false. *)
Definition lt (a b : number) : bool :=
  match a, b with
  | NaN, _ | _, NaN => false
  | _, NegInf => false
  | NegInf, _ => true
  | PosInf, _ => false
  | Fin _, PosInf => true
  | Fin x, Fin y => Qlt_bool x y
  end.

Definition gt (a b : number) : bool := lt b a.

(** [a <= b]. *)
Definition le (a b : number) : bool :=
  match a, b with
  | NaN, _ | _, NaN => false
  | NegInf, _ => true
  | _, PosInf => true
  | _, NegInf => false
  | PosInf, _ => false
  | Fin x, Fin y => Qle_bool x y
  end.

(** [Math.floor]. *)
Definition floor (a : number) : number :=
  match a with
  | Fin q => Fin (inject_Z (Qfloor q))
  | other => other
  end.

(** Two numbers that denote the same value. *)
Definition same_number (a b : number) : Prop :=
  match a, b with
  | NaN, NaN | PosInf, PosInf | NegInf, NegInf => True
  | Fin x, Fin y => (x == y)%Q
  | _, _ => False
  end.

(** *** Storing a number in a [Float32Array]

    The store rounds to the nearest binary32 number, ties to the even
    significand.  [binary_exponent a] is the exponent of the leading
    binary digit of [a > 0]; the last digit of a binary32 number has the
    exponent of its leading digit minus 23, and never less than -149. *)
Definition pow2 (e : Z) : Q :=
  if (0 <=? e)%Z then inject_Z (2 ^ e) else 1 # Z.to_pos (2 ^ (- e)).

Definition binary_exponent (a : Q) : Z :=
  let k := (Z.log2 (Qnum a) - Z.log2 (QDen a))%Z in
  if Qle_bool (pow2 k) a then k else (k - 1)%Z.

Definition round_half_even (x : Q) : Z :=
  let f := Qfloor x in
  let r := (x - inject_Z f)%Q in
  if Qlt_bool r (1 # 2) then f
  else if Qlt_bool (1 # 2) r then (f + 1)%Z
  else if Z.even f then f else (f + 1)%Z.

(** The binary32 number nearest to [a > 0], were the exponent range
    unbounded above. *)
Definition nearest_binary32 (a : Q) : Q :=
  let e := Z.max (binary_exponent a - 23) (-149) in
  Qred (inject_Z (round_half_even (a / pow2 e)) * pow2 e).

(** [Math.fround]: what a [Float32Array] holds after a number is stored
    in it; a result of [2^128] or more is an infinity. *)
Definition fround (x : number) : number :=
  match x with
  | Fin q =>
      if Qeq_bool q 0 then Fin 0
      else
        let r := nearest_binary32 (if Qlt_bool q 0 then - q else q) in
        if Qle_bool (pow2 128) r
        then signed_inf (Qlt_bool 0 q)
        else Fin (if Qlt_bool 0 q then r else - r)
  | other => other
  end.

(** [Math.min(a, b)]: [NaN] if either argument is. *)
Definition min2 (a b : number) : number :=
  match a, b with
  | NaN, _ | _, NaN => NaN
  | _, _ => if lt b a then b else a
  end.

(** [Math.min(a, b, c)]. *)
Definition min3 (a b c : number) : number := min2 (min2 a b) c.

(** [ToUint32]: truncate towards zero, then reduce modulo 2^32; the
    non-finite values go to 0. *)
Definition to_uint32 (a : number) : Z :=
  match a with
  | Fin q => (Z.quot (Qnum q) (QDen q)) mod 2 ^ 32
  | _ => 0
  end.

(** Reading a slot that may be [undefined] and using it as a number. *)
Definition of_slot (o : option Q) : number :=
  match o with
  | Some q => Fin q
  | None => NaN
  end.

(** Same, for a slot of an array that can itself hold [NaN]. *)
Definition of_number_slot (o : option number) : number :=
  match o with
  | Some a => a
  | None => NaN
  end.

End JS.

(** ** Typed arrays

  A typed array is a list of fixed length.  A read outside its bounds
  yields [undefined] ([None]); a write outside its bounds is dropped.
  Indices that the program computes at run time are integers; loop
  counters are naturals. *)

Module TypedArray.

Definition in_bounds {A} (a : list A) (idx : Z) : bool :=
  (0 <=? idx)%Z && (idx <? Z.of_nat (length a))%Z.

Definition get {A} (a : list A) (idx : Z) : option A :=
  if in_bounds a idx then a !! Z.to_nat idx else None.

Definition set {A} (a : list A) (idx : Z) (v : A) : list A :=
  if in_bounds a idx then <[Z.to_nat idx := v]> a else a.

(** [for (let i = 0; i < n; i++) body] *)
Definition for_loop {S} (n : nat) (body : nat -> S -> S) (s0 : S) : S :=
  fold_left (fun s i => body i s) (seq 0 n) s0.

End TypedArray.

(** ** The depth sorter: [sortAndPrepareIndexBuffer] *)

Module Sorter.
Import JS TypedArray.

Definition DEPTH_RANGE_EPS : Q := 1 # 10000000.
Definition NUM_BUCKETS : nat := Z.to_nat 65536.

(** Step 1: camera-space depth of triangle [i]. *)
Definition z_cam (centers viewMatrix : list Q) (i : nat) : number :=
  let m20 := of_slot (viewMatrix !! 2%nat) in
  let m21 := of_slot (viewMatrix !! 6%nat) in
  let m22 := of_slot (viewMatrix !! 10%nat) in
  let m23 := of_slot (viewMatrix !! 14%nat) in
  let x := of_slot (centers !! (i * 3)%nat) in
  let y := of_slot (centers !! (i * 3 + 1)%nat) in
  let z := of_slot (centers !! (i * 3 + 2)%nat) in
  add (add (add (mul m20 x) (mul m21 y)) (mul m22 z)) m23.

Record depth_state : Type := DepthState {
  floatDepths : list number;
  minDepth : number;
  maxDepth : number
}.

(** [floatDepths] is a [Float32Array]: it holds the depth rounded to
    binary32, while [minDepth] and [maxDepth] keep the depth as it was
    computed. *)
Definition depth_step (centers viewMatrix : list Q) (i : nat)
    (s : depth_state) : depth_state :=
  let z := z_cam centers viewMatrix i in
  {| floatDepths := <[i := fround z]> (floatDepths s);
     minDepth := if lt z (minDepth s) then z else minDepth s;
     maxDepth := if gt z (maxDepth s) then z else maxDepth s |}.

Definition computeDepths (numTriangles : nat) (centers viewMatrix : list Q)
    : depth_state :=
  for_loop numTriangles (depth_step centers viewMatrix)
    {| floatDepths := replicate numTriangles (Fin 0);
       minDepth := PosInf;
       maxDepth := NegInf |}.

(** The early return of step 2: the identity index buffer. *)
Definition identity_step (i : nat) (indices : list Z) : list Z :=
  let indices := <[(i * 3)%nat := Z.of_nat (i * 3)]> indices in
  let indices := <[(i * 3 + 1)%nat := Z.of_nat (i * 3 + 1)]> indices in
  <[(i * 3 + 2)%nat := Z.of_nat (i * 3 + 2)]> indices.

Definition identityIndices (numTriangles : nat) : list Z :=
  for_loop numTriangles identity_step (replicate (numTriangles * 3) 0%Z).

(** Step 2: the 16-bit bucket of each triangle. *)
Definition depth_floor (ds : depth_state) (scale : number) (i : nat)
    : number :=
  floor (mul (sub (of_number_slot (floatDepths ds !! i)) (minDepth ds))
             scale).

(** The store into the [Uint32Array] applies [ToUint32]. *)
Definition depth_bucket (ds : depth_state) (scale : number) (i : nat) : Z :=
  to_uint32 (depth_floor ds scale i).

Definition quantizeDepths (numTriangles : nat) (ds : depth_state)
    (scale : number) : list Z :=
  for_loop numTriangles
    (fun i depthsInt => <[i := depth_bucket ds scale i]> depthsInt)
    (replicate numTriangles 0%Z).

(** Step 3: counting sort.  [counts[depthsInt[i]]++]

    The counters, the offsets and the stored triangle numbers never exceed
    [numTriangles * 3], the length of an allocated [Uint32Array]; their
    reduction modulo 2^32 is not written out. *)
Definition count_step (depthsInt : list Z) (i : nat) (counts : list Z)
    : list Z :=
  match depthsInt !! i with
  | Some d =>
      match get counts d with
      | Some c => set counts d (c + 1)%Z
      | None => counts
      end
  | None => counts
  end.

Definition countBuckets (numTriangles : nat) (depthsInt : list Z) : list Z :=
  for_loop numTriangles (count_step depthsInt) (replicate NUM_BUCKETS 0%Z).

Definition offset_step (counts : list Z) (i : nat) (s : list Z * Z)
    : list Z * Z :=
  let '(offsets, currentOffset) := s in
  let count := default 0%Z (counts !! i) in
  (<[i := currentOffset]> offsets, (currentOffset + count)%Z).

Definition prefixOffsets (counts : list Z) : list Z :=
  fst (for_loop NUM_BUCKETS (offset_step counts)
         (replicate NUM_BUCKETS 0%Z, 0%Z)).

(** [sortedIndices[offsets[depthIdx]++] = i]; when [depthIdx] is not a
    valid index of [offsets] the computed key is [NaN] and both writes
    are dropped. *)
Definition place_step (depthsInt : list Z) (i : nat)
    (s : list Z * list Z) : list Z * list Z :=
  let '(offsets, sortedIndices) := s in
  match depthsInt !! i with
  | Some depthIdx =>
      match get offsets depthIdx with
      | Some o =>
          (set offsets depthIdx (o + 1)%Z,
           set sortedIndices o (Z.of_nat i))
      | None => (offsets, sortedIndices)
      end
  | None => (offsets, sortedIndices)
  end.

Definition placeTriangles (numTriangles : nat) (depthsInt offsets : list Z)
    : list Z :=
  snd (for_loop numTriangles (place_step depthsInt)
         (offsets, replicate numTriangles 0%Z)).

(** Step 4: the full index buffer. *)
Definition expand_step (sortedIndices : list Z) (i : nat)
    (prepared : list Z) : list Z :=
  let oldTriIdx := default 0%Z (sortedIndices !! i) in
  let baseOffset := (oldTriIdx * 3)%Z in
  let prepared := <[(i * 3)%nat := baseOffset]> prepared in
  let prepared := <[(i * 3 + 1)%nat := (baseOffset + 1)%Z]> prepared in
  <[(i * 3 + 2)%nat := (baseOffset + 2)%Z]> prepared.

Definition expandIndices (numTriangles : nat) (sortedIndices : list Z)
    : list Z :=
  for_loop numTriangles (expand_step sortedIndices)
    (replicate (numTriangles * 3) 0%Z).

Definition countingSort (numTriangles : nat) (depthsInt : list Z) : list Z :=
  let counts := countBuckets numTriangles depthsInt in
  let offsets := prefixOffsets counts in
  placeTriangles numTriangles depthsInt offsets.

Definition sortedTriangles (numTriangles : nat) (ds : depth_state)
    (scale : number) : list Z :=
  countingSort numTriangles (quantizeDepths numTriangles ds scale).

Definition sortAndPrepareIndexBuffer (numTriangles : nat)
    (centers viewMatrix : list Q) : list Z :=
  let ds := computeDepths numTriangles centers viewMatrix in
  let range := sub (maxDepth ds) (minDepth ds) in
  if le range (Fin DEPTH_RANGE_EPS)
  then identityIndices numTriangles
  else
    let scale := div (Fin 65535) range in
    expandIndices numTriangles (sortedTriangles numTriangles ds scale).

End Sorter.


(** ** Vocabulary of the sorter's specification *)

Module SorterSpec.
Import JS TypedArray Sorter.

(** Number of [i < n] that satisfy [p]. *)
Fixpoint count_below (p : nat -> bool) (n : nat) : nat :=
  match n with
  | O => O
  | S m => count_below p m + (if p m then 1 else 0)
  end.

(** The sort key of triangle [i], as stored in [depthsInt]. *)
Definition key (depthsInt : list Z) (i : nat) : Z :=
  default 0%Z (depthsInt !! i).

(** Position of triangle [i] in a stable ascending sort by key: the
    triangles with a smaller key, then the earlier ones with the same. *)
Definition rank (depthsInt : list Z) (numTriangles i : nat) : nat :=
  count_below (fun j => (key depthsInt j <? key depthsInt i)%Z) numTriangles
  + count_below (fun j => (key depthsInt j =? key depthsInt i)%Z) i.

(** Ascending by bucket, ties kept in input order. *)
Definition bucket_lex (b : nat -> Z) (i j : nat) : Prop :=
  (b i < b j)%Z \/ (b i = b j /\ i < j).

(** The three corner indices of each triangle of [order], in order. *)
Definition triples (order : list nat) : list Z :=
  flat_map (fun t => [Z.of_nat (t * 3); Z.of_nat (t * 3 + 1);
                      Z.of_nat (t * 3 + 2)]) order.

(** Slot [k] of the index buffer [out] holds the three corners of
    triangle [t]. *)
Definition holds_triangle (out : list Z) (k t : nat) : Prop :=
  out !! (k * 3)%nat = Some (Z.of_nat (t * 3))
  /\ out !! (k * 3 + 1)%nat = Some (Z.of_nat (t * 3 + 1))
  /\ out !! (k * 3 + 2)%nat = Some (Z.of_nat (t * 3 + 2)).

(** The depth formula of the specification, for a well-shaped request. *)
Definition spec_depth (centers viewMatrix : list Q) (i : nat) : Q :=
  (nth 2 viewMatrix 0 * nth (i * 3) centers 0
   + nth 6 viewMatrix 0 * nth (i * 3 + 1) centers 0
   + nth 10 viewMatrix 0 * nth (i * 3 + 2) centers 0
   + nth 14 viewMatrix 0)%Q.

Definition is_min_depth (centers viewMatrix : list Q) (numTriangles : nat)
    (zmin : Q) : Prop :=
  (exists i, i < numTriangles /\ (spec_depth centers viewMatrix i == zmin)%Q)
  /\ forall i, i < numTriangles -> (zmin <= spec_depth centers viewMatrix i)%Q.

Definition is_max_depth (centers viewMatrix : list Q) (numTriangles : nat)
    (zmax : Q) : Prop :=
  (exists i, i < numTriangles /\ (spec_depth centers viewMatrix i == zmax)%Q)
  /\ forall i, i < numTriangles -> (spec_depth centers viewMatrix i <= zmax)%Q.

(** What the depth loop knows about [minDepth] and [maxDepth] after [n]
    triangles whose depths are [z 0 .. z (n-1)]: nothing finite was
    seen, or both are finite depths that were seen and enclose all
    finite depths seen. *)
Definition depth_bounds (z : nat -> number) (n : nat) (mn mx : number)
    : Prop :=
  (mn = PosInf /\ mx = NegInf /\ forall j, j < n -> z j = NaN)
  \/ (exists a b, mn = Fin a /\ mx = Fin b
       /\ (forall j q, j < n -> z j = Fin q -> (a <= q <= b)%Q)
       /\ (exists j, j < n /\ z j = Fin a)
       /\ (exists j, j < n /\ z j = Fin b)).

(** The bucket formula of the specification. *)
Definition spec_bucket (centers viewMatrix : list Q) (zmin zmax : Q)
    (i : nat) : Z :=
  Qfloor ((spec_depth centers viewMatrix i - zmin) * 65535 / (zmax - zmin))%Q.

(** No depth of the request is changed by its store into the
    [Float32Array] [floatDepths]. *)
Definition exact_depths (centers viewMatrix : list Q) (numTriangles : nat)
    : Prop :=
  forall i, i < numTriangles ->
    same_number (fround (z_cam centers viewMatrix i))
                (z_cam centers viewMatrix i).

(** The request of the specification's sorting scenario: five triangles
    at depths -10, -5, -15, -1, -20 seen through the identity matrix. *)
Definition scenario_centers : list Q :=
  [0; 0; -10;  0; 0; -5;  0; 0; -15;  0; 0; -1;  0; 0; -20]%Q.
Definition scenario_viewMatrix : list Q :=
  [1; 0; 0; 0;  0; 1; 0; 0;  0; 0; 1; 0;  0; 0; 0; 1]%Q.

(** A request whose depths are changed by the store: two triangles at
    [z = 2] and [z = -1], seen from a camera moved by [3 * 2^-25] along
    its axis.  The depths [2 - 3 * 2^-25] and [-1 - 3 * 2^-25] are
    binary64 numbers, computed without rounding, and no binary32
    numbers. *)
Definition shifted_centers : list Q := [0; 0; 2;  0; 0; -1]%Q.
Definition shifted_viewMatrix : list Q :=
  [1; 0; 0; 0;  0; 1; 0; 0;  0; 0; 1; 0;  0; 0; - (3 # 33554432); 1]%Q.

End SorterSpec.

(** ** The geometry builder: [createTriangleSplatsGeometry] *)

Module Geometry.
Import JS TypedArray.

(** [array.length / 3], a JavaScript number that need not be whole. *)
Definition third_of_length {A} (a : list A) : Q :=
  (inject_Z (Z.of_nat (length a)) / 3)%Q.

(** Length of [new Float32Array(n)] for [n >= 0]: the integer part. *)
Definition alloc_length (n : Q) : nat := Z.to_nat (Qfloor n).

(** Number of iterations of [for (let i = 0; i < n; i++)]. *)
Definition trip_count (n : Q) : nat := Z.to_nat (Qceiling n).

(** [v * m + c] for an index [v] read from a [Uint32Array]; [NaN] (no
    index at all) when [v] is [undefined]. *)
Definition scaled (v : option Z) (m c : Z) : option Z :=
  (fun z => (z * m + c)%Z) <$> v.

(** [a[idx]] used as a number, for a [Float32Array] [a]. *)
Definition f32_at (a : list Q) (idx : option Z) : number :=
  match idx with
  | Some z => of_slot (get a z)
  | None => NaN
  end.

(** [a[idx]] used as a number, for a [Uint8Array] [a]. *)
Definition u8_at (a : list Z) (idx : option Z) : number :=
  match idx with
  | Some z => of_slot (inject_Z <$> get a z)
  | None => NaN
  end.

(** An index, or [undefined], stored into a [Float32Array]: the index
    rounded to binary32. *)
Definition as_number (v : option Z) : number :=
  match v with
  | Some z => fround (Fin (inject_Z z))
  | None => NaN
  end.

Definition restComponentCount (sh_degree : Z) : Z :=
  if (0 <? sh_degree)%Z then ((sh_degree + 1) ^ 2 - 1)%Z else 0%Z.

(** *** Packing the SH coefficients of the original vertices *)

Definition sh_step (features_dc : list Q) (features_rest : option (list Q))
    (sh_degree : Z) (vIdx : nat) (shData : list number) : list number :=
  let shOff := (vIdx * 48)%nat in
  let shData :=
    <[(shOff + 0)%nat := of_slot (features_dc !! (vIdx * 3 + 0)%nat)]> shData in
  let shData :=
    <[(shOff + 1)%nat := of_slot (features_dc !! (vIdx * 3 + 1)%nat)]> shData in
  let shData :=
    <[(shOff + 2)%nat := of_slot (features_dc !! (vIdx * 3 + 2)%nat)]> shData in
  match features_rest with
  | Some rest =>
      if (0 <? restComponentCount sh_degree)%Z
      then
        let restSize := Z.to_nat (restComponentCount sh_degree * 3) in
        let srcStart := (vIdx * restSize)%nat in
        for_loop restSize
          (fun k shData =>
             <[(shOff + 3 + k)%nat := of_slot (rest !! (srcStart + k)%nat)]>
               shData)
          shData
      else shData
  | None => shData
  end.

Definition packSH (vertices : list Q) (features_dc : option (list Q))
    (features_rest : option (list Q)) (sh_degree : Z)
    : option (list number) :=
  match features_dc with
  | Some dc =>
      let numOriginalVertices := third_of_length vertices in
      Some (for_loop (trip_count numOriginalVertices)
              (sh_step dc features_rest sh_degree)
              (replicate (alloc_length (numOriginalVertices * 48)%Q) (Fin 0)))
  | None => None
  end.

(** *** Unrolling the triangles *)

Record buffers : Type := Buffers {
  unrolledVertices : list number;
  triangleCenters : list number;
  unrolledBarycentrics : list number;
  unrolledOpacities : list number;
  triangleMinWeights : list number;
  vertexIndices : list number;
  triangleVertexIndices0 : list number;
  triangleVertexIndices1 : list number;
  triangleVertexIndices2 : list number;
  triangleVertices0 : list number;
  triangleVertices1 : list number;
  triangleVertices2 : list number;
  triangleOpacities0 : list number;
  triangleOpacities1 : list number;
  triangleOpacities2 : list number
}.

(** Writes the three coordinates of vertex [v] at slot [target]. *)
Definition store_vertex (vertices : list Q) (v : option Z) (target : nat)
    (a : list number) : list number :=
  <[(target * 3 + 2)%nat := f32_at vertices (scaled v 3 2)]>
    (<[(target * 3 + 1)%nat := f32_at vertices (scaled v 3 1)]>
       (<[(target * 3 + 0)%nat := f32_at vertices (scaled v 3 0)]> a)).

(** The body of the inner loop over the corners [j] of triangle [i]. *)
Definition corner_step (vertices : list Q) (triangle_indices : list Z)
    (opacities : list Q) (i : nat) (v0Idx v1Idx v2Idx : option Z)
    (triangleMinWeight : number) (j : nat) (b : buffers) : buffers :=
  let vIdx := triangle_indices !! (i * 3 + j)%nat in
  let targetIdx := (i * 3 + j)%nat in
  {| unrolledVertices :=
       store_vertex vertices vIdx targetIdx (unrolledVertices b);
     triangleCenters := triangleCenters b;
     unrolledBarycentrics :=
       <[(targetIdx * 3 + j)%nat := Fin 1]> (unrolledBarycentrics b);
     unrolledOpacities :=
       <[targetIdx := f32_at opacities vIdx]> (unrolledOpacities b);
     triangleMinWeights :=
       <[targetIdx := triangleMinWeight]> (triangleMinWeights b);
     vertexIndices := <[targetIdx := as_number vIdx]> (vertexIndices b);
     triangleVertexIndices0 :=
       <[targetIdx := as_number v0Idx]> (triangleVertexIndices0 b);
     triangleVertexIndices1 :=
       <[targetIdx := as_number v1Idx]> (triangleVertexIndices1 b);
     triangleVertexIndices2 :=
       <[targetIdx := as_number v2Idx]> (triangleVertexIndices2 b);
     triangleVertices0 :=
       store_vertex vertices v0Idx targetIdx (triangleVertices0 b);
     triangleVertices1 :=
       store_vertex vertices v1Idx targetIdx (triangleVertices1 b);
     triangleVertices2 :=
       store_vertex vertices v2Idx targetIdx (triangleVertices2 b);
     triangleOpacities0 :=
       <[targetIdx := f32_at opacities v0Idx]> (triangleOpacities0 b);
     triangleOpacities1 :=
       <[targetIdx := f32_at opacities v1Idx]> (triangleOpacities1 b);
     triangleOpacities2 :=
       <[targetIdx := f32_at opacities v2Idx]> (triangleOpacities2 b) |}.

(** One coordinate of the centre of a triangle. *)
Definition center_coord (vertices : list Q) (v0Idx v1Idx v2Idx : option Z)
    (c : Z) : number :=
  div (add (add (f32_at vertices (scaled v0Idx 3 c))
                (f32_at vertices (scaled v1Idx 3 c)))
           (f32_at vertices (scaled v2Idx 3 c)))
      (Fin 3).

Definition store_center (vertices : list Q) (v0Idx v1Idx v2Idx : option Z)
    (i : nat) (b : buffers) : buffers :=
  {| unrolledVertices := unrolledVertices b;
     triangleCenters :=
       <[(i * 3 + 2)%nat := center_coord vertices v0Idx v1Idx v2Idx 2]>
         (<[(i * 3 + 1)%nat := center_coord vertices v0Idx v1Idx v2Idx 1]>
            (<[(i * 3 + 0)%nat := center_coord vertices v0Idx v1Idx v2Idx 0]>
               (triangleCenters b)));
     unrolledBarycentrics := unrolledBarycentrics b;
     unrolledOpacities := unrolledOpacities b;
     triangleMinWeights := triangleMinWeights b;
     vertexIndices := vertexIndices b;
     triangleVertexIndices0 := triangleVertexIndices0 b;
     triangleVertexIndices1 := triangleVertexIndices1 b;
     triangleVertexIndices2 := triangleVertexIndices2 b;
     triangleVertices0 := triangleVertices0 b;
     triangleVertices1 := triangleVertices1 b;
     triangleVertices2 := triangleVertices2 b;
     triangleOpacities0 := triangleOpacities0 b;
     triangleOpacities1 := triangleOpacities1 b;
     triangleOpacities2 := triangleOpacities2 b |}.

(** The minimum weight of triangle [i]: always taken from [opacities]. *)
Definition triangleMinWeight (triangle_indices : list Z) (opacities : list Q)
    (i : nat) : number :=
  let v0Idx := triangle_indices !! (i * 3 + 0)%nat in
  let v1Idx := triangle_indices !! (i * 3 + 1)%nat in
  let v2Idx := triangle_indices !! (i * 3 + 2)%nat in
  let w0 := f32_at opacities v0Idx in
  let w1 := f32_at opacities v1Idx in
  let w2 := f32_at opacities v2Idx in
  min3 w0 w1 w2.

(** The body of the loop over the triangles. *)
Definition triangle_step (vertices : list Q) (triangle_indices : list Z)
    (opacities : list Q) (i : nat) (b : buffers) : buffers :=
  let v0Idx := triangle_indices !! (i * 3 + 0)%nat in
  let v1Idx := triangle_indices !! (i * 3 + 1)%nat in
  let v2Idx := triangle_indices !! (i * 3 + 2)%nat in
  let b := store_center vertices v0Idx v1Idx v2Idx i b in
  for_loop 3
    (corner_step vertices triangle_indices opacities i v0Idx v1Idx v2Idx
       (triangleMinWeight triangle_indices opacities i))
    b.

Definition fresh_buffers (numTriangles numVertices : Q) : buffers :=
  let zeros n := replicate (alloc_length n) (Fin 0) in
  {| unrolledVertices := zeros (numVertices * 3)%Q;
     triangleCenters := zeros (numTriangles * 3)%Q;
     unrolledBarycentrics := zeros (numVertices * 3)%Q;
     unrolledOpacities := zeros numVertices;
     triangleMinWeights := zeros numVertices;
     vertexIndices := zeros numVertices;
     triangleVertexIndices0 := zeros numVertices;
     triangleVertexIndices1 := zeros numVertices;
     triangleVertexIndices2 := zeros numVertices;
     triangleVertices0 := zeros (numVertices * 3)%Q;
     triangleVertices1 := zeros (numVertices * 3)%Q;
     triangleVertices2 := zeros (numVertices * 3)%Q;
     triangleOpacities0 := zeros numVertices;
     triangleOpacities1 := zeros numVertices;
     triangleOpacities2 := zeros numVertices |}.

Definition unrollTriangles (vertices : list Q) (triangle_indices : list Z)
    (opacities : list Q) : buffers :=
  let numTriangles := third_of_length triangle_indices in
  let numVertices := (numTriangles * 3)%Q in
  for_loop (trip_count numTriangles)
    (triangle_step vertices triangle_indices opacities)
    (fresh_buffers numTriangles numVertices).

(** *** The SH data texture *)

Record data_texture : Type := DataTexture {
  tex_data : list number;
  tex_width : nat;
  tex_height : nat
}.

(** [target.set(source)]: a [RangeError] ([None]) when [source] is longer
    than [target]. *)
Definition typed_set (target source : list number) : option (list number) :=
  if (length source <=? length target)%nat
  then Some (source ++ drop (length source) target)
  else None.

Definition makeSHTexture (vertices : list Q) (shData : list number)
    : option data_texture :=
  let numOriginalVertices := third_of_length vertices in
  let pixelsPerVertex := 12%Q in
  let totalPixels := (numOriginalVertices * pixelsPerVertex)%Q in
  let texWidth := 1024%Q in
  let texHeight := inject_Z (Qceiling (totalPixels / texWidth)) in
  let rgbaData :=
    replicate (alloc_length (texWidth * texHeight * 4)%Q) (Fin 0) in
  match typed_set rgbaData shData with
  | Some rgbaData =>
      Some {| tex_data := rgbaData;
              tex_width := alloc_length texWidth;
              tex_height := alloc_length texHeight |}
  | None => None
  end.

(** *** Direct colours and the index buffer *)

Definition color_step (triangle_indices colors : list Z) (i : nat)
    (unrolledColors : list number) : list number :=
  let vIdx := triangle_indices !! i in
  <[(i * 3 + 2)%nat := div (u8_at colors (scaled vIdx 3 2)) (Fin 255)]>
    (<[(i * 3 + 1)%nat := div (u8_at colors (scaled vIdx 3 1)) (Fin 255)]>
       (<[(i * 3)%nat := div (u8_at colors (scaled vIdx 3 0)) (Fin 255)]>
          unrolledColors)).

Definition unrollColors (triangle_indices colors : list Z) : list number :=
  let numTriangles := third_of_length triangle_indices in
  let numVertices := (numTriangles * 3)%Q in
  for_loop (trip_count (numTriangles * 3)%Q)
    (color_step triangle_indices colors)
    (replicate (alloc_length (numVertices * 3)%Q) (Fin 0)).

Definition identityIndex (numVertices : Q) : list Z :=
  for_loop (trip_count numVertices)
    (fun i indices => <[i := Z.of_nat i]> indices)
    (replicate (alloc_length numVertices) 0%Z).

(** *** The geometry *)

Record geometry : Type := Geometry {
  position : list number;
  aBarycentric : list number;
  aOpacity : list number;
  aVertexIndex : list number;
  aTriangleVertexIdx0 : list number;
  aTriangleVertexIdx1 : list number;
  aTriangleVertexIdx2 : list number;
  aTriangleV0 : list number;
  aTriangleV1 : list number;
  aTriangleV2 : list number;
  aTriangleOpacity0 : list number;
  aTriangleOpacity1 : list number;
  aTriangleOpacity2 : list number;
  aTriangleMinWeight : list number;
  geom_triangleCenters : list number;
  shDataTexture : option data_texture;
  aColor : option (list number);
  index : list Z
}.

(** The result is [None] when the construction throws.  The bounding box
    and sphere that three.js derives from [position], and the console
    output, are left out. *)
Definition createTriangleSplatsGeometry
    (vertices : list Q) (triangle_indices : list Z) (opacities : list Q)
    (vertex_weights : option (list Q)) (colors : option (list Z))
    (features_dc features_rest : option (list Q)) (sh_degree : Z)
    : option geometry :=
  let numTriangles := third_of_length triangle_indices in
  let numVertices := (numTriangles * 3)%Q in
  let shData := packSH vertices features_dc features_rest sh_degree in
  let b := unrollTriangles vertices triangle_indices opacities in
  let texture :=
    match shData with
    | Some shData => Some <$> makeSHTexture vertices shData
    | None => Some None
    end in
  match texture with
  | Some texture =>
      Some {| position := unrolledVertices b;
              aBarycentric := unrolledBarycentrics b;
              aOpacity := unrolledOpacities b;
              aVertexIndex := vertexIndices b;
              aTriangleVertexIdx0 := triangleVertexIndices0 b;
              aTriangleVertexIdx1 := triangleVertexIndices1 b;
              aTriangleVertexIdx2 := triangleVertexIndices2 b;
              aTriangleV0 := triangleVertices0 b;
              aTriangleV1 := triangleVertices1 b;
              aTriangleV2 := triangleVertices2 b;
              aTriangleOpacity0 := triangleOpacities0 b;
              aTriangleOpacity1 := triangleOpacities1 b;
              aTriangleOpacity2 := triangleOpacities2 b;
              aTriangleMinWeight := triangleMinWeights b;
              geom_triangleCenters := triangleCenters b;
              shDataTexture := texture;
              aColor := unrollColors triangle_indices <$> colors;
              index := identityIndex numVertices |}
  | None => None
  end.

End Geometry.

(** ** Vocabulary of the geometry builder's specification *)

Module GeometrySpec.
Import JS Geometry.

(** The shapes that the specification calls bad: an opacity count that
    differs from the vertex count, an index count that is no multiple of
    three, or SH rest coefficients that are not [(d+1)^2 - 1] triples per
    vertex. *)
Definition bad_shape (vertices : list Q) (triangle_indices : list Z)
    (opacities : list Q) (features_rest : option (list Q)) (sh_degree : Z)
    : Prop :=
  (length opacities * 3 <> length vertices)%nat
  \/ (length triangle_indices mod 3 <> 0)%nat
  \/ (exists rest, features_rest = Some rest
        /\ (Z.of_nat (length rest) * 3
            <> Z.of_nat (length vertices) * ((sh_degree + 1) ^ 2 - 1) * 3)%Z).

(** The specification's first scenario: a quad of two triangles whose
    first vertex is almost transparent, together with raw weights. *)
Definition quad_vertices : list Q :=
  [0; 0; 0;  1; 0; 0;  1; 1; 0;  0; 1; 0]%Q.
Definition quad_indices : list Z := [0; 1; 2;  0; 2; 3]%Z.
Definition quad_opacities : list Q := [1 # 1000; 1 # 2; 1 # 2; 1 # 2]%Q.
Definition quad_raw_weights : list Q := [-7; 0; 0; 0]%Q.

(** A request of bad shape in all three respects: four indices, one
    opacity for three vertices, and no rest coefficients at degree 1. *)
Definition bad_vertices : list Q := [0; 0; 0;  1; 0; 0;  0; 1; 0]%Q.
Definition bad_indices : list Z := [0; 1; 2; 0]%Z.
Definition bad_opacities : list Q := [1 # 2]%Q.
Definition bad_features_dc : list Q := [1; 1; 1;  1; 1; 1;  1; 1; 1]%Q.
Definition bad_features_rest : list Q := []%Q.

End GeometrySpec.

(** ** GLSL vectors and matrices over the reals

  Division by zero, which GLSL leaves to IEEE infinities, follows the
  convention [x / 0 = 0] of the real numbers of the standard library. *)

Module GLSL.
Local Open Scope R_scope.

(** The comparisons [<], [<=], [>], [>=] and [==] as conditions. *)
Definition lessThan (x y : R) : bool :=
  if Rlt_dec x y then true else false.
Definition lessThanEqual (x y : R) : bool :=
  if Rle_dec x y then true else false.
Definition greaterThan (x y : R) : bool :=
  if Rgt_dec x y then true else false.
Definition greaterThanEqual (x y : R) : bool :=
  if Rge_dec x y then true else false.
Definition equal (x y : R) : bool :=
  if Req_dec_T x y then true else false.

Record vec2 : Type := Vec2 { x2 : R; y2 : R }.
Record vec3 : Type := Vec3 { x3 : R; y3 : R; z3 : R }.
Record vec4 : Type := Vec4 { x4 : R; y4 : R; z4 : R; w4 : R }.

(** A [mat4] is four columns; a [mat3] is three. *)
Record mat4 : Type :=
  Mat4 { m4c0 : vec4; m4c1 : vec4; m4c2 : vec4; m4c3 : vec4 }.
Record mat3 : Type := Mat3 { m3c0 : vec3; m3c1 : vec3; m3c2 : vec3 }.

Definition add2 (a b : vec2) : vec2 := Vec2 (x2 a + x2 b) (y2 a + y2 b).
Definition sub2 (a b : vec2) : vec2 := Vec2 (x2 a - x2 b) (y2 a - y2 b).
Definition neg2 (a : vec2) : vec2 := Vec2 (- x2 a) (- y2 a).
Definition scale2 (s : R) (a : vec2) : vec2 := Vec2 (s * x2 a) (s * y2 a).
Definition div2 (a : vec2) (s : R) : vec2 := Vec2 (x2 a / s) (y2 a / s).
Definition dot2 (a b : vec2) : R := x2 a * x2 b + y2 a * y2 b.
Definition length2 (a : vec2) : R := sqrt (x2 a * x2 a + y2 a * y2 a).
Definition distance2 (a b : vec2) : R := length2 (sub2 a b).

Definition add3 (a b : vec3) : vec3 :=
  Vec3 (x3 a + x3 b) (y3 a + y3 b) (z3 a + z3 b).
Definition sub3 (a b : vec3) : vec3 :=
  Vec3 (x3 a - x3 b) (y3 a - y3 b) (z3 a - z3 b).
Definition neg3 (a : vec3) : vec3 := Vec3 (- x3 a) (- y3 a) (- z3 a).
Definition scale3 (s : R) (a : vec3) : vec3 :=
  Vec3 (s * x3 a) (s * y3 a) (s * z3 a).
Definition div3 (a : vec3) (s : R) : vec3 :=
  Vec3 (x3 a / s) (y3 a / s) (z3 a / s).
Definition dot3 (a b : vec3) : R := x3 a * x3 b + y3 a * y3 b + z3 a * z3 b.
Definition cross (a b : vec3) : vec3 :=
  Vec3 (y3 a * z3 b - z3 a * y3 b)
       (z3 a * x3 b - x3 a * z3 b)
       (x3 a * y3 b - y3 a * x3 b).
Definition length3 (a : vec3) : R :=
  sqrt (x3 a * x3 a + y3 a * y3 a + z3 a * z3 a).
Definition normalize3 (a : vec3) : vec3 := div3 a (length3 a).

Definition add4 (a b : vec4) : vec4 :=
  Vec4 (x4 a + x4 b) (y4 a + y4 b) (z4 a + z4 b) (w4 a + w4 b).
Definition scale4 (s : R) (a : vec4) : vec4 :=
  Vec4 (s * x4 a) (s * y4 a) (s * z4 a) (s * w4 a).
Definition xyz (a : vec4) : vec3 := Vec3 (x4 a) (y4 a) (z4 a).
Definition xy (a : vec4) : vec2 := Vec2 (x4 a) (y4 a).
(** [vec4(v, w)] *)
Definition vec4_of (v : vec3) (w : R) : vec4 := Vec4 (x3 v) (y3 v) (z3 v) w.

(** [m * v] *)
Definition mat4_vec (m : mat4) (v : vec4) : vec4 :=
  add4 (add4 (add4 (scale4 (x4 v) (m4c0 m)) (scale4 (y4 v) (m4c1 m)))
             (scale4 (z4 v) (m4c2 m)))
       (scale4 (w4 v) (m4c3 m)).

(** [a * b] *)
Definition mat4_mul (a b : mat4) : mat4 :=
  Mat4 (mat4_vec a (m4c0 b)) (mat4_vec a (m4c1 b))
       (mat4_vec a (m4c2 b)) (mat4_vec a (m4c3 b)).

(** [mat3(m)]: the upper-left 3x3 block. *)
Definition mat3_of (m : mat4) : mat3 :=
  Mat3 (xyz (m4c0 m)) (xyz (m4c1 m)) (xyz (m4c2 m)).

Definition mat3_vec (m : mat3) (v : vec3) : vec3 :=
  add3 (add3 (scale3 (x3 v) (m3c0 m)) (scale3 (y3 v) (m3c1 m)))
       (scale3 (z3 v) (m3c2 m)).

(** [pow(x, y)].  GLSL leaves the result undefined for [x < 0] and for
    [x = 0] with [y <= 0]; the model returns 0 whenever [x <= 0]. *)
Definition pow (x y : R) : R :=
  if lessThanEqual x 0 then 0 else Rpower x y.

(** Element [i] of a three-element array. *)
Definition elem {A} (d : A) (a : list A) (i : nat) : A := nth i a d.

Definition zero2 : vec2 := Vec2 0 0.

End GLSL.

(** ** The vertex stage: [main] of the vertex shader *)

Module VertexStage.
Import GLSL TypedArray.
Local Open Scope R_scope.

(** The attributes of a corner record that the geometric part of [main]
    reads, and the uniforms. *)
Record attributes : Type := Attributes {
  aTriangleMinWeight : R;
  aTriangleV0 : vec3;
  aTriangleV1 : vec3;
  aTriangleV2 : vec3;
  position : vec3
}.

Record uniforms : Type := Uniforms {
  modelViewMatrix : mat4;
  projectionMatrix : mat4;
  uResolution : vec2;
  sigma : R
}.

(** The geometric outputs handed to the fragment stage.  The colour
    outputs [vColor], [vColor0], [vColor1] and [vColor2], which no
    geometric output depends on, are [VertexColours.colours]. *)
Record varyings : Type := Varyings {
  vScreenPos0 : vec2;
  vScreenPos1 : vec2;
  vScreenPos2 : vec2;
  vTriangleMinWeight : R;
  vPhiCenterScale : R;
  vNormal0 : vec2;
  vNormal1 : vec2;
  vNormal2 : vec2;
  vOffset0 : R;
  vOffset1 : R;
  vOffset2 : R
}.

(** A rejected corner sets [gl_Position = vec4(0, 0, 0, -1)] and
    returns. *)
Inductive vertex_result : Type :=
| Culled
| Emitted (gl_Position : vec4) (out : varyings).

(** Steps 1 to 5 of the backface test: the cosine between the view-space
    normal and the view direction, after the flip. *)
Definition backface_cos (u : uniforms) (a : attributes) : R :=
  let edge1 := sub3 (aTriangleV1 a) (aTriangleV0 a) in
  let edge2 := sub3 (aTriangleV2 a) (aTriangleV0 a) in
  let normal_world := cross edge1 edge2 in
  let normalView := mat3_vec (mat3_of (modelViewMatrix u)) normal_world in
  let normalLen := length3 normalView in
  let normalView :=
    if greaterThan normalLen 1e-4 then normalize3 normalView else normalView in
  let centerWorld :=
    div3 (add3 (add3 (aTriangleV0 a) (aTriangleV1 a)) (aTriangleV2 a)) 3 in
  let centerView :=
    xyz (mat4_vec (modelViewMatrix u) (vec4_of centerWorld 1)) in
  let viewDir := normalize3 (neg3 centerView) in
  let cos_theta := dot3 normalView viewDir in
  if greaterThan cos_theta 0 then - cos_theta else cos_theta.

(** [projectionMatrix * modelViewMatrix * vec4(v, 1.0)] *)
Definition clip (u : uniforms) (v : vec3) : vec4 :=
  mat4_vec (mat4_mul (projectionMatrix u) (modelViewMatrix u)) (vec4_of v 1).

(** One coordinate of [(ndc + 1.0) * uResolution * 0.5 - 0.5]. *)
Definition pixel_coord (ndc S : R) : R := (ndc + 1) * S * 0.5 - 0.5.

(** [((c.xy / c.w) + 1.0) * uResolution * 0.5 - 0.5] *)
Definition to_pixels (u : uniforms) (c : vec4) : vec2 :=
  Vec2 (pixel_coord (x4 c / w4 c) (x2 (uResolution u)))
       (pixel_coord (y4 c / w4 c) (y2 (uResolution u))).

Definition projected_of (u : uniforms) (a : attributes) : list vec2 :=
  [to_pixels u (clip u (aTriangleV0 a));
   to_pixels u (clip u (aTriangleV1 a));
   to_pixels u (clip u (aTriangleV2 a))].

Definition perimeter_of (projected : list vec2) : R :=
  let sideA := distance2 (elem zero2 projected 1) (elem zero2 projected 2) in
  let sideB := distance2 (elem zero2 projected 2) (elem zero2 projected 0) in
  let sideC := distance2 (elem zero2 projected 0) (elem zero2 projected 1) in
  sideA + sideB + sideC.

Definition incenter_of (projected : list vec2) : vec2 :=
  let sideA := distance2 (elem zero2 projected 1) (elem zero2 projected 2) in
  let sideB := distance2 (elem zero2 projected 2) (elem zero2 projected 0) in
  let sideC := distance2 (elem zero2 projected 0) (elem zero2 projected 1) in
  let perimeter := sideA + sideB + sideC in
  div2 (add2 (add2 (scale2 sideA (elem zero2 projected 0))
                   (scale2 sideB (elem zero2 projected 1)))
             (scale2 sideC (elem zero2 projected 2)))
       perimeter.

(** The largest distance from the incenter to a projected vertex. *)
Definition distance_points_of (projected : list vec2) (incenter : vec2) : R :=
  for_loop 3
    (fun i distance_points =>
       let d := distance2 (elem zero2 projected i) incenter in
       if greaterThan d distance_points then d else distance_points)
    0.

(** The edge from vertex [i] to the next one: its normal, its offset and
    the signed distance of the incenter, oriented so that the distance
    is not positive. *)
Definition oriented_edge (projected : list vec2) (incenter : vec2) (i : nat)
    : vec2 * R * R :=
  let current := elem zero2 projected i in
  let next := elem zero2 projected ((i + 1) mod 3) in
  let edge := sub2 next current in
  let normal := Vec2 (y2 edge) (- x2 edge) in
  let len := length2 normal in
  let normal := if greaterThan len 1e-4 then div2 normal len else normal in
  let offset := - (x2 normal * x2 current + y2 normal * y2 current) in
  let dist := x2 normal * x2 incenter + y2 normal * y2 incenter + offset in
  if greaterThan dist 0
  then (neg2 normal, - offset, - dist)
  else (normal, offset, dist).

Record edge_state : Type := EdgeState {
  edgeNormals : list vec2;
  edgeOffsets : list R;
  computedSize : R;
  lastDist : R
}.

(** The body of the loop over the three edges. *)
Definition edge_step (projected : list vec2) (incenter : vec2)
    (ratio exponent : R) (i : nat) (s : edge_state) : edge_state :=
  let '(normal, offset, dist) := oriented_edge projected incenter i in
  let shrinkSize := computedSize s in
  let shrinkSize :=
    if equal shrinkSize 0 then dist * pow ratio exponent else shrinkSize in
  let offsetWithShrink := offset - shrinkSize in
  {| edgeNormals := <[i := normal]> (edgeNormals s);
     edgeOffsets := <[i := offsetWithShrink]> (edgeOffsets s);
     computedSize := shrinkSize;
     lastDist := dist |}.

Definition edge_loop (projected : list vec2) (incenter : vec2)
    (ratio exponent : R) : edge_state :=
  for_loop 3 (edge_step projected incenter ratio exponent)
    {| edgeNormals := [zero2; zero2; zero2];
       edgeOffsets := [0; 0; 0];
       computedSize := 0;
       lastDist := - 1e-4 |}.

Definition safeDist_of (lastDist : R) : R :=
  if greaterThanEqual lastDist 0 then - 1e-4 else lastDist.

(** The vertex [main] without its colour block, which
    [VertexColours.vertex_main] adds. *)
Definition main (u : uniforms) (a : attributes) : vertex_result :=
  let vTriangleMinWeight := aTriangleMinWeight a in
  if lessThan vTriangleMinWeight 0.01 then Culled else
  let cos_theta := backface_cos u a in
  if lessThan (Rabs cos_theta) 0.001 then Culled else
  let c0 := clip u (aTriangleV0 a) in
  let c1 := clip u (aTriangleV1 a) in
  let c2 := clip u (aTriangleV2 a) in
  if lessThanEqual (w4 c0) 0 && lessThanEqual (w4 c1) 0
     && lessThanEqual (w4 c2) 0
  then Culled else
  let projected := projected_of u a in
  let perimeter := perimeter_of projected in
  if lessThan perimeter 1 then Culled else
  let incenter := incenter_of projected in
  let distance_points := distance_points_of projected incenter in
  if greaterThan distance_points 1600 || lessThan distance_points 1
  then Culled else
  let stopping_influence := 0.01 in
  let ratio := stopping_influence / vTriangleMinWeight in
  let exponent := 1 / sigma u in
  let edges := edge_loop projected incenter ratio exponent in
  let safeDist := safeDist_of (lastDist edges) in
  Emitted
    (mat4_vec (mat4_mul (projectionMatrix u) (modelViewMatrix u))
       (vec4_of (position a) 1))
    {| vScreenPos0 := elem zero2 projected 0;
       vScreenPos1 := elem zero2 projected 1;
       vScreenPos2 := elem zero2 projected 2;
       vTriangleMinWeight := vTriangleMinWeight;
       vPhiCenterScale := 1 / safeDist;
       vNormal0 := elem zero2 (edgeNormals edges) 0;
       vNormal1 := elem zero2 (edgeNormals edges) 1;
       vNormal2 := elem zero2 (edgeNormals edges) 2;
       vOffset0 := elem 0 (edgeOffsets edges) 0;
       vOffset1 := elem 0 (edgeOffsets edges) 1;
       vOffset2 := elem 0 (edgeOffsets edges) 2 |}.

End VertexStage.

(** ** The fragment stage: [main] of the fragment shader *)

Module FragmentStage.
Import GLSL.
Local Open Scope R_scope.

Record inputs : Type := Inputs {
  vColor0 : vec3;
  vColor1 : vec3;
  vColor2 : vec3;
  vScreenPos0 : vec2;
  vScreenPos1 : vec2;
  vScreenPos2 : vec2;
  vTriangleMinWeight : R;
  vPhiCenterScale : R;
  vNormal0 : vec2;
  vNormal1 : vec2;
  vNormal2 : vec2;
  vOffset0 : R;
  vOffset1 : R;
  vOffset2 : R
}.

Inductive fragment_result : Type :=
| Discarded
| FragColor (rgba : vec4).

(** Barycentric coordinates of [p] in the screen-space triangle
    [a, b, c], in the order [(a, b, c)]. *)
Definition computeBarycentric (p a b c : vec2) : vec3 :=
  let v0 := sub2 b a in
  let v1 := sub2 c a in
  let v2 := sub2 p a in
  let denom := x2 v0 * y2 v1 - x2 v1 * y2 v0 in
  if lessThan (Rabs denom) 1e-6 then Vec3 (1 / 3) (1 / 3) (1 / 3) else
  let invDen := 1 / denom in
  let b0 := (x2 v2 * y2 v1 - x2 v1 * y2 v2) * invDen in
  let b1 := (- x2 v2 * y2 v0 + x2 v0 * y2 v2) * invDen in
  let b2 := 1 - b0 - b1 in
  Vec3 b2 b0 b1.

(** [sigma] is the uniform and [fragCoord] is [gl_FragCoord.xy]; the
    logging block of the shader has no effect and is left out. *)
Definition main (sigma : R) (fragCoord : vec2) (v : inputs)
    : fragment_result :=
  let pixf := fragCoord in
  let d0 := dot2 (vNormal0 v) pixf + vOffset0 v in
  let d1 := dot2 (vNormal1 v) pixf + vOffset1 v in
  let d2 := dot2 (vNormal2 v) pixf + vOffset2 v in
  if greaterThan d0 0 || greaterThan d1 0 || greaterThan d2 0
  then Discarded else
  let max_val := Rmax d0 (Rmax d1 d2) in
  let phi_final := max_val * vPhiCenterScale v in
  let Cx := Rmax 0 (pow (Rmax phi_final 0) sigma) in
  let finalAlpha := Rmin 0.99 (vTriangleMinWeight v * Cx) in
  if lessThan finalAlpha (1 / 255) then Discarded else
  let bary :=
    computeBarycentric pixf (vScreenPos0 v) (vScreenPos1 v) (vScreenPos2 v) in
  let interpColor :=
    add3 (add3 (scale3 (x3 bary) (vColor0 v)) (scale3 (y3 bary) (vColor1 v)))
         (scale3 (z3 bary) (vColor2 v)) in
  FragColor (vec4_of (scale3 finalAlpha interpColor) finalAlpha).

End FragmentStage.

(** ** Vocabulary of the shader stages' specification *)

Module ShaderSpec.
Import GLSL.
Local Open Scope R_scope.

(** The reference pixel formula. *)
Definition reference_pixel (ndc S : R) : R := ((ndc + 1) * S - 1) * 0.5.

(** The data of edge [k] of the projected triangle of a corner record:
    its oriented normal [n_k], its offset [o_k] and the signed distance
    [d_k] of the incenter. *)
Definition edge_of (u : VertexStage.uniforms) (a : VertexStage.attributes)
    (k : nat) : vec2 * R * R :=
  let projected := VertexStage.projected_of u a in
  VertexStage.oriented_edge projected (VertexStage.incenter_of projected) k.

Definition edge_normal u a k : vec2 := fst (fst (edge_of u a k)).
Definition edge_offset u a k : R := snd (fst (edge_of u a k)).
Definition edge_distance u a k : R := snd (edge_of u a k).

(** The shrink amount [s = d_0 * (0.01 / m)^(1 / sigma)]. *)
Definition shrink_amount (u : VertexStage.uniforms)
    (a : VertexStage.attributes) : R :=
  edge_distance u a 0
  * pow (0.01 / VertexStage.aTriangleMinWeight a) (1 / VertexStage.sigma u).

(** The signed edge distances of a fragment and their maximum. *)
Definition delta (normal : vec2) (offset : R) (p : vec2) : R :=
  dot2 normal p + offset.

(** The alpha of the specification: [min(0.99, m * max(0, M * phi)^sigma)]. *)
Definition spec_alpha (sigma M phi m : R) : R :=
  Rmin 0.99 (m * pow (Rmax 0 (M * phi)) sigma).

(** The denominator of the screen-space barycentric coordinates. *)
Definition bary_denom (a b c : vec2) : R :=
  (x2 b - x2 a) * (y2 c - y2 a) - (x2 c - x2 a) * (y2 b - y2 a).

(** [beta] are barycentric coordinates of [p] in the triangle [a, b, c]. *)
Definition is_barycentric (p a b c : vec2) (beta : vec3) : Prop :=
  x3 beta + y3 beta + z3 beta = 1
  /\ x3 beta * x2 a + y3 beta * x2 b + z3 beta * x2 c = x2 p
  /\ x3 beta * y2 a + y3 beta * y2 b + z3 beta * y2 c = y2 p.

(** [beta0 * c0 + beta1 * c1 + beta2 * c2] *)
Definition interpolate (beta c0 c1 c2 : vec3) : vec3 :=
  add3 (add3 (scale3 (x3 beta) c0) (scale3 (y3 beta) c1))
       (scale3 (z3 beta) c2).

Definition identity4 : mat4 :=
  Mat4 (Vec4 1 0 0 0) (Vec4 0 1 0 0) (Vec4 0 0 1 0) (Vec4 0 0 0 1).

(** A sliver: base 2, height [h = 40000 / 399999999], so that the two
    long sides measure [400000001 / 399999999] and the inradius is
    [1 / 20000].  It lies in the plane [z = -1] with its centroid on the
    axis, and is seen through identity matrices at a resolution of two
    pixels, which maps world [xy] to pixels by a shift of one half. *)
Definition sliver_height : R := 40000 / 399999999.
Definition sliver : VertexStage.attributes :=
  {| VertexStage.aTriangleMinWeight := 1;
     VertexStage.aTriangleV0 := Vec3 (-1) (- sliver_height / 3) (-1);
     VertexStage.aTriangleV1 := Vec3 1 (- sliver_height / 3) (-1);
     VertexStage.aTriangleV2 := Vec3 0 (2 * sliver_height / 3) (-1);
     VertexStage.position := Vec3 (-1) (- sliver_height / 3) (-1) |}.
Definition sliver_uniforms : VertexStage.uniforms :=
  {| VertexStage.modelViewMatrix := identity4;
     VertexStage.projectionMatrix := identity4;
     VertexStage.uResolution := Vec2 2 2;
     VertexStage.sigma := 1 |}.

(** A triangle that a projection without [y] flattens onto the pixel row
    [y = 0.5]: its projected corners are collinear, so that the incenter
    lies on the three edges. *)
Definition flat : VertexStage.attributes :=
  {| VertexStage.aTriangleMinWeight := 1;
     VertexStage.aTriangleV0 := Vec3 (-1) (-1) (-1);
     VertexStage.aTriangleV1 := Vec3 1 (-1) (-1);
     VertexStage.aTriangleV2 := Vec3 0 2 (-1);
     VertexStage.position := Vec3 (-1) (-1) (-1) |}.
Definition flat_uniforms : VertexStage.uniforms :=
  {| VertexStage.modelViewMatrix := identity4;
     VertexStage.projectionMatrix :=
       Mat4 (Vec4 1 0 0 0) (Vec4 0 0 0 0) (Vec4 0 0 1 0) (Vec4 0 0 0 1);
     VertexStage.uResolution := Vec2 2 2;
     VertexStage.sigma := 1 |}.

(** A fragment well inside a splat of full weight. *)
Definition inner_fragment : FragmentStage.inputs :=
  {| FragmentStage.vColor0 := Vec3 1 0 0;
     FragmentStage.vColor1 := Vec3 0 1 0;
     FragmentStage.vColor2 := Vec3 0 0 1;
     FragmentStage.vScreenPos0 := Vec2 0 0;
     FragmentStage.vScreenPos1 := Vec2 8 0;
     FragmentStage.vScreenPos2 := Vec2 0 8;
     FragmentStage.vTriangleMinWeight := 1;
     FragmentStage.vPhiCenterScale := -1;
     FragmentStage.vNormal0 := Vec2 0 (-1);
     FragmentStage.vNormal1 := Vec2 (-1) 0;
     FragmentStage.vNormal2 := Vec2 (1 / 2) (1 / 2);
     FragmentStage.vOffset0 := 0;
     FragmentStage.vOffset1 := 0;
     FragmentStage.vOffset2 := -4 |}.

End ShaderSpec.

(** ** The index buffer of a geometry: TriangleSorter.ts *)

Module TriangleSorter.
Import TypedArray.

(** [geometry.index] is [null] or an attribute over a [Uint32Array]; its
    [needsUpdate] flag is left out. *)
Definition index_buffer : Type := option (list Z).

(** A whole number stored into an element of a [Uint32Array]. *)
Definition store_uint32 (z : Z) : Z := (z mod 2 ^ 32)%Z.

(** The body of the loop of [updateGeometryIndexByTriangleSort]; the read
    [sortedTriangleIndices[newTriIdx]] is always in range. *)
Definition reindex_step (sortedTriangleIndices : list Z) (newTriIdx : nat)
    (indexArray : list Z) : list Z :=
  match sortedTriangleIndices !! newTriIdx with
  | Some oldTriIdx =>
      let baseOffset := (oldTriIdx * 3)%Z in
      let indexArray :=
        <[(newTriIdx * 3)%nat := store_uint32 baseOffset]> indexArray in
      let indexArray :=
        <[(newTriIdx * 3 + 1)%nat := store_uint32 (baseOffset + 1)]>
          indexArray in
      <[(newTriIdx * 3 + 2)%nat := store_uint32 (baseOffset + 2)]> indexArray
  | None => indexArray
  end.

Definition updateGeometryIndexByTriangleSort (index : index_buffer)
    (sortedTriangleIndices : list Z) : index_buffer :=
  match index with
  | None => None
  | Some indexArray =>
      let numTriangles := length sortedTriangleIndices in
      Some (for_loop numTriangles (reindex_step sortedTriangleIndices)
              indexArray)
  end.

(** A call returns, or throws the [RangeError] of [TypedArray.set]. *)
Inductive outcome (A : Type) : Type :=
| Returned (a : A)
| RangeError.
Arguments Returned {A} a.
Arguments RangeError {A}.

(** [indexArray.set(preparedIndexArray)] *)
Definition setGeometryIndexBuffer (index : index_buffer)
    (preparedIndexArray : list Z) : outcome index_buffer :=
  match index with
  | None => Returned None
  | Some indexArray =>
      if (length preparedIndexArray <=? length indexArray)%nat
      then Returned
             (Some (preparedIndexArray
                    ++ drop (length preparedIndexArray) indexArray))
      else RangeError
  end.

(** The legacy entry point works on a clone; the result is the index
    buffer of the clone, and the geometry passed in keeps its own. *)
Definition reorderGeometryByTriangleSort (index : index_buffer)
    (sortedTriangleIndices : list Z) : index_buffer :=
  let newGeometry := index in
  updateGeometryIndexByTriangleSort newGeometry sortedTriangleIndices.

End TriangleSorter.

(** ** The sort worker: [self.onmessage] *)

Module SortWorker.
Import Sorter.

Record SortRequest : Type := {
  numTriangles : nat;
  centers : list Q;
  viewMatrix : list Q;
  requestId : Z
}.

(** What the worker posts back: the result, or the error message of the
    [catch] branch. *)
Inductive reply : Type :=
| SortResult (preparedIndexArray : list Z) (requestId : Z)
| SortFailure (requestId : Z).

(** [sortAndPrepareIndexBuffer] has no statement that throws on a request
    of this type, so that the [catch] branch is not entered. *)
Definition onmessage (event : SortRequest) : reply :=
  SortResult
    (sortAndPrepareIndexBuffer (numTriangles event) (centers event)
       (viewMatrix event))
    (requestId event).

End SortWorker.

(** ** The SH data texture as the vertex shader reads it *)

Module SHTexture.

Section Texels.
Context {A : Type}.

Record texel : Type := Texel { tx : A; ty : A; tz : A; tw : A }.

(** [texelFetch] on a float RGBA texture of the given size, whose rows
    follow each other in [data]; outside the texture the result is
    undefined ([None]). *)
Definition texelFetch (data : list A) (width height : Z) (x y : Z)
    : option texel :=
  if ((0 <=? x) && (x <? width) && (0 <=? y) && (y <? height))%Z
  then
    let base := Z.to_nat (4 * (y * width + x)) in
    r ← data !! base;
    g ← data !! (base + 1)%nat;
    b ← data !! (base + 2)%nat;
    a ← data !! (base + 3)%nat;
    Some (Texel r g b a)
  else None.

(** A 32-bit [int] after an arithmetic operation. *)
Definition int32 (z : Z) : Z := ((z + 2 ^ 31) mod 2 ^ 32 - 2 ^ 31)%Z.

(** [fetchSHDataAt]: texel [i] of the twelve texels of a vertex. *)
Definition fetchSHDataAt (data : list A) (width height : Z)
    (vertexIdx i : Z) : option texel :=
  let pixelIdx := int32 (int32 (vertexIdx * 12) + i) in
  let x := Z.rem pixelIdx width in
  let y := Z.quot pixelIdx width in
  texelFetch data width height x y.

(** Coefficients are triples; [f_rest] is an array of fifteen. *)
Definition coefficient : Type := A * A * A.

Variable zero : A.

(** [f_rest[k] = v] *)
Definition assign (k : nat) (v : coefficient) (f_rest : list coefficient)
    : list coefficient :=
  <[k := v]> f_rest.

(** [f_rest[k].yz = vec2(y, z)] *)
Definition assign_yz (k : nat) (y z : A) (f_rest : list coefficient)
    : list coefficient :=
  match f_rest !! k with
  | Some (x, _, _) => <[k := (x, y, z)]> f_rest
  | None => f_rest
  end.

(** [f_rest[k].z = z] *)
Definition assign_z (k : nat) (z : A) (f_rest : list coefficient)
    : list coefficient :=
  match f_rest !! k with
  | Some (x, y, _) => <[k := (x, y, z)]> f_rest
  | None => f_rest
  end.

(** The three blocks of [computeVertexColor] that fill [f_rest] from the
    texels [fetch 0 .. fetch 11] of the vertex. *)
Definition load_first (fetch : Z -> option texel)
    (f_rest : list coefficient) : option (list coefficient) :=
  sh0 ← fetch 0%Z;
  let f_rest := assign 0 (tw sh0, zero, zero) f_rest in
  sh1 ← fetch 1%Z;
  let f_rest := assign_yz 0 (tx sh1) (ty sh1) f_rest in
  let f_rest := assign 1 (tz sh1, tw sh1, zero) f_rest in
  sh2 ← fetch 2%Z;
  let f_rest := assign_z 1 (tx sh2) f_rest in
  let f_rest := assign 2 (ty sh2, tz sh2, tw sh2) f_rest in
  Some f_rest.

Definition load_second (fetch : Z -> option texel)
    (f_rest : list coefficient) : option (list coefficient) :=
  sh3 ← fetch 3%Z;
  let f_rest := assign 3 (tx sh3, ty sh3, tz sh3) f_rest in
  let f_rest := assign 4 (tw sh3, zero, zero) f_rest in
  sh4 ← fetch 4%Z;
  let f_rest := assign_yz 4 (tx sh4) (ty sh4) f_rest in
  let f_rest := assign 5 (tz sh4, tw sh4, zero) f_rest in
  sh5 ← fetch 5%Z;
  let f_rest := assign_z 5 (tx sh5) f_rest in
  let f_rest := assign 6 (ty sh5, tz sh5, tw sh5) f_rest in
  Some f_rest.

Definition load_third (fetch : Z -> option texel)
    (f_rest : list coefficient) : option (list coefficient) :=
  sh6 ← fetch 6%Z;
  let f_rest := assign 7 (tx sh6, ty sh6, tz sh6) f_rest in
  let f_rest := assign 8 (tw sh6, zero, zero) f_rest in
  sh7 ← fetch 7%Z;
  let f_rest := assign_yz 8 (tx sh7) (ty sh7) f_rest in
  let f_rest := assign 9 (tz sh7, tw sh7, zero) f_rest in
  sh8 ← fetch 8%Z;
  let f_rest := assign_z 9 (tx sh8) f_rest in
  let f_rest := assign 10 (ty sh8, tz sh8, tw sh8) f_rest in
  sh9 ← fetch 9%Z;
  let f_rest := assign 11 (tx sh9, ty sh9, tz sh9) f_rest in
  let f_rest := assign 12 (tw sh9, zero, zero) f_rest in
  sh10 ← fetch 10%Z;
  let f_rest := assign_yz 12 (tx sh10) (ty sh10) f_rest in
  let f_rest := assign 13 (tz sh10, tw sh10, zero) f_rest in
  sh11 ← fetch 11%Z;
  let f_rest := assign_z 13 (tx sh11) f_rest in
  let f_rest := assign 14 (ty sh11, tz sh11, tw sh11) f_rest in
  Some f_rest.

(** The coefficients that [computeVertexColor] holds in [f_rest] when it
    calls [computeSH], for a degree other than 0.  The local array is
    declared without an initial value: [uninitialized] stands for its
    unspecified content. *)
Definition loadCoefficients (sh_degree : Z) (fetch : Z -> option texel)
    (uninitialized : list coefficient) : option (list coefficient) :=
  f_rest ← load_first fetch uninitialized;
  f_rest ← (if (1 <? sh_degree)%Z then load_second fetch f_rest
            else Some f_rest);
  if (2 <? sh_degree)%Z then load_third fetch f_rest else Some f_rest.

End Texels.

Arguments texel : clear implicits.
Arguments coefficient : clear implicits.

End SHTexture.

(** ** Spherical harmonics: [computeSH] and [computeVertexColor] *)

Module SH.
Import GLSL SHTexture.
Local Open Scope R_scope.

Definition SH_C0 : R := 0.28209479177387814.
Definition SH_C1 : R := 0.4886025119029199.
Definition SH_C2 : list R :=
  [1.092548430592079; - 1.092548430592079; 0.31539156525252005;
   - 1.092548430592079; 0.5462742152960395].
Definition SH_C3 : list R :=
  [- 0.5900435899266435; 2.890611442640554; - 0.4570457994644658;
   0.3731763325901154; - 0.4570457994644658; 1.445305721320277;
   - 0.5900435899266435].

Definition zero3 : vec3 := Vec3 0 0 0.

(** [computeSH], generated for [sh_degree]. *)
Definition computeSH (sh_degree : Z) (dir f_dc : vec3) (f_rest : list vec3)
    : vec3 :=
  let c2 := elem 0 SH_C2 in
  let c3 := elem 0 SH_C3 in
  let f := elem zero3 f_rest in
  let result := scale3 SH_C0 f_dc in
  if (sh_degree =? 0)%Z then result else
  let x := x3 dir in
  let y := y3 dir in
  let z := z3 dir in
  let result :=
    add3 result
      (scale3 SH_C1
         (sub3 (add3 (scale3 (- y) (f 0%nat)) (scale3 z (f 1%nat)))
               (scale3 x (f 2%nat)))) in
  if (sh_degree =? 1)%Z then result else
  let xx := x * x in
  let yy := y * y in
  let zz := z * z in
  let xy := x * y in
  let yz := y * z in
  let xz := x * z in
  let result :=
    add3 result
      (add3 (add3 (add3 (add3 (scale3 (c2 0%nat * xy) (f 3%nat))
                              (scale3 (c2 1%nat * yz) (f 4%nat)))
                        (scale3 (c2 2%nat * (2 * zz - xx - yy)) (f 5%nat)))
                  (scale3 (c2 3%nat * xz) (f 6%nat)))
            (scale3 (c2 4%nat * (xx - yy)) (f 7%nat))) in
  if (sh_degree =? 2)%Z then result else
  add3 result
    (add3 (add3 (add3 (add3 (add3 (add3
       (scale3 (c3 0%nat * y * (3 * xx - yy)) (f 8%nat))
       (scale3 (c3 1%nat * xy * z) (f 9%nat)))
       (scale3 (c3 2%nat * y * (4 * zz - xx - yy)) (f 10%nat)))
       (scale3 (c3 3%nat * z * (2 * zz - 3 * xx - 3 * yy)) (f 11%nat)))
       (scale3 (c3 4%nat * x * (4 * zz - xx - yy)) (f 12%nat)))
       (scale3 (c3 5%nat * z * (xx - yy)) (f 13%nat)))
       (scale3 (c3 6%nat * x * (xx - 3 * yy)) (f 14%nat))).

Definition vec3_of (c : coefficient R) : vec3 :=
  let '(x, y, z) := c in Vec3 x y z.

(** [max(v + 0.5, vec3(0.0))] *)
Definition shifted_color (v : vec3) : vec3 :=
  Vec3 (Rmax (x3 v + 0.5) 0) (Rmax (y3 v + 0.5) 0) (Rmax (z3 v + 0.5) 0).

(** The texture of a material, on the GLSL side. *)
Record sampler2D : Type := Sampler2D {
  texels : list R;
  texSize_x : Z;
  texSize_y : Z
}.

(** [computeVertexColor], generated for [sh_degree]; the result is
    undefined ([None]) when a texel is fetched outside the texture. *)
Definition computeVertexColor (sh_degree : Z) (shDataTexture : sampler2D)
    (worldCameraPosition : vec3) (uninitialized : list (coefficient R))
    (vertexIdx : Z) (worldPos : vec3) : option vec3 :=
  let fetch :=
    fetchSHDataAt (texels shDataTexture) (texSize_x shDataTexture)
      (texSize_y shDataTexture) vertexIdx in
  sh ← fetch 0%Z;
  let f_dc := Vec3 (tx sh) (ty sh) (tz sh) in
  if (sh_degree =? 0)%Z
  then Some (shifted_color (scale3 SH_C0 f_dc))
  else
    f_rest ← loadCoefficients 0 sh_degree fetch uninitialized;
    let dir := normalize3 (sub3 worldPos worldCameraPosition) in
    Some (shifted_color (computeSH sh_degree dir f_dc (vec3_of <$> f_rest))).

End SH.

(** ** The filtering statistics: [analyzeTriangleFiltering] *)

Module Analyze.
Import JS TypedArray Geometry.

(** [Math.max(a, b)]: [NaN] if either argument is. *)
Definition max2 (a b : number) : number :=
  match a, b with
  | NaN, _ | _, NaN => NaN
  | _, _ => if lt a b then b else a
  end.

Definition STOPPING_INFLUENCE : Q := 1 # 100.

Record weight_stats : Type := WeightStats {
  ws_min : number;
  ws_max : number;
  ws_mean : number;
  ws_median : number
}.

Record filtering : Type := Filtering {
  minWeightFiltered : Z;
  totalTriangles : Q;
  filterPercentage : number;
  weightStats : weight_stats
}.

(** The function returns its record, or throws: the report it logs calls
    [medianWeight.toExponential(4)], a [TypeError] when the median is
    [undefined]. *)
Inductive outcome : Type :=
| Returned (result : filtering)
| TypeError.

Record scan_state : Type := ScanState {
  scan_filtered : Z;
  scan_weights : list number;
  scan_min : number;
  scan_max : number;
  scan_sum : number
}.

(** The body of the loop over the triangles. *)
Definition scan_step (triangle_indices : list Z) (opacities : list Q)
    (i : nat) (s : scan_state) : scan_state :=
  let v0Idx := triangle_indices !! (i * 3)%nat in
  let v1Idx := triangle_indices !! (i * 3 + 1)%nat in
  let v2Idx := triangle_indices !! (i * 3 + 2)%nat in
  let w0 := f32_at opacities v0Idx in
  let w1 := f32_at opacities v1Idx in
  let w2 := f32_at opacities v2Idx in
  let minWeight := min3 w0 w1 w2 in
  {| scan_filtered :=
       if lt minWeight (Fin STOPPING_INFLUENCE)
       then (scan_filtered s + 1)%Z else scan_filtered s;
     scan_weights := scan_weights s ++ [minWeight];
     scan_min := min2 (scan_min s) minWeight;
     scan_max := max2 (scan_max s) minWeight;
     scan_sum := add (scan_sum s) minWeight |}.

(** [sort((a, b) => a - b)]: an insertion that keeps [x] behind the
    elements it does not sort before.  On numbers without [NaN] the
    comparator is consistent, and every conforming sort returns this
    list. *)
Fixpoint insert_by_difference (x : number) (l : list number)
    : list number :=
  match l with
  | [] => [x]
  | y :: l' =>
      if lt (sub x y) (Fin 0) then x :: y :: l'
      else y :: insert_by_difference x l'
  end.

Definition sort_by_difference (l : list number) : list number :=
  fold_left (fun sorted x => insert_by_difference x sorted) l [].

(** The camera argument is not used.  Of the logged report only the
    call that can throw is kept. *)
Definition analyzeTriangleFiltering (vertices : list Q)
    (triangle_indices : list Z) (opacities : list Q) (debug : bool)
    : outcome :=
  if negb debug
  then Returned
         {| minWeightFiltered := 0;
            totalTriangles := 0;
            filterPercentage := Fin 0;
            weightStats := {| ws_min := Fin 0; ws_max := Fin 0;
                              ws_mean := Fin 0; ws_median := Fin 0 |} |}
  else
    let numTriangles := third_of_length triangle_indices in
    let s :=
      for_loop (trip_count numTriangles)
        (scan_step triangle_indices opacities)
        {| scan_filtered := 0;
           scan_weights := [];
           scan_min := PosInf;
           scan_max := NegInf;
           scan_sum := Fin 0 |} in
    let meanWeight := div (scan_sum s) (Fin numTriangles) in
    let sortedWeights := sort_by_difference (scan_weights s) in
    let filterPercentage :=
      mul (div (Fin (inject_Z (scan_filtered s))) (Fin numTriangles))
          (Fin 100) in
    match sortedWeights !! Z.to_nat (Qfloor (numTriangles / 2)) with
    | None => TypeError
    | Some medianWeight =>
        Returned
          {| minWeightFiltered := scan_filtered s;
             totalTriangles := numTriangles;
             filterPercentage := filterPercentage;
             weightStats := {| ws_min := scan_min s; ws_max := scan_max s;
                               ws_mean := meanWeight;
                               ws_median := medianWeight |} |}
    end.

End Analyze.

(** ** From the vertex stage to the fragment stage *)

Module Pipeline.
Import GLSL.

(** The three corner records of a triangle write the same values to the
    geometric outputs, so that the fragment stage receives them as
    written; the colours are given separately. *)
Definition fragment_inputs (v : VertexStage.varyings) (c0 c1 c2 : vec3)
    : FragmentStage.inputs :=
  {| FragmentStage.vColor0 := c0;
     FragmentStage.vColor1 := c1;
     FragmentStage.vColor2 := c2;
     FragmentStage.vScreenPos0 := VertexStage.vScreenPos0 v;
     FragmentStage.vScreenPos1 := VertexStage.vScreenPos1 v;
     FragmentStage.vScreenPos2 := VertexStage.vScreenPos2 v;
     FragmentStage.vTriangleMinWeight := VertexStage.vTriangleMinWeight v;
     FragmentStage.vPhiCenterScale := VertexStage.vPhiCenterScale v;
     FragmentStage.vNormal0 := VertexStage.vNormal0 v;
     FragmentStage.vNormal1 := VertexStage.vNormal1 v;
     FragmentStage.vNormal2 := VertexStage.vNormal2 v;
     FragmentStage.vOffset0 := VertexStage.vOffset0 v;
     FragmentStage.vOffset1 := VertexStage.vOffset1 v;
     FragmentStage.vOffset2 := VertexStage.vOffset2 v |}.

End Pipeline.

(** ** The colour outputs of the vertex stage *)

Module VertexColours.
Import GLSL SHTexture.
Local Open Scope R_scope.

(** The attributes and uniforms that the colour block of the vertex
    [main] reads besides those of its geometric part. *)
Record attributes : Type := Attributes {
  aVertexIndex : R;
  aTriangleVertexIdx0 : R;
  aTriangleVertexIdx1 : R;
  aTriangleVertexIdx2 : R
}.

Record uniforms : Type := Uniforms {
  modelMatrix : mat4;
  worldCameraPosition : vec3;
  shDataTexture : SH.sampler2D
}.

(** The four colour outputs; a colour is undefined ([None]) when a texel
    of its vertex lies outside the texture. *)
Record colours : Type := Colours {
  vColor : option vec3;
  vColor0 : option vec3;
  vColor1 : option vec3;
  vColor2 : option vec3
}.

(** [int(x)] of a float: the fraction is dropped. *)
Definition int (x : R) : Z :=
  if lessThan x 0 then (- Int_part (- x))%Z else Int_part x.

(** [(modelMatrix * vec4(v, 1.0)).xyz] *)
Definition world_position (cu : uniforms) (v : vec3) : vec3 :=
  xyz (mat4_vec (modelMatrix cu) (vec4_of v 1)).

(** The colour block of [main] in the shader generated with [useSH]
    true.  (With [useSH] false the generated source still contains
    [fetchSHDataAt] and [computeVertexColor], which name the undeclared
    [shDataTexture], [SH_C0] and [computeSH], and does not compile.)
    [computeVertexColor] is called four times; [uninitialized k] is the
    unspecified initial content of the local array [f_rest] of call
    [k]. *)
Definition colour_block (sh_degree : Z) (cu : uniforms)
    (a : VertexStage.attributes) (ca : attributes)
    (uninitialized : nat -> list (coefficient R)) : colours :=
  let computeVertexColor k :=
    SH.computeVertexColor sh_degree (shDataTexture cu)
      (worldCameraPosition cu) (uninitialized k) in
  let worldPos0 := world_position cu (VertexStage.aTriangleV0 a) in
  let worldPos1 := world_position cu (VertexStage.aTriangleV1 a) in
  let worldPos2 := world_position cu (VertexStage.aTriangleV2 a) in
  let vIdx0 := int (aTriangleVertexIdx0 ca) in
  let vIdx1 := int (aTriangleVertexIdx1 ca) in
  let vIdx2 := int (aTriangleVertexIdx2 ca) in
  let vColor0 := computeVertexColor 0%nat vIdx0 worldPos0 in
  let vColor1 := computeVertexColor 1%nat vIdx1 worldPos1 in
  let vColor2 := computeVertexColor 2%nat vIdx2 worldPos2 in
  let vColor :=
    computeVertexColor 3%nat (int (aVertexIndex ca))
      (world_position cu (VertexStage.position a)) in
  {| vColor := vColor; vColor0 := vColor0; vColor1 := vColor1;
     vColor2 := vColor2 |}.

Inductive vertex_result : Type :=
| Culled
| Emitted (gl_Position : vec4) (out : VertexStage.varyings) (colour : colours).

(** The whole vertex [main]: every early return lies before the colour
    block, which reads none of the values computed before it. *)
Definition vertex_main (sh_degree : Z) (u : VertexStage.uniforms)
    (cu : uniforms) (a : VertexStage.attributes) (ca : attributes)
    (uninitialized : nat -> list (coefficient R)) : vertex_result :=
  match VertexStage.main u a with
  | VertexStage.Culled => Culled
  | VertexStage.Emitted gl_Position out =>
      Emitted gl_Position out (colour_block sh_degree cu a ca uninitialized)
  end.

(** The inputs that the fragment [main] reads.  The fragment shader
    declares [vColor] as well and never reads it. *)
Definition fragment_inputs (v : VertexStage.varyings) (c : colours)
    : option FragmentStage.inputs :=
  c0 ← vColor0 c;
  c1 ← vColor1 c;
  c2 ← vColor2 c;
  Some (Pipeline.fragment_inputs v c0 c1 c2).

End VertexColours.

(** ** Sample inputs *)

Module Samples.
Import JS GLSL SHTexture SH.

(** Direct colours, DC and degree-1 rest features for the four vertices
    of the quad. *)
Definition quad_colors : list Z :=
  [255; 0; 0;  0; 255; 0;  0; 0; 255;  51; 102; 204]%Z.
Definition quad_features_dc : list Q :=
  [1; 2; 3;  4; 5; 6;  7; 8; 9;  10; 11; 12]%Q.
Definition quad_features_rest : list Q :=
  map (fun n => inject_Z (Z.of_nat n) / 4)%Q (seq 0 36).

(** Unspecified contents of the shader's local array. *)
Definition unset_numbers : list (coefficient number) :=
  replicate 15 (NaN, NaN, NaN).
Definition unset_zeros : list (coefficient R) :=
  replicate 15 (0%R, 0%R, 0%R).
Definition unset_ones : list (coefficient R) :=
  replicate 15 (1%R, 1%R, 1%R).

(** A texture of one vertex with a DC coefficient and no rest. *)
Definition dc_texture : sampler2D :=
  {| texels := [1; 1 / 2; 1 / 4; 0]%R ++ replicate 44 0%R;
     texSize_x := 1024;
     texSize_y := 1 |}.
Definition eye : vec3 := Vec3 0 0 0.
Definition ahead : vec3 := Vec3 0 0 (-1).

End Samples.

(* ================================================================== *)
(** * Part II: properties *)
(* ================================================================== *)

(** ** Loops over typed arrays *)

Section Loops.
Import TypedArray.

Lemma for_loop_0 {S} (body : nat -> S -> S) s : for_loop 0 body s = s.
Proof. reflexivity. Qed.

Lemma for_loop_S {S} n (body : nat -> S -> S) s :
  for_loop (Datatypes.S n) body s = body n (for_loop n body s).
Proof.
  unfold for_loop. rewrite seq_S, fold_left_app. reflexivity.
Qed.

(** Invariant rule for counted loops. *)
Lemma for_loop_ind {S} (P : nat -> S -> Prop) n (body : nat -> S -> S) s :
  P 0%nat s ->
  (forall i st, i < n -> P i st -> P (Datatypes.S i) (body i st)) ->
  P n (for_loop n body s).
Proof.
  intros H0 Hstep. induction n as [|n IH].
  - exact H0.
  - rewrite for_loop_S. apply Hstep; [lia|]. apply IH.
    intros i st Hi. apply Hstep. lia.
Qed.

Lemma get_Some {A} (a : list A) (idx : Z) :
  (0 <= idx < Z.of_nat (length a))%Z -> get a idx = a !! Z.to_nat idx.
Proof.
  intros H. unfold get, in_bounds.
  destruct (Z.leb_spec 0 idx); [|lia].
  destruct (Z.ltb_spec idx (Z.of_nat (length a))); [|lia]. reflexivity.
Qed.

Lemma get_outside {A} (a : list A) (idx : Z) :
  (Z.of_nat (length a) <= idx)%Z -> get a idx = None.
Proof.
  intros H. unfold get, in_bounds.
  destruct (Z.ltb_spec idx (Z.of_nat (length a))); [lia|].
  rewrite andb_false_r. reflexivity.
Qed.

Lemma set_in {A} (a : list A) (idx : Z) v :
  (0 <= idx < Z.of_nat (length a))%Z -> set a idx v = <[Z.to_nat idx := v]> a.
Proof.
  intros H. unfold set, in_bounds.
  destruct (Z.leb_spec 0 idx); [|lia].
  destruct (Z.ltb_spec idx (Z.of_nat (length a))); [|lia]. reflexivity.
Qed.

Lemma length_set {A} (a : list A) idx v : length (set a idx v) = length a.
Proof.
  unfold set. destruct (in_bounds a idx); [apply length_insert | reflexivity].
Qed.

(** A loop that fills slot [i] at iteration [i]. *)
Lemma fill_loop_lookup {A} (f : nat -> A) n (a0 : list A) j :
  n <= length a0 ->
  for_loop n (fun i a => <[i := f i]> a) a0 !! j
  = if decide (j < n) then Some (f j) else a0 !! j.
Proof.
  intros Hn.
  pose (P := fun (k : nat) (a : list A) =>
    length a = length a0 /\
    forall j, a !! j = if decide (j < k) then Some (f j) else a0 !! j).
  assert (HP : P n (for_loop n (fun i a => <[i := f i]> a) a0)).
  { apply for_loop_ind.
    - split; [reflexivity|]. intros k. destruct (decide (k < 0)); [lia|done].
    - intros i st Hi [Hlen Hst]. split.
      + rewrite length_insert. exact Hlen.
      + intros k. destruct (decide (k = i)) as [-> | Hne].
        * rewrite list_lookup_insert_eq by lia.
          destruct (decide (i < Datatypes.S i)); [done|lia].
        * rewrite list_lookup_insert_ne by done. rewrite Hst.
          destruct (decide (k < i)), (decide (k < Datatypes.S i));
            try lia; done. }
  apply HP.
Qed.

Lemma fill_loop_length {A} (f : nat -> A) n (a0 : list A) :
  length (for_loop n (fun i a => <[i := f i]> a) a0) = length a0.
Proof.
  apply (for_loop_ind (fun _ a => length a = length a0)); [reflexivity|].
  intros i st _ H. rewrite length_insert. exact H.
Qed.

(** A loop of single writes keeps the length of the array. *)
Lemma fill_loop_length_gen {A} (at_ : nat -> nat) (f : nat -> A) n
    (a0 : list A) :
  length (for_loop n (fun i a => <[at_ i := f i]> a) a0) = length a0.
Proof.
  apply (for_loop_ind (fun _ a => length a = length a0)); [reflexivity|].
  intros i st _ H. rewrite length_insert. exact H.
Qed.

(** A loop that fills the slots [3i], [3i+1], [3i+2] at iteration [i];
    writes past the end of the array are dropped. *)
Lemma triple_loop_lookup_in {A} (f : nat -> nat -> A) n (a0 : list A) k j :
  k < n -> j < 3 -> k * 3 + j < length a0 ->
  for_loop n (fun i a =>
      <[(i * 3 + 2)%nat := f i 2%nat]>
        (<[(i * 3 + 1)%nat := f i 1%nat]> (<[(i * 3)%nat := f i 0%nat]> a))) a0
    !! (k * 3 + j)%nat = Some (f k j).
Proof.
  intros Hk Hj Hlt. revert k j Hk Hj Hlt.
  pose (P := fun (m : nat) (a : list A) =>
    length a = length a0 /\
    forall k j, k < m -> j < 3 -> k * 3 + j < length a0 ->
      a !! (k * 3 + j)%nat = Some (f k j)).
  apply (for_loop_ind P).
  - split; [reflexivity|]. intros; lia.
  - intros i st Hi [Hlen Hst]. split.
    + rewrite !length_insert. exact Hlen.
    + intros k j Hk Hj Hlt.
      destruct (decide (k = i)) as [-> | Hne].
      * assert (j = 0 \/ j = 1 \/ j = 2)%nat as [-> | [-> | ->]] by lia.
        -- rewrite Nat.add_0_r in *.
           rewrite list_lookup_insert_ne by lia.
           rewrite list_lookup_insert_ne by lia.
           rewrite list_lookup_insert_eq by lia. reflexivity.
        -- rewrite list_lookup_insert_ne by lia.
           rewrite list_lookup_insert_eq by (rewrite length_insert; lia).
           reflexivity.
        -- rewrite list_lookup_insert_eq by (rewrite !length_insert; lia).
           reflexivity.
      * rewrite !list_lookup_insert_ne by lia. apply Hst; lia.
Qed.

Lemma triple_loop_lookup {A} (f : nat -> nat -> A) n (a0 : list A) k j :
  n * 3 <= length a0 -> k < n -> j < 3 ->
  for_loop n (fun i a =>
      <[(i * 3 + 2)%nat := f i 2%nat]>
        (<[(i * 3 + 1)%nat := f i 1%nat]> (<[(i * 3)%nat := f i 0%nat]> a))) a0
    !! (k * 3 + j)%nat = Some (f k j).
Proof.
  intros Hn Hk Hj. apply triple_loop_lookup_in; lia.
Qed.

(** The component of the loop state that a projection selects evolves by
    the projected body. *)
Lemma for_loop_proj {S S'} (proj : S -> S') n (body : nat -> S -> S)
    (body' : nat -> S' -> S') s :
  (forall i st, proj (body i st) = body' i (proj st)) ->
  proj (for_loop n body s) = for_loop n body' (proj s).
Proof.
  intros H. induction n as [|n IH]; [reflexivity|].
  rewrite !for_loop_S, H, IH. reflexivity.
Qed.

Lemma triple_loop_length {A} (f : nat -> nat -> A) n (a0 : list A) :
  length (for_loop n (fun i a =>
      <[(i * 3 + 2)%nat := f i 2%nat]>
        (<[(i * 3 + 1)%nat := f i 1%nat]> (<[(i * 3)%nat := f i 0%nat]> a))) a0)
  = length a0.
Proof.
  apply (for_loop_ind (fun _ a => length a = length a0)); [reflexivity|].
  intros i st _ H. rewrite !length_insert. exact H.
Qed.

End Loops.

(** ** Counting *)

Section Counting.
Import SorterSpec.

Lemma count_below_le p n : count_below p n <= n.
Proof. induction n as [|n IH]; simpl; [lia|]. destruct (p n); lia. Qed.

Lemma count_below_mono p n m : n <= m -> count_below p n <= count_below p m.
Proof.
  induction 1 as [|m _ IH]; [lia|]. simpl. destruct (p m); lia.
Qed.

Lemma count_below_hit p i n :
  i < n -> p i = true -> count_below p i < count_below p n.
Proof.
  intros Hi Hp.
  assert (H : count_below p (S i) <= count_below p n)
    by (apply count_below_mono; lia).
  simpl in H. rewrite Hp in H. lia.
Qed.

Lemma count_below_ext p q n :
  (forall j, j < n -> p j = q j) -> count_below p n = count_below q n.
Proof.
  induction n as [|n IH]; intros H; simpl; [reflexivity|].
  rewrite IH by (intros; apply H; lia). rewrite (H n) by lia. reflexivity.
Qed.

Lemma count_below_disjoint p q n :
  (forall j, j < n -> p j = true -> q j = false) ->
  count_below p n + count_below q n <= n.
Proof.
  induction n as [|n IH]; intros H; simpl; [lia|].
  specialize (IH (fun j Hj => H j (Nat.lt_lt_succ_r _ _ Hj))).
  specialize (H n (Nat.lt_succ_diag_r n)).
  destruct (p n), (q n); try lia; specialize (H eq_refl); discriminate.
Qed.

(** Keys below [d + 1] are the keys below [d] and the keys equal to [d]. *)
Lemma count_lt_succ (k : nat -> Z) (d : Z) n :
  count_below (fun j => (k j <? d + 1)%Z) n
  = count_below (fun j => (k j <? d)%Z) n
    + count_below (fun j => (k j =? d)%Z) n.
Proof.
  induction n as [|n IH]; simpl; [reflexivity|]. rewrite IH.
  destruct (Z.ltb_spec (k n) (d + 1)), (Z.ltb_spec (k n) d),
    (Z.eqb_spec (k n) d); lia.
Qed.

Lemma count_lt_mono (k : nat -> Z) (d d' : Z) n :
  (d <= d')%Z ->
  count_below (fun j => (k j <? d)%Z) n
  <= count_below (fun j => (k j <? d')%Z) n.
Proof.
  intros Hd. induction n as [|n IH]; simpl; [lia|].
  destruct (Z.ltb_spec (k n) d), (Z.ltb_spec (k n) d'); lia.
Qed.

End Counting.

(** ** The stable rank is a bijection on the triangles *)

Section Rank.
Import SorterSpec.
Variable depthsInt : list Z.
Variable numTriangles : nat.

Local Abbreviation key := (key depthsInt).
Local Abbreviation rank := (rank depthsInt numTriangles).

Lemma rank_lex i j :
  i < numTriangles -> j < numTriangles ->
  bucket_lex key i j -> rank i < rank j.
Proof.
  intros Hi Hj [Hlt | [Heq Hij]]; unfold SorterSpec.rank.
  - assert (H1 : count_below (fun j0 => (key j0 =? key i)%Z) i
                 < count_below (fun j0 => (key j0 =? key i)%Z) numTriangles).
    { apply count_below_hit; [exact Hi|]. apply Z.eqb_refl. }
    pose proof (count_lt_succ key (key i) numTriangles) as H2.
    pose proof (count_lt_mono key (key i + 1) (key j) numTriangles) as H3.
    lia.
  - rewrite <- Heq.
    assert (H1 : count_below (fun j0 => (key j0 =? key i)%Z) i
                 < count_below (fun j0 => (key j0 =? key i)%Z) j).
    { apply count_below_hit; [exact Hij|]. apply Z.eqb_refl. }
    lia.
Qed.

Lemma bucket_lex_total i j : i <> j -> bucket_lex key i j \/ bucket_lex key j i.
Proof. unfold bucket_lex. intros Hne. lia. Qed.

Lemma rank_inj i j :
  i < numTriangles -> j < numTriangles -> rank i = rank j -> i = j.
Proof.
  intros Hi Hj Heq. destruct (decide (i = j)) as [|Hne]; [assumption|].
  destruct (bucket_lex_total i j Hne) as [H|H];
    apply rank_lex in H; try assumption; lia.
Qed.

Lemma rank_lex_inv i j :
  i < numTriangles -> j < numTriangles ->
  rank i < rank j -> bucket_lex key i j.
Proof.
  intros Hi Hj Hlt. destruct (decide (i = j)) as [-> | Hne]; [lia|].
  destruct (bucket_lex_total i j Hne) as [H|H]; [exact H|].
  apply rank_lex in H; try assumption. lia.
Qed.

Lemma rank_bound i : i < numTriangles -> rank i < numTriangles.
Proof.
  intros Hi. unfold SorterSpec.rank.
  assert (H1 : count_below (fun j0 => (key j0 =? key i)%Z) i
               < count_below (fun j0 => (key j0 =? key i)%Z) numTriangles).
  { apply count_below_hit; [exact Hi|]. apply Z.eqb_refl. }
  pose proof (count_below_disjoint
    (fun j0 => (key j0 <? key i)%Z) (fun j0 => (key j0 =? key i)%Z)
    numTriangles) as H2.
  assert (count_below (fun j0 => (key j0 <? key i)%Z) numTriangles
          + count_below (fun j0 => (key j0 =? key i)%Z) numTriangles
          <= numTriangles).
  { apply H2. intros j _ Hlt. apply Z.ltb_lt in Hlt. apply Z.eqb_neq. lia. }
  lia.
Qed.

(** Every position below [numTriangles] is the rank of some triangle. *)
Lemma rank_surj k :
  k < numTriangles -> exists i, i < numTriangles /\ rank i = k.
Proof.
  intros Hk.
  assert (Hnd : NoDup (map rank (seq 0 numTriangles))).
  { apply NoDup_fmap_2_strong; [|apply NoDup_seq].
    intros x y Hx Hy. apply list_elem_of_In, in_seq in Hx.
    apply list_elem_of_In, in_seq in Hy. apply rank_inj; lia. }
  assert (Hincl : incl (map rank (seq 0 numTriangles)) (seq 0 numTriangles)).
  { intros r Hr. apply in_map_iff in Hr as (i & <- & Hi).
    apply in_seq in Hi. apply in_seq. pose proof (rank_bound i). lia. }
  assert (Hback : incl (seq 0 numTriangles) (map rank (seq 0 numTriangles))).
  { apply NoDup_length_incl; [apply NoDup_ListNoDup, Hnd | | exact Hincl].
    rewrite length_map. lia. }
  assert (Hin : In k (seq 0 numTriangles)) by (apply in_seq; lia).
  apply Hback, in_map_iff in Hin as (i & Hi & Hin).
  exists i. apply in_seq in Hin. split; [lia | exact Hi].
Qed.

End Rank.

(** ** The counting sort of step 3 *)

Section CountingSort.
Import TypedArray Sorter SorterSpec.
Variable numTriangles : nat.
Variable depthsInt : list Z.
Hypothesis depthsInt_length : length depthsInt = numTriangles.
Hypothesis keys_nonneg :
  forall i, i < numTriangles -> (0 <= key depthsInt i)%Z.

Local Opaque NUM_BUCKETS.

Local Abbreviation key := (key depthsInt).
Local Abbreviation rank := (rank depthsInt numTriangles).
Local Abbreviation count_eq :=
  (fun (d : Z) n => count_below (fun j => (key j =? d)%Z) n).
Local Abbreviation count_lt :=
  (fun (d : Z) => count_below (fun j => (key j <? d)%Z) numTriangles).
(** A key that is an index of the 65536-entry arrays. *)
Local Abbreviation valid := (fun i => (key i < Z.of_nat NUM_BUCKETS)%Z).

Lemma depthsInt_lookup i : i < numTriangles -> depthsInt !! i = Some (key i).
Proof using depthsInt_length.
  intros Hi. unfold SorterSpec.key.
  destruct (lookup_lt_is_Some_2 depthsInt i) as [d Hd]; [lia|].
  rewrite Hd. reflexivity.
Qed.

(** A key outside the arrays counts nowhere. *)
Lemma countBuckets_inv n :
  n <= numTriangles ->
  let counts := for_loop n (count_step depthsInt) (replicate NUM_BUCKETS 0%Z) in
  length counts = NUM_BUCKETS /\
  forall d, (0 <= d < Z.of_nat NUM_BUCKETS)%Z ->
    counts !! Z.to_nat d = Some (Z.of_nat (count_eq d n)).
Proof using depthsInt_length keys_nonneg.
  intros Hn. cbv zeta.
  apply (for_loop_ind (fun n counts =>
    length counts = NUM_BUCKETS /\
    forall d, (0 <= d < Z.of_nat NUM_BUCKETS)%Z ->
      counts !! Z.to_nat d = Some (Z.of_nat (count_eq d n)))).
  - split; [apply length_replicate|].
    intros d Hd. simpl. apply lookup_replicate_2. lia.
  - intros i counts Hi' [Hlen Hcounts].
    assert (Hi : i < numTriangles) by lia.
    unfold count_step. rewrite (depthsInt_lookup i Hi).
    pose proof (keys_nonneg i Hi) as Hk0.
    destruct (Z_lt_dec (key i) (Z.of_nat NUM_BUCKETS)) as [Hki | Hki].
    + rewrite get_Some by lia. rewrite (Hcounts _ (conj Hk0 Hki)).
      rewrite set_in by lia. split; [rewrite length_insert; exact Hlen|].
      intros d Hd. simpl.
      destruct (Z.eqb_spec (key i) d) as [-> | Hne].
      * rewrite list_lookup_insert_eq by lia. f_equal. lia.
      * rewrite list_lookup_insert_ne by lia. rewrite (Hcounts _ Hd).
        f_equal. lia.
    + rewrite get_outside by lia. split; [exact Hlen|].
      intros d Hd. cbn [count_below].
      destruct (Z.eqb_spec (key i) d) as [Heq | Hne]; [lia|].
      rewrite (Hcounts _ Hd). f_equal. lia.
Qed.

Lemma countBuckets_lookup d :
  (0 <= d < Z.of_nat NUM_BUCKETS)%Z ->
  countBuckets numTriangles depthsInt !! Z.to_nat d
  = Some (Z.of_nat (count_eq d numTriangles)).
Proof using depthsInt_length keys_nonneg.
  intros Hd. apply (countBuckets_inv numTriangles); [lia | exact Hd].
Qed.

Lemma prefixOffsets_inv n :
  n <= NUM_BUCKETS ->
  let s := for_loop n (offset_step (countBuckets numTriangles depthsInt))
             (replicate NUM_BUCKETS 0%Z, 0%Z) in
  length (fst s) = NUM_BUCKETS /\
  snd s = Z.of_nat (count_lt (Z.of_nat n)) /\
  forall m, m < n -> fst s !! m = Some (Z.of_nat (count_lt (Z.of_nat m))).
Proof using depthsInt_length keys_nonneg.
  intros Hn. cbv zeta.
  apply (for_loop_ind (fun n s =>
    length (fst s) = NUM_BUCKETS /\
    snd s = Z.of_nat (count_lt (Z.of_nat n)) /\
    forall m, m < n -> fst s !! m = Some (Z.of_nat (count_lt (Z.of_nat m))))).
  - split; [apply length_replicate|]. split; [|intros; lia].
    simpl.
    change (Z.of_nat 0) with 0%Z.
    assert (H0 : count_lt 0%Z = 0%nat); [|rewrite H0; reflexivity].
    transitivity (count_below (fun _ => false) numTriangles).
    + apply count_below_ext. intros j Hj.
      pose proof (keys_nonneg j Hj). apply Z.ltb_ge. lia.
    + clear. induction numTriangles as [|n IH]; simpl; lia.
  - intros i [offsets cur] Hi (Hlen & Hcur & Hoff). simpl in *.
    assert (Hcount : countBuckets numTriangles depthsInt !! i
                     = Some (Z.of_nat (count_eq (Z.of_nat i) numTriangles))).
    { rewrite <- (Nat2Z.id i) at 1. apply countBuckets_lookup. lia. }
    rewrite Hcount. simpl. split; [rewrite length_insert; exact Hlen|]. split.
    + rewrite Hcur. rewrite Nat2Z.inj_succ, <- Z.add_1_r.
      rewrite (count_lt_succ key (Z.of_nat i) numTriangles). lia.
    + intros m Hm. destruct (decide (m = i)) as [-> | Hne].
      * rewrite list_lookup_insert_eq by lia. rewrite Hcur. reflexivity.
      * rewrite list_lookup_insert_ne by lia. apply Hoff. lia.
Qed.

Lemma prefixOffsets_length :
  length (prefixOffsets (countBuckets numTriangles depthsInt)) = NUM_BUCKETS.
Proof using depthsInt_length keys_nonneg.
  apply (prefixOffsets_inv NUM_BUCKETS). lia.
Qed.

Lemma prefixOffsets_lookup d :
  (0 <= d < Z.of_nat NUM_BUCKETS)%Z ->
  prefixOffsets (countBuckets numTriangles depthsInt) !! Z.to_nat d
  = Some (Z.of_nat (count_lt d)).
Proof using depthsInt_length keys_nonneg.
  intros Hd.
  destruct (prefixOffsets_inv NUM_BUCKETS (Nat.le_refl _)) as (_ & _ & H).
  unfold prefixOffsets. rewrite H by lia. rewrite Z2Nat.id by lia.
  reflexivity.
Qed.

(** The placement loop: a triangle with a valid key is written at its
    stable rank; a triangle whose key is no index of [offsets] is
    skipped, and a slot that no triangle reaches keeps its initial 0. *)
Lemma placeTriangles_inv n :
  n <= numTriangles ->
  let s := for_loop n (place_step depthsInt)
             (prefixOffsets (countBuckets numTriangles depthsInt),
              replicate numTriangles 0%Z) in
  length (fst s) = NUM_BUCKETS /\
  length (snd s) = numTriangles /\
  (forall d, (0 <= d < Z.of_nat NUM_BUCKETS)%Z ->
     fst s !! Z.to_nat d = Some (Z.of_nat (count_lt d + count_eq d n))) /\
  (forall i, i < n -> valid i -> snd s !! rank i = Some (Z.of_nat i)) /\
  forall k, k < numTriangles ->
    (forall i, i < n -> valid i -> rank i <> k) -> snd s !! k = Some 0%Z.
Proof using depthsInt_length keys_nonneg.
  intros Hn. cbv zeta.
  apply (for_loop_ind (fun n s =>
    length (fst s) = NUM_BUCKETS /\
    length (snd s) = numTriangles /\
    (forall d, (0 <= d < Z.of_nat NUM_BUCKETS)%Z ->
       fst s !! Z.to_nat d = Some (Z.of_nat (count_lt d + count_eq d n))) /\
    (forall i, i < n -> valid i -> snd s !! rank i = Some (Z.of_nat i)) /\
    forall k, k < numTriangles ->
      (forall i, i < n -> valid i -> rank i <> k) ->
      snd s !! k = Some 0%Z)).
  - simpl. split; [apply prefixOffsets_length|].
    split; [apply length_replicate|]. split; [|split; [intros; lia|]].
    + intros d Hd. rewrite prefixOffsets_lookup by exact Hd. f_equal. lia.
    + intros k Hk _. apply lookup_replicate_2. exact Hk.
  - intros i [offsets sorted] Hi' (Hlo & Hls & Hoff & Hsorted & Hrest).
    simpl in *.
    assert (Hi : i < numTriangles) by lia.
    unfold place_step. rewrite (depthsInt_lookup i Hi).
    pose proof (keys_nonneg i Hi) as Hk0.
    destruct (Z_lt_dec (key i) (Z.of_nat NUM_BUCKETS)) as [Hki | Hki].
    + rewrite get_Some by lia. rewrite (Hoff _ (conj Hk0 Hki)).
      pose proof (rank_bound depthsInt numTriangles i Hi) as Hrb.
      assert (Hrank : (count_lt (key i) + count_eq (key i) i)%nat = rank i)
        by reflexivity.
      rewrite Hrank. simpl.
      rewrite !set_in by lia. rewrite Nat2Z.id.
      split; [rewrite length_insert; exact Hlo|].
      split; [rewrite length_insert; exact Hls|]. split; [|split].
      * intros d Hd. destruct (Z.eqb_spec (key i) d) as [<- | Hne].
        -- rewrite list_lookup_insert_eq by lia. f_equal. lia.
        -- rewrite list_lookup_insert_ne by lia. rewrite (Hoff _ Hd).
           f_equal. lia.
      * intros j Hj Hvj. destruct (decide (j = i)) as [-> | Hne].
        -- rewrite list_lookup_insert_eq by lia. reflexivity.
        -- rewrite list_lookup_insert_ne; [apply Hsorted; [lia | exact Hvj]|].
           intros Heq. apply Hne. symmetry.
           apply (rank_inj depthsInt numTriangles); [lia | lia | exact Heq].
      * intros k Hk Hfree.
        rewrite list_lookup_insert_ne by (apply Hfree; [lia | exact Hki]).
        apply Hrest; [exact Hk|]. intros j Hj. apply Hfree. lia.
    + rewrite get_outside by lia. cbn [fst snd].
      split; [exact Hlo|]. split; [exact Hls|]. split; [|split].
      * intros d Hd. cbn [count_below].
        destruct (Z.eqb_spec (key i) d) as [Heq | Hne]; [lia|].
        rewrite (Hoff _ Hd). f_equal. lia.
      * intros j Hj Hvj. destruct (decide (j = i)) as [-> | Hne];
          [contradiction|]. apply Hsorted; [lia | exact Hvj].
      * intros k Hk Hfree. apply Hrest; [exact Hk|].
        intros j Hj. apply Hfree. lia.
Qed.

Local Abbreviation sorted_of_keys := (countingSort numTriangles depthsInt).

Lemma countingSort_length : length sorted_of_keys = numTriangles.
Proof using depthsInt_length keys_nonneg.
  apply (placeTriangles_inv numTriangles). lia.
Qed.

(** The counting sort puts every triangle with a valid key at its stable
    rank. *)
Lemma countingSort_at_rank i :
  i < numTriangles -> valid i -> sorted_of_keys !! rank i = Some (Z.of_nat i).
Proof using depthsInt_length keys_nonneg.
  intros Hi Hv.
  destruct (placeTriangles_inv numTriangles (Nat.le_refl _))
    as (_ & _ & _ & H & _).
  apply H; assumption.
Qed.

(** A slot that is the rank of no triangle with a valid key holds 0. *)
Lemma countingSort_unreached k :
  k < numTriangles ->
  (forall i, i < numTriangles -> valid i -> rank i <> k) ->
  sorted_of_keys !! k = Some 0%Z.
Proof using depthsInt_length keys_nonneg.
  intros Hk Hfree.
  destruct (placeTriangles_inv numTriangles (Nat.le_refl _))
    as (_ & _ & _ & _ & H).
  apply H; assumption.
Qed.

End CountingSort.

(** *** When every key is an index of the arrays *)

Section CountingSortInRange.
Import TypedArray Sorter SorterSpec.
Variable numTriangles : nat.
Variable depthsInt : list Z.
Hypothesis depthsInt_length : length depthsInt = numTriangles.
Hypothesis depthsInt_range :
  forall i, i < numTriangles ->
    (0 <= key depthsInt i < Z.of_nat NUM_BUCKETS)%Z.

Local Abbreviation rank := (rank depthsInt numTriangles).
Local Abbreviation sorted_of_keys := (countingSort numTriangles depthsInt).

Lemma keys_in_range_nonneg i :
  i < numTriangles -> (0 <= key depthsInt i)%Z.
Proof using depthsInt_range. intros Hi. apply depthsInt_range, Hi. Qed.

Lemma sorted_length : length sorted_of_keys = numTriangles.
Proof using depthsInt_length depthsInt_range.
  apply countingSort_length; [exact depthsInt_length|].
  exact keys_in_range_nonneg.
Qed.

(** The counting sort puts every triangle at its stable rank. *)
Lemma sorted_at_rank i :
  i < numTriangles -> sorted_of_keys !! rank i = Some (Z.of_nat i).
Proof using depthsInt_length depthsInt_range.
  intros Hi.
  apply countingSort_at_rank;
    [exact depthsInt_length | exact keys_in_range_nonneg | exact Hi|].
  apply depthsInt_range, Hi.
Qed.

(** Conversely, every slot holds the triangle whose rank it is. *)
Lemma sorted_slot k :
  k < numTriangles ->
  exists i, i < numTriangles /\ rank i = k
            /\ sorted_of_keys !! k = Some (Z.of_nat i).
Proof using depthsInt_length depthsInt_range.
  intros Hk. destruct (rank_surj depthsInt numTriangles k Hk) as (i & Hi & <-).
  exists i. repeat split; [exact Hi|]. apply sorted_at_rank. exact Hi.
Qed.

End CountingSortInRange.

(** ** JavaScript comparisons *)

Section JSFacts.
Import JS.

Lemma Qlt_bool_iff a b : Qlt_bool a b = true <-> (a < b)%Q.
Proof.
  unfold Qlt_bool. rewrite negb_true_iff. split.
  - intros H. apply Qnot_le_lt. intros Hle.
    apply Qle_bool_iff in Hle. congruence.
  - intros H. destruct (Qle_bool b a) eqn:E; [|reflexivity].
    apply Qle_bool_iff in E. exfalso. apply (Qlt_not_le _ _ H E).
Qed.

Lemma Qlt_bool_false a b : Qlt_bool a b = false <-> (b <= a)%Q.
Proof.
  unfold Qlt_bool. rewrite negb_false_iff. apply Qle_bool_iff.
Qed.

Lemma Qle_bool_false a b : Qle_bool a b = false <-> (b < a)%Q.
Proof.
  split.
  - intros H. apply Qnot_le_lt. intros Hle.
    apply Qle_bool_iff in Hle. congruence.
  - intros H. destruct (Qle_bool a b) eqn:E; [|reflexivity].
    apply Qle_bool_iff in E. exfalso. apply (Qlt_not_le _ _ H E).
Qed.

Lemma Qeq_bool_false a b : Qeq_bool a b = false <-> ~ (a == b)%Q.
Proof.
  split.
  - intros H Heq. apply Qeq_bool_iff in Heq. congruence.
  - intros H. destruct (Qeq_bool a b) eqn:E; [|reflexivity].
    apply Qeq_bool_iff in E. contradiction.
Qed.

Lemma to_uint32_integer (n : Z) :
  (0 <= n < 2 ^ 32)%Z -> to_uint32 (Fin (inject_Z n)) = n.
Proof.
  intros Hn. unfold to_uint32, inject_Z. cbn.
  rewrite Z.quot_1_r. apply Z.mod_small. exact Hn.
Qed.

End JSFacts.

(** ** The depth loop of step 1 and the buckets of step 2 *)

Section Depths.
Import JS TypedArray Sorter SorterSpec.
Variable numTriangles : nat.
Variables centers viewMatrix : list Q.

Local Abbreviation z := (z_cam centers viewMatrix).
Local Abbreviation ds := (computeDepths numTriangles centers viewMatrix).

Lemma z_cam_cases i : z i = NaN \/ exists q, z i = Fin q.
Proof.
  unfold z_cam.
  destruct (viewMatrix !! 2%nat), (viewMatrix !! 6%nat),
    (viewMatrix !! 10%nat), (viewMatrix !! 14%nat),
    (centers !! (i * 3)%nat), (centers !! (i * 3 + 1)%nat),
    (centers !! (i * 3 + 2)%nat); simpl; eauto.
Qed.

Lemma lookup_nth (l : list Q) i : i < length l -> l !! i = Some (nth i l 0%Q).
Proof.
  intros Hi. destruct (lookup_lt_is_Some_2 l i Hi) as [x Hx].
  rewrite Hx. f_equal. symmetry. apply nth_lookup_Some with (d := 0%Q) in Hx.
  exact Hx.
Qed.

(** On a well-shaped request the computed depth is the specified one. *)
Lemma z_cam_spec i :
  numTriangles * 3 <= length centers -> 15 <= length viewMatrix ->
  i < numTriangles -> z i = Fin (spec_depth centers viewMatrix i).
Proof.
  intros Hc Hv Hi. unfold z_cam, spec_depth.
  rewrite !lookup_nth by lia. reflexivity.
Qed.

(** The depths seen so far stay enclosed when one more is seen and the
    bounds are widened around it. *)
Lemma enclosed_step n q a b a' b' :
  z n = Fin q ->
  (forall j q', j < n -> z j = Fin q' -> (a <= q' <= b)%Q) ->
  (a' <= a)%Q -> (b <= b')%Q -> (a' <= q <= b')%Q ->
  forall j q', j < S n -> z j = Fin q' -> (a' <= q' <= b')%Q.
Proof.
  intros Hz Henc Ha Hb Hq j q' Hj Hzj.
  destruct (decide (j = n)) as [-> | Hne].
  - rewrite Hz in Hzj. injection Hzj as <-. exact Hq.
  - pose proof (Henc j q' ltac:(lia) Hzj). lra.
Qed.

Lemma seen_step n (x : Q) :
  (exists j, j < n /\ z j = Fin x) -> exists j, j < S n /\ z j = Fin x.
Proof. intros (j & Hj & Hzj). exists j. split; [lia | exact Hzj]. Qed.

(** One iteration of the depth loop maintains what is known about the
    bounds. *)
Lemma depth_bounds_step n mn mx :
  depth_bounds z n mn mx ->
  depth_bounds z (S n)
    (if lt (z n) mn then z n else mn) (if gt (z n) mx then z n else mx).
Proof.
  intros Hb. destruct (z_cam_cases n) as [Hz | [q Hz]]; rewrite Hz.
  - (* a depth that is not a number changes neither bound *)
    assert (Hmn : lt NaN mn = false) by reflexivity.
    assert (Hmx : gt NaN mx = false) by (unfold gt; destruct mx; reflexivity).
    rewrite Hmn, Hmx.
    destruct Hb as [(Hmin & Hmax & Hall)
                   | (a & b & Hmin & Hmax & Henc & Ha & Hb)].
    + left. split; [exact Hmin|]. split; [exact Hmax|].
      intros j Hj. destruct (decide (j = n)) as [-> | Hne];
        [exact Hz | apply Hall; lia].
    + right. exists a, b. split; [exact Hmin|]. split; [exact Hmax|].
      split; [|split; apply seen_step; assumption].
      intros j q' Hj Hzj. apply (Henc j q'); [|exact Hzj].
      destruct (decide (j = n)) as [-> | Hne]; [congruence | lia].
  - right.
    destruct Hb as [(-> & -> & Hall) | (a & b & -> & -> & Henc & Ha & Hb)].
    + (* the first finite depth sets both bounds *)
      exists q, q. split; [reflexivity|]. split; [reflexivity|].
      split; [|split; exists n; (split; [lia | exact Hz])].
      intros j q' Hj Hzj. destruct (decide (j = n)) as [-> | Hne].
      * rewrite Hz in Hzj. injection Hzj as <-. split; apply Qle_refl.
      * rewrite Hall in Hzj by lia. discriminate.
    + assert (Hab : (a <= b)%Q).
      { destruct Ha as (j & Hj & Hja). apply (Henc j a Hj Hja). }
      unfold gt. cbn [lt].
      destruct (Qlt_bool q a) eqn:Ea, (Qlt_bool b q) eqn:Eb;
        try apply Qlt_bool_iff in Ea; try apply Qlt_bool_iff in Eb;
        try apply Qlt_bool_false in Ea; try apply Qlt_bool_false in Eb.
      * exfalso. lra.
      * exists q, b. split; [reflexivity|]. split; [reflexivity|].
        split; [apply (enclosed_step n q a b); (assumption || lra)|].
        split; [exists n; split; [lia | exact Hz] | apply seen_step, Hb].
      * exists a, q. split; [reflexivity|]. split; [reflexivity|].
        split; [apply (enclosed_step n q a b); (assumption || lra)|].
        split; [apply seen_step, Ha | exists n; split; [lia | exact Hz]].
      * exists a, b. split; [reflexivity|]. split; [reflexivity|].
        split; [apply (enclosed_step n q a b); (assumption || lra)|].
        split; apply seen_step; assumption.
Qed.

Lemma computeDepths_inv :
  length (floatDepths ds) = numTriangles /\
  (forall j, j < numTriangles -> floatDepths ds !! j = Some (fround (z j)))
  /\ depth_bounds z numTriangles (minDepth ds) (maxDepth ds).
Proof.
  unfold computeDepths.
  apply (for_loop_ind (fun n s =>
    length (floatDepths s) = numTriangles /\
    (forall j, j < n -> floatDepths s !! j = Some (fround (z j))) /\
    depth_bounds z n (minDepth s) (maxDepth s))).
  - cbn [floatDepths minDepth maxDepth].
    split; [apply length_replicate|]. split; [intros; lia|].
    left. split; [reflexivity|]. split; [reflexivity|]. intros; lia.
  - intros i s Hi (Hlen & Hfd & Hb). unfold depth_step.
    cbn [floatDepths minDepth maxDepth].
    split; [rewrite length_insert; exact Hlen|]. split.
    + intros j Hj. destruct (decide (j = i)) as [-> | Hne].
      * apply list_lookup_insert_eq. lia.
      * rewrite list_lookup_insert_ne by lia. apply Hfd. lia.
    + apply depth_bounds_step, Hb.
Qed.

End Depths.

Section Buckets.
Import JS TypedArray Sorter SorterSpec.
Variable numTriangles : nat.
Variables centers viewMatrix : list Q.
Hypothesis stores_exact : exact_depths centers viewMatrix numTriangles.

Local Abbreviation z := (z_cam centers viewMatrix).
Local Abbreviation ds := (computeDepths numTriangles centers viewMatrix).
Local Abbreviation range := (sub (maxDepth ds) (minDepth ds)).
Local Abbreviation scale := (div (Fin 65535) range).

(** When the early return is not taken, both bounds are finite depths
    more than [DEPTH_RANGE_EPS] apart. *)
Lemma sort_branch_bounds :
  le range (Fin DEPTH_RANGE_EPS) = false ->
  exists a b,
    minDepth ds = Fin a /\ maxDepth ds = Fin b
    /\ (DEPTH_RANGE_EPS < b - a)%Q
    /\ scale = Fin (65535 / (b + - a))
    /\ (forall j q, j < numTriangles -> z j = Fin q -> (a <= q <= b)%Q)
    /\ (exists j, j < numTriangles /\ z j = Fin a)
    /\ (exists j, j < numTriangles /\ z j = Fin b).
Proof.
  intros Hle.
  destruct (computeDepths_inv numTriangles centers viewMatrix)
    as (_ & _ & [(Hmin & Hmax & _) | (a & b & Hmin & Hmax & Henc & Ha & Hb)]).
  - rewrite Hmin, Hmax in Hle. discriminate.
  - rewrite Hmin, Hmax in Hle |- *. simpl in Hle.
    apply Qle_bool_false in Hle.
    exists a, b.
    split; [reflexivity|]. split; [reflexivity|]. split; [exact Hle|].
    split; [|split; [exact Henc | split; assumption]].
    simpl. destruct (Qeq_bool (b + - a) 0) eqn:E; [|reflexivity].
    apply Qeq_bool_iff in E. unfold DEPTH_RANGE_EPS in Hle. exfalso. lra.
Qed.

Lemma scaled_depth_range (a b q : Q) :
  (DEPTH_RANGE_EPS < b - a)%Q -> (a <= q <= b)%Q ->
  (0 <= (q + - a) * (65535 / (b + - a)) <= 65535)%Q.
Proof.
  unfold DEPTH_RANGE_EPS. intros Hr Hq.
  assert (Hpos : (0 < b + - a)%Q) by lra.
  assert (Hs : (65535 / (b + - a) * (b + - a) == 65535)%Q)
    by (field; lra).
  assert (Hs0 : (0 < 65535 / (b + - a))%Q)
    by (apply Qlt_shift_div_l; lra).
  set (s := (65535 / (b + - a))%Q) in *. nra.
Qed.

Lemma scaled_depth_max (a b q : Q) :
  (DEPTH_RANGE_EPS < b - a)%Q -> (q == b)%Q ->
  ((q + - a) * (65535 / (b + - a)) == 65535)%Q.
Proof.
  unfold DEPTH_RANGE_EPS. intros Hr Hq. rewrite Hq. field. lra.
Qed.

Lemma depth_floor_cases i :
  le range (Fin DEPTH_RANGE_EPS) = false -> i < numTriangles ->
  (z i = NaN /\ depth_floor ds scale i = NaN)
  \/ (exists a b q, minDepth ds = Fin a /\ maxDepth ds = Fin b
        /\ (DEPTH_RANGE_EPS < b - a)%Q
        /\ z i = Fin q /\ (a <= q <= b)%Q
        /\ depth_floor ds scale i
           = Fin (inject_Z (Qfloor ((q + - a) * (65535 / (b + - a)))))).
Proof using stores_exact.
  intros Hle Hi.
  destruct (sort_branch_bounds Hle)
    as (a & b & Hmin & Hmax & Hr & Hscale & Henc & _ & _).
  destruct (computeDepths_inv numTriangles centers viewMatrix)
    as (_ & Hfd & _).
  unfold depth_floor. rewrite Hscale, (Hfd i Hi), Hmin.
  pose proof (stores_exact i Hi) as Hex.
  destruct (z_cam_cases centers viewMatrix i) as [Hz | [q Hz]];
    rewrite Hz in Hex |- *.
  - left. split; reflexivity.
  - right. destruct (fround (Fin q)) as [| | |q']; try contradiction.
    cbn [same_number] in Hex.
    exists a, b, q.
    split; [first [assumption | reflexivity]|].
    split; [first [assumption | reflexivity]|]. split; [exact Hr|].
    split; [reflexivity|]. split; [apply (Henc i q Hi Hz)|].
    change (Fin (inject_Z (Qfloor ((q' + - a) * (65535 / (b + - a)))))
            = Fin (inject_Z (Qfloor ((q + - a) * (65535 / (b + - a)))))).
    f_equal. f_equal. apply Qfloor_comp. rewrite Hex. reflexivity.
Qed.

(** Every bucket is a valid index of the 65536-entry arrays. *)
Lemma depth_bucket_range i :
  le range (Fin DEPTH_RANGE_EPS) = false -> i < numTriangles ->
  (0 <= depth_bucket ds scale i <= 65535)%Z.
Proof using stores_exact.
  intros Hle Hi. unfold depth_bucket.
  destruct (depth_floor_cases i Hle Hi)
    as [[_ ->] | (a & b & q & _ & _ & Hr & _ & Hq & ->)].
  - simpl. lia.
  - pose proof (scaled_depth_range a b q Hr Hq) as [H0 H1].
    apply Qfloor_resp_le in H0, H1.
    change (Qfloor 0) with 0%Z in H0.
    change (Qfloor 65535) with 65535%Z in H1.
    rewrite to_uint32_integer by lia. lia.
Qed.

Lemma depth_bucket_max i q b :
  le range (Fin DEPTH_RANGE_EPS) = false -> i < numTriangles ->
  floatDepths ds !! i = Some (Fin q) -> maxDepth ds = Fin b -> (q == b)%Q ->
  depth_bucket ds scale i = 65535%Z.
Proof using stores_exact.
  intros Hle Hi Hfd Hmax Hq. unfold depth_bucket.
  destruct (computeDepths_inv numTriangles centers viewMatrix)
    as (_ & Hfd' & _).
  rewrite (Hfd' i Hi) in Hfd. injection Hfd as Hz.
  pose proof (stores_exact i Hi) as Hex. rewrite Hz in Hex.
  destruct (depth_floor_cases i Hle Hi)
    as [[Hnan _] | (a & b' & q' & _ & Hmax' & Hr & Hz' & _ & ->)].
  - rewrite Hnan in Hex. contradiction.
  - rewrite Hz' in Hex. cbn [same_number] in Hex.
    rewrite Hmax' in Hmax. injection Hmax as ->.
    assert (Hq' : (q' == b)%Q) by (rewrite <- Hex; exact Hq).
    rewrite (Qfloor_comp _ _ (scaled_depth_max a b q' Hr Hq')).
    change (Qfloor 65535) with 65535%Z.
    apply to_uint32_integer. lia.
Qed.

Lemma quantizeDepths_length :
  length (quantizeDepths numTriangles ds scale) = numTriangles.
Proof.
  unfold quantizeDepths. rewrite fill_loop_length. apply length_replicate.
Qed.

Lemma quantizeDepths_lookup i :
  i < numTriangles ->
  quantizeDepths numTriangles ds scale !! i
  = Some (depth_bucket ds scale i).
Proof.
  intros Hi. unfold quantizeDepths.
  rewrite fill_loop_lookup by (rewrite length_replicate; lia).
  destruct (decide (i < numTriangles)); [reflexivity | lia].
Qed.

Lemma quantizeDepths_key i :
  i < numTriangles ->
  key (quantizeDepths numTriangles ds scale) i = depth_bucket ds scale i.
Proof.
  intros Hi. unfold key. rewrite quantizeDepths_lookup by exact Hi.
  reflexivity.
Qed.

Lemma NUM_BUCKETS_Z : Z.of_nat NUM_BUCKETS = 65536%Z.
Proof. unfold NUM_BUCKETS. apply Z2Nat.id. lia. Qed.

Lemma quantizeDepths_range i :
  le range (Fin DEPTH_RANGE_EPS) = false -> i < numTriangles ->
  (0 <= key (quantizeDepths numTriangles ds scale) i
   < Z.of_nat NUM_BUCKETS)%Z.
Proof using stores_exact.
  intros Hle Hi. rewrite quantizeDepths_key by exact Hi.
  rewrite NUM_BUCKETS_Z. pose proof (depth_bucket_range i Hle Hi). lia.
Qed.

End Buckets.

(** ** From sorted triangles to the index buffer *)

Section IndexBuffer.
Import TypedArray Sorter SorterSpec.

Lemma triples_length order : length (triples order) = length order * 3.
Proof.
  induction order as [|t order IH]; [reflexivity|].
  unfold triples in *. simpl. rewrite IH. lia.
Qed.

Lemma triples_lookup order k t j :
  order !! k = Some t -> j < 3 ->
  triples order !! (k * 3 + j)%nat = Some (Z.of_nat (t * 3 + j)).
Proof.
  revert k. induction order as [|t0 order IH]; intros k Hk Hj; [done|].
  destruct k as [|k].
  - injection Hk as ->. unfold triples. simpl.
    assert (j = 0 \/ j = 1 \/ j = 2)%nat as [-> | [-> | ->]] by lia;
      simpl; repeat f_equal; lia.
  - replace (S k * 3 + j)%nat with (S (S (S (k * 3 + j)))) by lia.
    unfold triples in *. simpl. apply IH; assumption.
Qed.

(** Two arrays of [3n] slots that agree on every corner are equal. *)
Lemma corners_eq (l1 l2 : list Z) n :
  length l1 = (n * 3)%nat -> length l2 = (n * 3)%nat ->
  (forall k j, k < n -> j < 3 ->
     l1 !! (k * 3 + j)%nat = l2 !! (k * 3 + j)%nat) ->
  l1 = l2.
Proof.
  intros H1 H2 H. apply list_eq. intros p.
  destruct (decide (p < n * 3)) as [Hp | Hp].
  - rewrite (Nat.div_mod_eq p 3), (Nat.mul_comm 3).
    apply H; [|apply Nat.mod_upper_bound; lia].
    apply Nat.Div0.div_lt_upper_bound. lia.
  - rewrite !lookup_ge_None_2 by lia. reflexivity.
Qed.

Lemma expandIndices_length n sorted :
  length (expandIndices n sorted) = (n * 3)%nat.
Proof.
  unfold expandIndices.
  pose proof (triple_loop_length
    (fun i j => let base := (default 0 (sorted !! i) * 3)%Z in
                match j with
                | 0%nat => base | 1%nat => (base + 1)%Z | _ => (base + 2)%Z
                end) n (replicate (n * 3) 0%Z)) as H.
  rewrite length_replicate in H. exact H.
Qed.

Lemma expandIndices_lookup n sorted k j :
  k < n -> j < 3 ->
  expandIndices n sorted !! (k * 3 + j)%nat
  = Some (default 0 (sorted !! k) * 3 + Z.of_nat j)%Z.
Proof.
  intros Hk Hj. unfold expandIndices.
  pose proof (triple_loop_lookup
    (fun i j => let base := (default 0 (sorted !! i) * 3)%Z in
                match j with
                | 0%nat => base | 1%nat => (base + 1)%Z | _ => (base + 2)%Z
                end) n (replicate (n * 3) 0%Z) k j) as H.
  rewrite length_replicate in H. specialize (H (Nat.le_refl _) Hk Hj).
  etransitivity; [exact H|]. f_equal.
  assert (j = 0 \/ j = 1 \/ j = 2)%nat as [-> | [-> | ->]] by lia;
    simpl; lia.
Qed.

Lemma expandIndices_triples order :
  expandIndices (length order) (map Z.of_nat order) = triples order.
Proof.
  apply (corners_eq _ _ (length order)).
  - apply expandIndices_length.
  - apply triples_length.
  - intros k j Hk Hj. rewrite expandIndices_lookup by assumption.
    destruct (lookup_lt_is_Some_2 order k Hk) as [t Ht].
    rewrite (triples_lookup order k t j Ht Hj).
    rewrite list_lookup_fmap, Ht. simpl. f_equal. lia.
Qed.

Lemma identityIndices_triples n : identityIndices n = triples (seq 0 n).
Proof.
  apply (corners_eq _ _ n).
  - unfold identityIndices.
    pose proof (triple_loop_length
      (fun i j => match j with
                  | 0%nat => Z.of_nat (i * 3)
                  | 1%nat => Z.of_nat (i * 3 + 1)
                  | _ => Z.of_nat (i * 3 + 2)
                  end) n (replicate (n * 3) 0%Z)) as H.
    rewrite length_replicate in H. exact H.
  - rewrite triples_length, length_seq. reflexivity.
  - intros k j Hk Hj.
    rewrite (triples_lookup (seq 0 n) k k j) by
      (try apply lookup_seq; try lia; split; lia).
    unfold identityIndices.
    pose proof (triple_loop_lookup
      (fun i j => match j with
                  | 0%nat => Z.of_nat (i * 3)
                  | 1%nat => Z.of_nat (i * 3 + 1)
                  | _ => Z.of_nat (i * 3 + 2)
                  end) n (replicate (n * 3) 0%Z) k j) as H.
    rewrite length_replicate in H. specialize (H (Nat.le_refl _) Hk Hj).
    etransitivity; [exact H|]. f_equal.
    assert (j = 0 \/ j = 1 \/ j = 2)%nat as [-> | [-> | ->]] by lia;
      f_equal; lia.
Qed.

(** A list is strongly sorted when any two of its entries are ordered
    as their positions are. *)
Lemma StronglySorted_lookup {A} (R : A -> A -> Prop) (l : list A) :
  (forall k1 k2 x y,
     k1 < k2 -> l !! k1 = Some x -> l !! k2 = Some y -> R x y) ->
  StronglySorted R l.
Proof.
  induction l as [|a l IH]; intros H; constructor.
  - apply IH. intros k1 k2 x y Hk H1 H2.
    apply (H (S k1) (S k2)); [lia | exact H1 | exact H2].
  - apply Forall_forall. intros y Hy.
    apply list_elem_of_lookup in Hy as [k Hk].
    apply (H 0%nat (S k)); [lia | reflexivity | exact Hk].
Qed.

Lemma StronglySorted_impl_on {A} (R R' : A -> A -> Prop) (l : list A) :
  (forall x y, x ∈ l -> y ∈ l -> R x y -> R' x y) ->
  StronglySorted R l -> StronglySorted R' l.
Proof.
  intros Himpl Hs. induction Hs as [|a l Hs IH Hall]; constructor.
  - apply IH. intros x y Hx Hy. apply Himpl; apply elem_of_cons; auto.
  - apply Forall_forall. intros y Hy.
    apply Himpl; [apply elem_of_cons; auto | apply elem_of_cons; auto |].
    rewrite Forall_forall in Hall. apply Hall, Hy.
Qed.

End IndexBuffer.

(** ** The order produced by the counting sort *)

Section SortedOrder.
Import TypedArray Sorter SorterSpec.
Variable numTriangles : nat.
Variable depthsInt : list Z.
Hypothesis depthsInt_length : length depthsInt = numTriangles.
Hypothesis depthsInt_range :
  forall i, i < numTriangles ->
    (0 <= key depthsInt i < Z.of_nat NUM_BUCKETS)%Z.

Local Abbreviation sorted := (countingSort numTriangles depthsInt).
Local Abbreviation order := (map Z.to_nat sorted).

Lemma order_slot k :
  k < numTriangles ->
  exists i, i < numTriangles /\ rank depthsInt numTriangles i = k
            /\ order !! k = Some i.
Proof using depthsInt_length depthsInt_range.
  intros Hk.
  destruct (sorted_slot numTriangles depthsInt depthsInt_length
              depthsInt_range k Hk) as (i & Hi & Hr & Hs).
  exists i. repeat split; try assumption.
  rewrite list_lookup_fmap, Hs. simpl. rewrite Nat2Z.id. reflexivity.
Qed.

Lemma order_length : length order = numTriangles.
Proof using depthsInt_length depthsInt_range.
  rewrite length_map. apply sorted_length; assumption.
Qed.

Lemma order_sorted : sorted = map Z.of_nat order.
Proof using depthsInt_length depthsInt_range.
  apply list_eq. intros k.
  destruct (decide (k < numTriangles)) as [Hk | Hk].
  - destruct (sorted_slot numTriangles depthsInt depthsInt_length
                depthsInt_range k Hk) as (i & Hi & Hr & Hs).
    rewrite !list_lookup_fmap, Hs. simpl. rewrite Nat2Z.id. reflexivity.
  - rewrite !lookup_ge_None_2; [reflexivity | |].
    + rewrite !length_map, sorted_length by assumption. lia.
    + rewrite sorted_length by assumption. lia.
Qed.

Lemma order_permutation : Permutation order (seq 0 numTriangles).
Proof using depthsInt_length depthsInt_range.
  apply NoDup_Permutation.
  - apply NoDup_alt. intros k1 k2 x H1 H2.
    pose proof (lookup_lt_Some _ _ _ H1) as Hk1.
    pose proof (lookup_lt_Some _ _ _ H2) as Hk2.
    rewrite order_length in Hk1, Hk2.
    destruct (order_slot k1 Hk1) as (i1 & _ & Hr1 & Ho1).
    destruct (order_slot k2 Hk2) as (i2 & _ & Hr2 & Ho2).
    congruence.
  - apply NoDup_seq.
  - intros x. rewrite elem_of_seq. split.
    + intros Hx. apply list_elem_of_lookup in Hx as [k Hk].
      pose proof (lookup_lt_Some _ _ _ Hk) as Hk'.
      rewrite order_length in Hk'.
      destruct (order_slot k Hk') as (i & Hi & _ & Ho).
      assert (x = i) by congruence. lia.
    + intros [_ Hx]. simpl in Hx. apply list_elem_of_lookup.
      exists (rank depthsInt numTriangles x).
      rewrite list_lookup_fmap.
      rewrite (sorted_at_rank numTriangles depthsInt depthsInt_length
                 depthsInt_range x Hx).
      simpl. rewrite Nat2Z.id. reflexivity.
Qed.

(** Ascending by key, and in input order among equal keys. *)
Lemma order_stable : StronglySorted (bucket_lex (key depthsInt)) order.
Proof using depthsInt_length depthsInt_range.
  apply StronglySorted_lookup. intros k1 k2 x y Hk H1 H2.
  pose proof (lookup_lt_Some _ _ _ H1) as Hk1.
  pose proof (lookup_lt_Some _ _ _ H2) as Hk2.
  rewrite order_length in Hk1, Hk2.
  destruct (order_slot k1 Hk1) as (i1 & Hi1 & Hr1 & Ho1).
  destruct (order_slot k2 Hk2) as (i2 & Hi2 & Hr2 & Ho2).
  assert (x = i1) as -> by congruence.
  assert (y = i2) as -> by congruence.
  apply (rank_lex_inv depthsInt numTriangles); [assumption.. | lia].
Qed.

End SortedOrder.

(** ** Index buffers that list a permutation of the triangles *)

Section TriplesOfPermutation.
Import SorterSpec.
Variable numTriangles : nat.
Variable order : list nat.
Hypothesis order_perm : Permutation order (seq 0 numTriangles).

Lemma perm_length : length order = numTriangles.
Proof using order_perm.
  rewrite (Permutation_length order_perm). apply length_seq.
Qed.

Lemma perm_NoDup : NoDup order.
Proof using order_perm.
  rewrite order_perm. apply NoDup_seq.
Qed.

Lemma perm_bound k t : order !! k = Some t -> t < numTriangles.
Proof using order_perm.
  intros Hk. assert (Hin : t ∈ order) by (apply list_elem_of_lookup; eauto).
  rewrite order_perm in Hin. apply elem_of_seq in Hin. lia.
Qed.

Lemma perm_holds k t :
  order !! k = Some t -> holds_triangle (triples order) k t.
Proof.
  intros Hk. unfold holds_triangle.
  rewrite <- (Nat.add_0_r (k * 3)) at 1. rewrite <- (Nat.add_0_r (t * 3)) at 1.
  repeat split; apply triples_lookup; (assumption || lia).
Qed.

Lemma perm_slot_of t :
  t < numTriangles -> exists k, k < numTriangles /\ order !! k = Some t.
Proof using order_perm.
  intros Ht. assert (Hin : t ∈ order).
  { rewrite order_perm. apply elem_of_seq. lia. }
  apply list_elem_of_lookup in Hin as [k Hk]. exists k. split; [|exact Hk].
  rewrite <- perm_length. apply (lookup_lt_Some _ _ _ Hk).
Qed.

Lemma triples_of_permutation :
  let out := triples order in
  length out = (numTriangles * 3)%nat
  /\ (forall k, k < numTriangles ->
        exists t, t < numTriangles /\ holds_triangle out k t)
  /\ (forall t, t < numTriangles ->
        exists k, k < numTriangles /\ holds_triangle out k t
          /\ forall k', k' < numTriangles -> holds_triangle out k' t -> k' = k)
  /\ (forall c, c < numTriangles * 3 ->
        exists p, out !! p = Some (Z.of_nat c)
          /\ forall p', out !! p' = Some (Z.of_nat c) -> p' = p).
Proof using order_perm.
  cbv zeta. split; [rewrite triples_length, perm_length; reflexivity|].
  split; [|split].
  - intros k Hk.
    destruct (lookup_lt_is_Some_2 order k) as [t Ht];
      [rewrite perm_length; exact Hk|].
    exists t. split; [apply (perm_bound k t Ht) | apply perm_holds, Ht].
  - intros t Ht. destruct (perm_slot_of t Ht) as (k & Hk & Hkt).
    exists k. split; [exact Hk|]. split; [apply perm_holds, Hkt|].
    intros k' Hk' (H0 & _ & _).
    destruct (lookup_lt_is_Some_2 order k') as [t' Ht'];
      [rewrite perm_length; exact Hk'|].
    destruct (perm_holds k' t' Ht') as (H0' & _ & _).
    rewrite H0' in H0. injection H0 as H0.
    assert (t' = t) as -> by lia.
    apply (NoDup_lookup order k' k t perm_NoDup Ht' Hkt).
  - intros c Hc.
    assert (Ht : c / 3 < numTriangles)
      by (apply Nat.Div0.div_lt_upper_bound; lia).
    assert (Hj : c mod 3 < 3) by (apply Nat.mod_upper_bound; lia).
    assert (Hcdiv : c = (c / 3 * 3 + c mod 3)%nat)
      by (rewrite (Nat.div_mod_eq c 3) at 1; lia).
    destruct (perm_slot_of (c / 3) Ht) as (k & Hk & Hkt).
    exists (k * 3 + c mod 3)%nat. split.
    + rewrite (triples_lookup order k (c / 3) (c mod 3) Hkt Hj).
      rewrite <- Hcdiv. reflexivity.
    + intros p' Hp'.
      pose proof (lookup_lt_Some _ _ _ Hp') as Hlt.
      rewrite triples_length, perm_length in Hlt.
      assert (Hk' : p' / 3 < numTriangles)
        by (apply Nat.Div0.div_lt_upper_bound; lia).
      assert (Hj' : p' mod 3 < 3) by (apply Nat.mod_upper_bound; lia).
      assert (Hpdiv : p' = (p' / 3 * 3 + p' mod 3)%nat)
        by (rewrite (Nat.div_mod_eq p' 3) at 1; lia).
      destruct (lookup_lt_is_Some_2 order (p' / 3)) as [t' Ht'];
        [rewrite perm_length; exact Hk'|].
      pose proof (triples_lookup order (p' / 3) t' (p' mod 3) Ht' Hj') as Hl.
      rewrite <- Hpdiv, Hp' in Hl.
      assert (Hl' : Z.of_nat c = Z.of_nat (t' * 3 + p' mod 3)) by congruence.
      assert (t' = (c / 3)%nat /\ p' mod 3 = c mod 3) as [-> Hmod] by lia.
      pose proof (NoDup_lookup order (p' / 3) k (c / 3) perm_NoDup Ht' Hkt).
      lia.
Qed.

End TriplesOfPermutation.

(** ** The sorter as a whole *)

Section SorterOutput.
Import JS TypedArray Sorter SorterSpec.
Variable numTriangles : nat.
Variables centers viewMatrix : list Q.

Local Abbreviation ds := (computeDepths numTriangles centers viewMatrix).
Local Abbreviation range := (sub (maxDepth ds) (minDepth ds)).
Local Abbreviation scale := (div (Fin 65535) range).
Local Abbreviation depthsInt := (quantizeDepths numTriangles ds scale).
Local Abbreviation out :=
  (sortAndPrepareIndexBuffer numTriangles centers viewMatrix).

Lemma early_return :
  le range (Fin DEPTH_RANGE_EPS) = true -> out = triples (seq 0 numTriangles).
Proof.
  intros Hle. unfold sortAndPrepareIndexBuffer. rewrite Hle.
  apply identityIndices_triples.
Qed.

Lemma sorted_return :
  exact_depths centers viewMatrix numTriangles ->
  le range (Fin DEPTH_RANGE_EPS) = false ->
  exists order,
    sortedTriangles numTriangles ds scale = map Z.of_nat order
    /\ out = triples order
    /\ Permutation order (seq 0 numTriangles)
    /\ StronglySorted (bucket_lex (depth_bucket ds scale)) order.
Proof.
  intros Hexact Hle.
  pose proof (quantizeDepths_length numTriangles centers viewMatrix) as Hlen.
  pose proof (fun i => quantizeDepths_range numTriangles centers viewMatrix
                         Hexact i Hle) as Hrange.
  exists (map Z.to_nat (countingSort numTriangles depthsInt)).
  pose proof (order_length numTriangles depthsInt Hlen Hrange) as Hol.
  pose proof (order_permutation numTriangles depthsInt Hlen Hrange) as Hperm.
  split; [apply order_sorted; assumption|]. split; [|split].
  - unfold sortAndPrepareIndexBuffer. rewrite Hle. unfold sortedTriangles.
    rewrite (order_sorted numTriangles depthsInt Hlen Hrange) at 1.
    rewrite <- Hol at 1. apply expandIndices_triples.
  - exact Hperm.
  - pose proof (order_stable numTriangles depthsInt Hlen Hrange) as Hst.
    revert Hst. apply StronglySorted_impl_on.
    intros x y Hx Hy. rewrite Hperm in Hx, Hy.
    apply elem_of_seq in Hx, Hy. unfold bucket_lex.
    rewrite !(quantizeDepths_key numTriangles centers viewMatrix) by lia.
    tauto.
Qed.

End SorterOutput.

Section SorterSpecification.
Import JS TypedArray Sorter SorterSpec.

(** On a well-shaped request with at least one triangle the two bounds
    found by the depth loop are the least and the greatest depth. *)
Lemma bounds_are_extrema numTriangles centers viewMatrix zmin zmax :
  length centers = (numTriangles * 3)%nat -> length viewMatrix = 16%nat ->
  is_min_depth centers viewMatrix numTriangles zmin ->
  is_max_depth centers viewMatrix numTriangles zmax ->
  let ds := computeDepths numTriangles centers viewMatrix in
  exists a b, minDepth ds = Fin a /\ maxDepth ds = Fin b
              /\ (a == zmin)%Q /\ (b == zmax)%Q.
Proof.
  intros Hc Hv [(i0 & Hi0 & Hmin0) Hmin] [(i1 & Hi1 & Hmax1) Hmax]. cbv zeta.
  assert (Hz : forall i, i < numTriangles ->
            z_cam centers viewMatrix i = Fin (spec_depth centers viewMatrix i))
    by (intros i Hi; apply (z_cam_spec numTriangles); lia).
  destruct (computeDepths_inv numTriangles centers viewMatrix)
    as (_ & _ & [(_ & _ & Hall) | (a & b & Ha & Hb & Henc & Hata & Hatb)]).
  - specialize (Hall i0 Hi0). rewrite Hz in Hall by exact Hi0. discriminate.
  - exists a, b. split; [exact Ha|]. split; [exact Hb|].
    destruct Hata as (ja & Hja & Hza). destruct Hatb as (jb & Hjb & Hzb).
    rewrite Hz in Hza, Hzb by assumption.
    injection Hza as Hza. injection Hzb as Hzb.
    pose proof (Henc i0 _ Hi0 (Hz i0 Hi0)) as [He0 _].
    pose proof (Henc i1 _ Hi1 (Hz i1 Hi1)) as [_ He1].
    pose proof (Hmin ja Hja) as Hm0. pose proof (Hmax jb Hjb) as Hm1.
    rewrite Hza in Hm0. rewrite Hzb in Hm1.
    split; apply Qle_antisym; lra.
Qed.

Lemma spec_bucket_agrees numTriangles centers viewMatrix zmin zmax i :
  length centers = (numTriangles * 3)%nat -> length viewMatrix = 16%nat ->
  exact_depths centers viewMatrix numTriangles ->
  is_min_depth centers viewMatrix numTriangles zmin ->
  is_max_depth centers viewMatrix numTriangles zmax ->
  let ds := computeDepths numTriangles centers viewMatrix in
  let range := sub (maxDepth ds) (minDepth ds) in
  le range (Fin DEPTH_RANGE_EPS) = false ->
  i < numTriangles ->
  depth_bucket ds (div (Fin 65535) range) i
  = spec_bucket centers viewMatrix zmin zmax i.
Proof.
  intros Hc Hv Hexact Hmin Hmax. cbv zeta. intros Hle Hi.
  destruct (bounds_are_extrema numTriangles centers viewMatrix zmin zmax
              Hc Hv Hmin Hmax) as (a & b & Ha & Hb & Haz & Hbz).
  destruct (depth_floor_cases numTriangles centers viewMatrix Hexact i Hle
              Hi)
    as [[Hnan _] | (a' & b' & q & Ha' & Hb' & Hr & Hz & Hq & Hfl)].
  - rewrite (z_cam_spec numTriangles) in Hnan by lia. discriminate.
  - rewrite Ha in Ha'. injection Ha' as <-.
    rewrite Hb in Hb'. injection Hb' as <-.
    rewrite (z_cam_spec numTriangles) in Hz by lia. injection Hz as <-.
    pose proof (scaled_depth_range a b _ Hr Hq) as [H0 H1].
    apply Qfloor_resp_le in H0, H1.
    change (Qfloor 0) with 0%Z in H0.
    change (Qfloor 65535) with 65535%Z in H1.
    unfold depth_bucket. rewrite Hfl. rewrite to_uint32_integer by lia.
    unfold spec_bucket. apply Qfloor_comp.
    unfold DEPTH_RANGE_EPS in Hr.
    rewrite <- Haz, <- Hbz. field. lra.
Qed.

Lemma sort_branch_iff numTriangles centers viewMatrix zmin zmax :
  length centers = (numTriangles * 3)%nat -> length viewMatrix = 16%nat ->
  is_min_depth centers viewMatrix numTriangles zmin ->
  is_max_depth centers viewMatrix numTriangles zmax ->
  let ds := computeDepths numTriangles centers viewMatrix in
  le (sub (maxDepth ds) (minDepth ds)) (Fin DEPTH_RANGE_EPS) = true
  <-> (zmax - zmin <= DEPTH_RANGE_EPS)%Q.
Proof.
  intros Hc Hv Hmin Hmax. cbv zeta.
  destruct (bounds_are_extrema numTriangles centers viewMatrix zmin zmax
              Hc Hv Hmin Hmax) as (a & b & -> & -> & Haz & Hbz).
  simpl. rewrite Qle_bool_iff. rewrite <- Haz, <- Hbz.
  unfold Qminus. reflexivity.
Qed.

(** The depths of the specification's scenario are binary32 numbers. *)
Lemma scenario_exact : exact_depths scenario_centers scenario_viewMatrix 5.
Proof.
  intros i Hi.
  do 5 (destruct i as [|i]; [vm_compute; reflexivity|]). lia.
Qed.

(** The specification's scenario. *)
Lemma scenario_order :
  sortAndPrepareIndexBuffer 5 scenario_centers scenario_viewMatrix
  = triples [4; 2; 0; 1; 3]%nat.
Proof.
  set (ds := computeDepths 5 scenario_centers scenario_viewMatrix).
  set (scale := div (Fin 65535) (sub (maxDepth ds) (minDepth ds))).
  assert (Hle : le (sub (maxDepth ds) (minDepth ds)) (Fin DEPTH_RANGE_EPS)
                = false) by (vm_compute; reflexivity).
  pose proof (quantizeDepths_length 5 scenario_centers scenario_viewMatrix)
    as Hlen.
  pose proof (fun i => quantizeDepths_range 5 scenario_centers
                         scenario_viewMatrix scenario_exact i Hle) as Hrange.
  fold ds scale in Hlen, Hrange.
  assert (Hkeys : quantizeDepths 5 ds scale
                  = [34492; 51738; 17246; 65535; 0]%Z)
    by (vm_compute; reflexivity).
  pose proof (sorted_length 5 _ Hlen Hrange) as Hsl.
  pose proof (fun i => sorted_at_rank 5 _ Hlen Hrange i) as Hat.
  rewrite Hkeys in Hsl, Hat.
  pose proof (Hat 0%nat ltac:(lia)) as H0.
  pose proof (Hat 1%nat ltac:(lia)) as H1.
  pose proof (Hat 2%nat ltac:(lia)) as H2.
  pose proof (Hat 3%nat ltac:(lia)) as H3.
  pose proof (Hat 4%nat ltac:(lia)) as H4.
  change (rank [34492; 51738; 17246; 65535; 0]%Z 5 0) with 2%nat in H0.
  change (rank [34492; 51738; 17246; 65535; 0]%Z 5 1) with 3%nat in H1.
  change (rank [34492; 51738; 17246; 65535; 0]%Z 5 2) with 1%nat in H2.
  change (rank [34492; 51738; 17246; 65535; 0]%Z 5 3) with 4%nat in H3.
  change (rank [34492; 51738; 17246; 65535; 0]%Z 5 4) with 0%nat in H4.
  unfold sortAndPrepareIndexBuffer. fold ds. rewrite Hle. fold scale.
  unfold sortedTriangles. rewrite Hkeys.
  destruct (countingSort 5 [34492; 51738; 17246; 65535; 0]%Z)
    as [|x0 [|x1 [|x2 [|x3 [|x4 [|x5 rest]]]]]]; try discriminate Hsl.
  simpl in H0, H1, H2, H3, H4.
  injection H0 as ->. injection H1 as ->. injection H2 as ->.
  injection H3 as ->. injection H4 as ->.
  vm_compute. reflexivity.
Qed.

End SorterSpecification.

(** ** The sorter on every request *)

Section AnyRequest.
Import JS TypedArray Sorter SorterSpec.

Lemma to_uint32_range a : (0 <= to_uint32 a < 2 ^ 32)%Z.
Proof.
  unfold to_uint32. destruct a; try lia. apply Z.mod_pos_bound. lia.
Qed.

(** The placement loop writes triangle numbers only. *)
Lemma placeTriangles_entries n depthsInt offsets :
  Forall (fun v => (0 <= v < Z.of_nat (Nat.max 1 n))%Z)
         (placeTriangles n depthsInt offsets).
Proof.
  unfold placeTriangles.
  apply (for_loop_ind (fun _ s =>
    Forall (fun v => (0 <= v < Z.of_nat (Nat.max 1 n))%Z) (snd s))).
  - cbn [snd]. apply Forall_replicate. lia.
  - intros i [offs sorted] Hi H. cbn [snd] in H. unfold place_step.
    destruct (depthsInt !! i) as [d|]; [|exact H].
    destruct (get offs d) as [o|]; [|exact H].
    cbn [snd]. unfold set. destruct (in_bounds sorted o); [|exact H].
    apply Forall_insert; [exact H | lia].
Qed.

Variable numTriangles : nat.
Variables centers viewMatrix : list Q.

Local Abbreviation ds := (computeDepths numTriangles centers viewMatrix).
Local Abbreviation range := (sub (maxDepth ds) (minDepth ds)).
Local Abbreviation scale := (div (Fin 65535) range).
Local Abbreviation depthsInt := (quantizeDepths numTriangles ds scale).
Local Abbreviation out :=
  (sortAndPrepareIndexBuffer numTriangles centers viewMatrix).

Lemma quantizeDepths_nonneg i :
  i < numTriangles -> (0 <= key depthsInt i)%Z.
Proof.
  intros Hi. rewrite quantizeDepths_key by exact Hi.
  apply to_uint32_range.
Qed.

(** Whatever the keys are, the sorting branch returns the corner triples
    of a list of [numTriangles] triangle numbers. *)
Lemma sort_branch_output :
  le range (Fin DEPTH_RANGE_EPS) = false ->
  exists order,
    countingSort numTriangles depthsInt = map Z.of_nat order
    /\ length order = numTriangles
    /\ Forall (fun t => t < numTriangles) order
    /\ out = triples order.
Proof.
  intros Hle.
  pose proof (quantizeDepths_length numTriangles centers viewMatrix) as Hlen.
  pose proof (countingSort_length numTriangles depthsInt Hlen
                quantizeDepths_nonneg) as Hsl.
  pose proof (placeTriangles_entries numTriangles depthsInt
                (prefixOffsets (countBuckets numTriangles depthsInt)))
    as Hentries.
  change (placeTriangles numTriangles depthsInt
            (prefixOffsets (countBuckets numTriangles depthsInt)))
    with (countingSort numTriangles depthsInt) in Hentries.
  set (sorted := countingSort numTriangles depthsInt) in *.
  assert (Hback : sorted = map Z.of_nat (map Z.to_nat sorted)).
  { rewrite map_map. rewrite <- (map_id sorted) at 1.
    apply map_ext_Forall. eapply Forall_impl; [exact Hentries|].
    intros v Hv. cbv beta in Hv. rewrite Z2Nat.id by lia. reflexivity. }
  exists (map Z.to_nat sorted).
  split; [exact Hback|]. split; [rewrite length_map; exact Hsl|]. split.
  - apply Forall_fmap, Forall_forall. intros v Hin.
    rewrite Forall_forall in Hentries. specialize (Hentries v Hin).
    unfold compose.
    assert (0 < numTriangles).
    { apply list_elem_of_lookup in Hin as [k Hk].
      apply lookup_lt_Some in Hk. lia. }
    lia.
  - unfold sortAndPrepareIndexBuffer. rewrite Hle. unfold sortedTriangles.
    fold sorted. rewrite Hback at 1.
    rewrite <- Hsl at 1. rewrite <- (length_map Z.to_nat sorted).
    apply expandIndices_triples.
Qed.

(** Every request is answered with an array of three entries per
    triangle, and every slot holds the corners of one triangle. *)
Lemma every_slot_holds_a_triangle :
  length out = (numTriangles * 3)%nat
  /\ forall k, k < numTriangles ->
       exists t, t < numTriangles /\ holds_triangle out k t.
Proof.
  destruct (le range (Fin DEPTH_RANGE_EPS)) eqn:Hle.
  - rewrite (early_return numTriangles centers viewMatrix Hle).
    split; [rewrite triples_length, length_seq; reflexivity|].
    intros k Hk. exists k. split; [exact Hk|].
    apply perm_holds. apply lookup_seq. lia.
  - destruct (sort_branch_output Hle) as (order & _ & Hlen & Hall & ->).
    split; [rewrite triples_length, Hlen; reflexivity|].
    intros k Hk.
    destruct (lookup_lt_is_Some_2 order k) as [t Ht]; [lia|].
    exists t. split; [|apply perm_holds, Ht].
    rewrite Forall_forall in Hall. apply Hall.
    apply list_elem_of_lookup. exists k. exact Ht.
Qed.

End AnyRequest.

(** ** A request whose depths are changed by the store *)

Section ShiftedRequest.
Import JS TypedArray Sorter SorterSpec.

Local Abbreviation ds := (computeDepths 2 shifted_centers shifted_viewMatrix).
Local Abbreviation scale :=
  (div (Fin 65535) (sub (maxDepth ds) (minDepth ds))).
Local Abbreviation zmin := (-1 - (3 # 33554432))%Q.
Local Abbreviation zmax := (2 - (3 # 33554432))%Q.

Lemma shifted_min : is_min_depth shifted_centers shifted_viewMatrix 2 zmin.
Proof.
  split.
  - exists 1%nat. split; [lia | reflexivity].
  - intros i Hi.
    do 2 (destruct i as [|i]; [vm_compute; discriminate|]). lia.
Qed.

Lemma shifted_max : is_max_depth shifted_centers shifted_viewMatrix 2 zmax.
Proof.
  split.
  - exists 0%nat. split; [lia | reflexivity].
  - intros i Hi.
    do 2 (destruct i as [|i]; [vm_compute; discriminate|]). lia.
Qed.

Lemma shifted_depths :
  ds = {| floatDepths := [Fin (16777215 # 8388608);
                          Fin (- 8388609 # 8388608)];
          minDepth := Fin (- 33554435 # 33554432);
          maxDepth := Fin (67108861 # 33554432) |}.
Proof. vm_compute. reflexivity. Qed.

Lemma shifted_branch :
  le (sub (maxDepth ds) (minDepth ds)) (Fin DEPTH_RANGE_EPS) = false.
Proof. vm_compute. reflexivity. Qed.

Lemma shifted_keys : quantizeDepths 2 ds scale = [65534; 4294967295]%Z.
Proof. vm_compute. reflexivity. Qed.

(** The second triangle is never placed: its key is no index of
    [offsets]. *)
Lemma shifted_sorted : countingSort 2 [65534; 4294967295]%Z = [0; 0]%Z.
Proof.
  set (keys := [65534; 4294967295]%Z).
  assert (Hlen : length keys = 2%nat) by reflexivity.
  assert (Hnn : forall i, i < 2 -> (0 <= key keys i)%Z).
  { intros i Hi. do 2 (destruct i as [|i]; [cbn; lia|]). lia. }
  pose proof (countingSort_length 2 keys Hlen Hnn) as Hsl.
  pose proof (countingSort_at_rank 2 keys Hlen Hnn 0%nat) as H0.
  pose proof (countingSort_unreached 2 keys Hlen Hnn 1%nat) as H1.
  rewrite NUM_BUCKETS_Z in H0, H1.
  change (rank keys 2 0) with 0%nat in H0.
  specialize (H0 ltac:(lia) ltac:(cbn; lia)).
  assert (Hfree : forall i, i < 2 -> (key keys i < 65536)%Z ->
            rank keys 2 i <> 1%nat).
  { intros i Hi Hv. destruct i as [|i].
    - change (rank keys 2 0) with 0%nat. lia.
    - destruct i as [|i]; [|lia]. cbn in Hv. lia. }
  specialize (H1 ltac:(lia) Hfree).
  destruct (countingSort 2 keys) as [|x0 [|x1 [|x2 rest]]];
    try discriminate Hsl.
  cbn in H0, H1. injection H0 as ->. injection H1 as ->. reflexivity.
Qed.

Lemma shifted_output :
  sortAndPrepareIndexBuffer 2 shifted_centers shifted_viewMatrix
  = [0; 1; 2; 0; 1; 2]%Z.
Proof.
  unfold sortAndPrepareIndexBuffer. rewrite shifted_branch.
  unfold sortedTriangles. rewrite shifted_keys, shifted_sorted.
  reflexivity.
Qed.

Lemma shifted_entries c : c ∈ [0; 1; 2; 0; 1; 2]%Z -> (0 <= c <= 2)%Z.
Proof.
  intros H. repeat (apply elem_of_cons in H as [H|H]; [lia|]).
  apply elem_of_nil in H. destruct H.
Qed.

End ShiftedRequest.

(* ================================================================== *)
(** * Part III: the depth sorter against its specification *)
(* ================================================================== *)

Section SorterClaims.
Import JS TypedArray Sorter SorterSpec.

(** C2.  The sorter does not follow the bucket formula on every request.
    On the request of two triangles at the depths
    [2 - 3 * 2^-25] and [-1 - 3 * 2^-25], which are 3 apart, the bucket
    formula gives the buckets 65535 and 0, hence the triangle order 1, 0
    and the index array [3, 4, 5, 0, 1, 2].  The sorter stores the
    depths as the binary32 numbers [2 - 2^-23] and [-1 - 2^-23]; the
    second lies below the unrounded least depth, its key is
    [floor (- 2^-25 * 21845) = -1], stored as 4294967295, and the
    first gets 65534.  The array returned, [0, 1, 2, 0, 1, 2], is the
    corner array of no order of the two triangles. *)
Theorem stored_depth_misses_bucket_formula :
  let ds := computeDepths 2 shifted_centers shifted_viewMatrix in
  let scale := div (Fin 65535) (sub (maxDepth ds) (minDepth ds)) in
  let zmin := (-1 - (3 # 33554432))%Q in
  let zmax := (2 - (3 # 33554432))%Q in
  let out := sortAndPrepareIndexBuffer 2 shifted_centers shifted_viewMatrix in
  length shifted_centers = 6%nat /\ length shifted_viewMatrix = 16%nat
  /\ is_min_depth shifted_centers shifted_viewMatrix 2 zmin
  /\ is_max_depth shifted_centers shifted_viewMatrix 2 zmax
  /\ ~ (zmax - zmin <= DEPTH_RANGE_EPS)%Q
  /\ spec_bucket shifted_centers shifted_viewMatrix zmin zmax 0 = 65535%Z
  /\ spec_bucket shifted_centers shifted_viewMatrix zmin zmax 1 = 0%Z
  /\ minDepth ds = Fin zmin
  /\ floatDepths ds
     = [Fin (2 - (1 # 8388608)); Fin (-1 - (1 # 8388608))]
  /\ depth_bucket ds scale 0 = 65534%Z
  /\ depth_bucket ds scale 1 = 4294967295%Z
  /\ out = [0; 1; 2; 0; 1; 2]%Z
  /\ ~ exists order, Permutation order (seq 0 2) /\ out = triples order.
Proof.
  cbv zeta.
  split; [reflexivity|]. split; [reflexivity|].
  split; [exact shifted_min|]. split; [exact shifted_max|].
  split; [vm_compute; intros H; apply H; reflexivity|].
  split; [vm_compute; reflexivity|]. split; [vm_compute; reflexivity|].
  rewrite shifted_depths. cbn [minDepth floatDepths].
  split; [reflexivity|]. split; [reflexivity|].
  split; [vm_compute; reflexivity|]. split; [vm_compute; reflexivity|].
  rewrite shifted_output. split; [reflexivity|].
  intros (order & Hperm & Hout).
  assert (Hin : 1%nat ∈ order).
  { rewrite Hperm. apply elem_of_seq. lia. }
  apply list_elem_of_lookup in Hin as [k Hk].
  pose proof (triples_lookup order k 1 0 Hk ltac:(lia)) as H3.
  rewrite <- Hout in H3.
  apply list_elem_of_lookup_2, shifted_entries in H3. lia.
Qed.

(** C3.  The returned array is not always a permutation of the
    triangle triples.  On the request of two triangles at the depths
    [2 - 3 * 2^-25] and [-1 - 3 * 2^-25] the sorter returns
    [0, 1, 2, 0, 1, 2]: the array has six entries, no slot holds the
    corners of triangle 1, both slots hold those of triangle 0, and the
    corner indices 3, 4, 5 occur nowhere. *)
Theorem stored_depth_drops_a_triangle :
  let out := sortAndPrepareIndexBuffer 2 shifted_centers shifted_viewMatrix in
  out = [0; 1; 2; 0; 1; 2]%Z
  /\ length out = (2 * 3)%nat
  /\ (forall k, ~ holds_triangle out k 1)
  /\ holds_triangle out 0 0 /\ holds_triangle out 1 0
  /\ forall p c, (3 <= c)%Z -> out !! p <> Some c.
Proof.
  cbv zeta. rewrite shifted_output.
  split; [reflexivity|]. split; [reflexivity|]. split; [|split; [|split]].
  - intros k (_ & _ & H2).
    apply list_elem_of_lookup_2, shifted_entries in H2. lia.
  - repeat split; reflexivity.
  - repeat split; reflexivity.
  - intros p c Hc Hp.
    apply list_elem_of_lookup_2, shifted_entries in Hp. lia.
Qed.



End SorterClaims.

(* ================================================================== *)
(** * Part IV: the geometry builder against its specification *)
(* ================================================================== *)

(** ** Array sizes and trip counts *)

Section Sizes.
Import JS TypedArray Geometry.

Lemma alloc_length_whole {A} (a : list A) :
  alloc_length (third_of_length a * 3) = length a.
Proof.
  unfold alloc_length, third_of_length.
  rewrite (Qfloor_comp _ (inject_Z (Z.of_nat (length a)))) by field.
  rewrite Qfloor_Z. apply Nat2Z.id.
Qed.

Lemma alloc_length_whole_3 {A} (a : list A) :
  alloc_length (third_of_length a * 3 * 3) = (length a * 3)%nat.
Proof.
  unfold alloc_length, third_of_length.
  rewrite (Qfloor_comp _ (inject_Z (Z.of_nat (length a * 3)))).
  - rewrite Qfloor_Z. apply Nat2Z.id.
  - rewrite Nat2Z.inj_mul, inject_Z_mult. simpl (Z.of_nat 3). field.
Qed.

(** Every index below the length belongs to an iteration of the loop over
    thirds, also when the length is no multiple of three. *)
Lemma trip_count_covers {A} (a : list A) i j :
  i * 3 + j < length a -> i < trip_count (third_of_length a).
Proof.
  intros Hlt. unfold trip_count, third_of_length.
  set (x := (inject_Z (Z.of_nat (length a)) / 3)%Q).
  assert (Hx : (inject_Z (Z.of_nat i) < x)%Q).
  { unfold x. apply Qlt_shift_div_l; [reflexivity|].
    change 3%Q with (inject_Z 3). rewrite <- inject_Z_mult.
    rewrite <- Zlt_Qlt. lia. }
  pose proof (Qle_ceiling x) as Hc.
  assert (Hlt' : (inject_Z (Z.of_nat i) < inject_Z (Qceiling x))%Q)
    by (eapply Qlt_le_trans; eassumption).
  rewrite <- Zlt_Qlt in Hlt'. lia.
Qed.

End Sizes.

(** ** The min-weight attribute *)

Section MinWeights.
Import JS TypedArray Geometry.
Variables (vertices : list Q) (triangle_indices : list Z) (opacities : list Q).

Local Abbreviation m := (triangleMinWeight triangle_indices opacities).

Lemma triangle_step_min_weights i b :
  triangleMinWeights (triangle_step vertices triangle_indices opacities i b)
  = <[(i * 3 + 2)%nat := m i]>
      (<[(i * 3 + 1)%nat := m i]>
         (<[(i * 3)%nat := m i]> (triangleMinWeights b))).
Proof.
  unfold triangle_step, for_loop. cbn [seq fold_left].
  cbn [corner_step triangleMinWeights store_center].
  rewrite Nat.add_0_r. reflexivity.
Qed.

Lemma unrollTriangles_min_weights_length :
  length (triangleMinWeights
            (unrollTriangles vertices triangle_indices opacities))
  = length triangle_indices.
Proof.
  unfold unrollTriangles.
  rewrite (for_loop_proj triangleMinWeights _ _
             (fun i a =>
                <[(i * 3 + 2)%nat := m i]>
                  (<[(i * 3 + 1)%nat := m i]> (<[(i * 3)%nat := m i]> a)))
             _ triangle_step_min_weights).
  rewrite (triple_loop_length (fun i _ => m i)).
  cbn [fresh_buffers triangleMinWeights]. rewrite length_replicate.
  apply alloc_length_whole.
Qed.

(** Every corner record of triangle [i] carries the minimum of the three
    opacities of that triangle. *)
Lemma unrollTriangles_min_weights i j :
  j < 3 -> i * 3 + j < length triangle_indices ->
  triangleMinWeights (unrollTriangles vertices triangle_indices opacities)
    !! (i * 3 + j)%nat
  = Some (triangleMinWeight triangle_indices opacities i).
Proof.
  intros Hj Hlt. unfold unrollTriangles.
  rewrite (for_loop_proj triangleMinWeights _ _
             (fun i a =>
                <[(i * 3 + 2)%nat := m i]>
                  (<[(i * 3 + 1)%nat := m i]> (<[(i * 3)%nat := m i]> a)))
             _ triangle_step_min_weights).
  apply (triple_loop_lookup_in (fun i _ => m i)).
  - apply (trip_count_covers triangle_indices i j Hlt).
  - exact Hj.
  - cbn [fresh_buffers triangleMinWeights]. rewrite length_replicate.
    rewrite alloc_length_whole. exact Hlt.
Qed.

End MinWeights.

(** ** [Math.min] on finite numbers *)

Section MinFacts.
Import JS.

Lemma min2_Fin a b :
  exists q, min2 (Fin a) (Fin b) = Fin q
            /\ (q <= a)%Q /\ (q <= b)%Q /\ (q = a \/ q = b).
Proof.
  unfold min2, lt. destruct (Qlt_bool b a) eqn:E.
  - apply Qlt_bool_iff in E. exists b. repeat split; auto; lra.
  - apply Qlt_bool_false in E. exists a. repeat split; auto; lra.
Qed.

Lemma min3_Fin a b c :
  exists q, min3 (Fin a) (Fin b) (Fin c) = Fin q
            /\ (q <= a)%Q /\ (q <= b)%Q /\ (q <= c)%Q
            /\ (q = a \/ q = b \/ q = c).
Proof.
  unfold min3. destruct (min2_Fin a b) as (m & -> & Ha & Hb & Hm).
  destruct (min2_Fin m c) as (q & -> & Hqm & Hc & Hq).
  exists q. split; [reflexivity|].
  repeat split; try lra. destruct Hq as [-> | ->]; tauto.
Qed.

End MinFacts.

(** ** The builder always returns *)

Section Totality.
Import JS TypedArray Geometry.

Lemma sh_step_length dc rest d vIdx shData :
  length (sh_step dc rest d vIdx shData) = length shData.
Proof.
  unfold sh_step.
  destruct rest as [rest|]; [|rewrite !length_insert; reflexivity].
  destruct (0 <? restComponentCount d)%Z;
    [|rewrite !length_insert; reflexivity].
  rewrite (fill_loop_length_gen (fun k => (vIdx * 48 + 3 + k)%nat)).
  rewrite !length_insert. reflexivity.
Qed.

Lemma packSH_length vertices dc rest d shData :
  packSH vertices (Some dc) rest d = Some shData ->
  length shData = alloc_length (third_of_length vertices * 48).
Proof.
  unfold packSH. intros H. injection H as <-.
  rewrite <- (length_replicate
                (alloc_length (third_of_length vertices * 48)) (Fin 0)) at 2.
  apply (for_loop_ind (fun _ a => length a = length (replicate _ (Fin 0))));
    [reflexivity|].
  intros i st _ H. rewrite sh_step_length. exact H.
Qed.

(** The texture of 1024-texel rows always has room for the packed data,
    so [rgbaData.set(shData)] cannot throw. *)
Lemma texture_has_room (n : Q) :
  (alloc_length (n * 48)
   <= alloc_length (1024 * inject_Z (Qceiling (n * 12 / 1024)) * 4))%nat.
Proof.
  unfold alloc_length.
  pose proof (Qle_ceiling (n * 12 / 1024)) as Hc.
  assert (Hx : (n * 12 / 1024 * 1024 == n * 12)%Q) by field.
  set (x := (n * 12 / 1024)%Q) in *.
  assert (Hle : (n * 48 <= 1024 * inject_Z (Qceiling x) * 4)%Q) by lra.
  apply Qfloor_resp_le in Hle. lia.
Qed.

Lemma makeSHTexture_total vertices dc rest d shData :
  packSH vertices (Some dc) rest d = Some shData ->
  exists texture, makeSHTexture vertices shData = Some texture.
Proof.
  intros Hpack. apply packSH_length in Hpack.
  unfold makeSHTexture, typed_set.
  rewrite length_replicate, Hpack.
  pose proof (texture_has_room (third_of_length vertices)) as Hroom.
  apply Nat.leb_le in Hroom. rewrite Hroom. eauto.
Qed.

(** The construction never throws, whatever the shape of its input. *)
Lemma createTriangleSplatsGeometry_total
    vertices triangle_indices opacities vertex_weights colors
    features_dc features_rest sh_degree :
  exists g,
    createTriangleSplatsGeometry vertices triangle_indices opacities
      vertex_weights colors features_dc features_rest sh_degree = Some g
    /\ aTriangleMinWeight g
       = triangleMinWeights
           (unrollTriangles vertices triangle_indices opacities)
    /\ length (index g) = length triangle_indices.
Proof.
  unfold createTriangleSplatsGeometry.
  assert (Hidx : length (identityIndex (third_of_length triangle_indices * 3))
                 = length triangle_indices).
  { unfold identityIndex. rewrite fill_loop_length, length_replicate.
    apply alloc_length_whole. }
  destruct features_dc as [dc|].
  - destruct (packSH vertices (Some dc) features_rest sh_degree)
      as [shData|] eqn:Hpack; [|discriminate].
    destruct (makeSHTexture_total _ _ _ _ _ Hpack) as [texture ->].
    cbn. eexists. split; [reflexivity|]. split; [reflexivity | exact Hidx].
  - cbn. eexists. split; [reflexivity|]. split; [reflexivity | exact Hidx].
Qed.

End Totality.

Section GeometryClaims.
Import JS TypedArray Geometry GeometrySpec.

(** C1.  For every scene input and every corner record [3i + j] of a
    triangle [i], the builder returns a geometry whose min-weight
    attribute holds at that record the value
    [m = Math.min(opacities[v0], opacities[v1], opacities[v2])], where
    [v0, v1, v2] are the three vertex indices of triangle [i]; the value
    is the same for the three records of the triangle and is computed from
    [opacities], whatever [vertex_weights] is.  When the three indices
    and the three opacities exist, [m] is one of the three opacities and
    is below or equal to each of them. *)
Theorem min_weight_from_opacities
    vertices triangle_indices opacities vertex_weights colors
    features_dc features_rest sh_degree i j :
  j < 3 -> i * 3 + j < length triangle_indices ->
  let m := min3 (f32_at opacities (triangle_indices !! (i * 3 + 0)%nat))
                (f32_at opacities (triangle_indices !! (i * 3 + 1)%nat))
                (f32_at opacities (triangle_indices !! (i * 3 + 2)%nat)) in
  exists g,
    createTriangleSplatsGeometry vertices triangle_indices opacities
      vertex_weights colors features_dc features_rest sh_degree = Some g
    /\ aTriangleMinWeight g !! (i * 3 + j)%nat = Some m
    /\ forall v0 v1 v2 w0 w1 w2,
         triangle_indices !! (i * 3 + 0)%nat = Some v0 ->
         triangle_indices !! (i * 3 + 1)%nat = Some v1 ->
         triangle_indices !! (i * 3 + 2)%nat = Some v2 ->
         get opacities v0 = Some w0 ->
         get opacities v1 = Some w1 ->
         get opacities v2 = Some w2 ->
         exists q, m = Fin q
                   /\ (q <= w0)%Q /\ (q <= w1)%Q /\ (q <= w2)%Q
                   /\ (q = w0 \/ q = w1 \/ q = w2).
Proof.
  intros Hj Hlt. cbv zeta.
  destruct (createTriangleSplatsGeometry_total vertices triangle_indices
              opacities vertex_weights colors features_dc features_rest
              sh_degree) as (g & Hg & Hmw & _).
  exists g. split; [exact Hg|]. split.
  - rewrite Hmw. apply unrollTriangles_min_weights; assumption.
  - intros v0 v1 v2 w0 w1 w2 -> -> -> H0 H1 H2. cbn [f32_at].
    rewrite H0, H1, H2. cbn [of_slot]. apply min3_Fin.
Qed.

Lemma min_weight_from_opacities_witness :
  exists g,
    createTriangleSplatsGeometry quad_vertices quad_indices quad_opacities
      (Some quad_raw_weights) None None None 0 = Some g
    /\ aTriangleMinWeight g !! 5%nat = Some (Fin (1 # 1000)).
Proof.
  destruct (min_weight_from_opacities quad_vertices quad_indices
              quad_opacities (Some quad_raw_weights) None None None 0
              1%nat 2%nat) as (g & Hg & Hm & _).
  - lia.
  - simpl. lia.
  - exists g. split; [exact Hg | exact Hm].
Defined.

(** C7, as the specification has it, fails on this request: its index
    count is no multiple of three, it has one opacity for three vertices
    and no SH rest coefficients at degree 1, and yet the builder returns a
    geometry, whose min weights are all [NaN]. *)
Lemma bad_shape_is_accepted :
  (length bad_opacities * 3 <> length bad_vertices)%nat
  /\ (length bad_indices mod 3 <> 0)%nat
  /\ (Z.of_nat (length bad_features_rest) * 3
      <> Z.of_nat (length bad_vertices) * ((1 + 1) ^ 2 - 1) * 3)%Z
  /\ bad_shape bad_vertices bad_indices bad_opacities
       (Some bad_features_rest) 1
  /\ exists g,
       createTriangleSplatsGeometry bad_vertices bad_indices bad_opacities
         None None (Some bad_features_dc) (Some bad_features_rest) 1
       = Some g
       /\ aTriangleMinWeight g = [NaN; NaN; NaN; NaN]
       /\ index g = [0; 1; 2; 3]%Z.
Proof.
  split; [simpl; lia|]. split; [simpl; lia|]. split; [simpl; lia|].
  split; [left; simpl; lia|].
  eexists. split; [vm_compute; reflexivity|].
  split; vm_compute; reflexivity.
Qed.

(** C7, amended.  The builder validates nothing: for every input, of good
    or bad shape, the construction succeeds and returns a geometry, whose
    min-weight attribute and index buffer have one entry per entry of
    [triangle_indices]. *)
Theorem builder_accepts_every_shape
    vertices triangle_indices opacities vertex_weights colors
    features_dc features_rest sh_degree :
  exists g,
    createTriangleSplatsGeometry vertices triangle_indices opacities
      vertex_weights colors features_dc features_rest sh_degree = Some g
    /\ length (aTriangleMinWeight g) = length triangle_indices
    /\ length (index g) = length triangle_indices.
Proof.
  destruct (createTriangleSplatsGeometry_total vertices triangle_indices
              opacities vertex_weights colors features_dc features_rest
              sh_degree) as (g & Hg & Hmw & Hidx).
  exists g. split; [exact Hg|]. split; [|exact Hidx].
  rewrite Hmw. apply unrollTriangles_min_weights_length.
Qed.

(** C9.  Two invocations of the builder that differ only in
    [vertex_weights] return the same result: every attribute, the centre
    table, the SH texture, the colours and the index buffer coincide. *)
Theorem vertex_weights_are_ignored
    vertices triangle_indices opacities colors features_dc features_rest
    sh_degree (vertex_weights vertex_weights' : option (list Q)) :
  createTriangleSplatsGeometry vertices triangle_indices opacities
    vertex_weights colors features_dc features_rest sh_degree
  = createTriangleSplatsGeometry vertices triangle_indices opacities
      vertex_weights' colors features_dc features_rest sh_degree.
Proof. reflexivity. Qed.

End GeometryClaims.

(* ================================================================== *)
(** * Part V: the shader stages against their specification *)
(* ================================================================== *)

(** ** Conditions *)

Section Conditions.
Import GLSL.
Local Open Scope R_scope.

Lemma lessThan_true x y : lessThan x y = true <-> x < y.
Proof. unfold lessThan. destruct (Rlt_dec x y); split; (done || lra). Qed.

Lemma lessThan_false x y : lessThan x y = false <-> y <= x.
Proof. unfold lessThan. destruct (Rlt_dec x y); split; (done || lra). Qed.

Lemma lessThanEqual_true x y : lessThanEqual x y = true <-> x <= y.
Proof.
  unfold lessThanEqual. destruct (Rle_dec x y); split; (done || lra).
Qed.

Lemma lessThanEqual_false x y : lessThanEqual x y = false <-> y < x.
Proof.
  unfold lessThanEqual. destruct (Rle_dec x y); split; (done || lra).
Qed.

Lemma greaterThan_true x y : greaterThan x y = true <-> y < x.
Proof. unfold greaterThan. destruct (Rgt_dec x y); split; (done || lra). Qed.

Lemma greaterThan_false x y : greaterThan x y = false <-> x <= y.
Proof. unfold greaterThan. destruct (Rgt_dec x y); split; (done || lra). Qed.

Lemma greaterThanEqual_true x y : greaterThanEqual x y = true <-> y <= x.
Proof.
  unfold greaterThanEqual. destruct (Rge_dec x y); split; (done || lra).
Qed.

Lemma greaterThanEqual_false x y : greaterThanEqual x y = false <-> x < y.
Proof.
  unfold greaterThanEqual. destruct (Rge_dec x y); split; (done || lra).
Qed.

Lemma equal_true x y : equal x y = true <-> x = y.
Proof. unfold equal. destruct (Req_dec_T x y); split; (done || lra). Qed.

Lemma equal_false x y : equal x y = false <-> x <> y.
Proof. unfold equal. destruct (Req_dec_T x y); split; done. Qed.

Lemma pow_nonneg x y : 0 <= pow x y.
Proof.
  unfold pow. destruct (lessThanEqual x 0); [lra|].
  unfold Rpower. left. apply exp_pos.
Qed.

Lemma pow_pos x y : 0 < x -> 0 < pow x y.
Proof.
  intros Hx. unfold pow. destruct (lessThanEqual x 0) eqn:E.
  - apply lessThanEqual_true in E. lra.
  - unfold Rpower. apply exp_pos.
Qed.

End Conditions.

Section PixelClaim.
Import GLSL VertexStage ShaderSpec.
Local Open Scope R_scope.

(** C8.  For every ndc value and resolution [S] the implemented pixel
    projection [(ndc + 1) * S * 0.5 - 0.5] equals the reference formula
    [((ndc + 1) * S - 1) * 0.5] over the reals, and both coordinates of a
    projected vertex are computed with it; for [S = 1920] the ndc values
    -1, 0 and 1 map to the pixels -0.5, 959.5 and 1919.5. *)
Theorem pixel_projection_is_reference :
  (forall ndc S, pixel_coord ndc S = reference_pixel ndc S)
  /\ (forall u c,
        x2 (to_pixels u c) = reference_pixel (x4 c / w4 c) (x2 (uResolution u))
        /\ y2 (to_pixels u c)
           = reference_pixel (y4 c / w4 c) (y2 (uResolution u)))
  /\ pixel_coord (-1) 1920 = -0.5
  /\ pixel_coord 0 1920 = 959.5
  /\ pixel_coord 1 1920 = 1919.5.
Proof.
  unfold to_pixels, pixel_coord, reference_pixel. cbn [x2 y2].
  repeat split; intros; lra.
Qed.

End PixelClaim.

Section FragmentClaim.
Import GLSL FragmentStage ShaderSpec.
Local Open Scope R_scope.

Lemma computeBarycentric_degenerate p a b c :
  Rabs (bary_denom a b c) < 1e-6 ->
  computeBarycentric p a b c = Vec3 (1 / 3) (1 / 3) (1 / 3).
Proof.
  intros H. unfold computeBarycentric, bary_denom in *. cbn [sub2 x2 y2].
  apply lessThan_true in H. rewrite H. reflexivity.
Qed.

Lemma computeBarycentric_proper p a b c :
  ~ Rabs (bary_denom a b c) < 1e-6 ->
  is_barycentric p a b c (computeBarycentric p a b c).
Proof.
  intros H. unfold computeBarycentric, bary_denom in *. cbn [sub2 x2 y2].
  destruct (lessThan _ _) eqn:E; [apply lessThan_true in E; contradiction|].
  assert (Hd : (x2 b - x2 a) * (y2 c - y2 a) - (x2 c - x2 a) * (y2 b - y2 a)
               <> 0).
  { intros H0. rewrite H0, Rabs_R0 in H. lra. }
  unfold is_barycentric. cbn [x3 y3 z3].
  repeat split; field; exact Hd.
Qed.

(** C4.  For every fragment inside the three shrunken half-planes
    ([delta_k <= 0] for the three edges), with [M] the largest of the
    three distances, the fragment stage works with
    [alpha = min(0.99, m * max(0, M * phi_scale)^sigma)]: it discards the
    fragment exactly when [alpha < 1/255] and otherwise outputs the
    pre-multiplied colour [(C * alpha, alpha)], where [C] interpolates
    the three vertex colours with the screen-space barycentric
    coordinates of the fragment, or with [(1/3, 1/3, 1/3)] when the
    denominator of these coordinates is below [1e-6] in absolute
    value. *)
Theorem fragment_output_inside sigma p v :
  let d0 := delta (vNormal0 v) (vOffset0 v) p in
  let d1 := delta (vNormal1 v) (vOffset1 v) p in
  let d2 := delta (vNormal2 v) (vOffset2 v) p in
  d0 <= 0 -> d1 <= 0 -> d2 <= 0 ->
  let M := Rmax d0 (Rmax d1 d2) in
  let alpha :=
    spec_alpha sigma M (vPhiCenterScale v) (vTriangleMinWeight v) in
  let denom := bary_denom (vScreenPos0 v) (vScreenPos1 v) (vScreenPos2 v) in
  exists beta,
    (Rabs denom < 1e-6 -> beta = Vec3 (1 / 3) (1 / 3) (1 / 3))
    /\ (~ Rabs denom < 1e-6 ->
          is_barycentric p (vScreenPos0 v) (vScreenPos1 v) (vScreenPos2 v)
            beta)
    /\ (alpha < 1 / 255 -> main sigma p v = Discarded)
    /\ (~ alpha < 1 / 255 ->
          main sigma p v
          = FragColor
              (vec4_of
                 (scale3 alpha
                    (interpolate beta (vColor0 v) (vColor1 v) (vColor2 v)))
                 alpha)).
Proof.
  cbv zeta. unfold delta. intros H0 H1 H2.
  exists (computeBarycentric p (vScreenPos0 v) (vScreenPos1 v)
            (vScreenPos2 v)).
  split; [apply computeBarycentric_degenerate|].
  split; [apply computeBarycentric_proper|].
  unfold main. cbv zeta.
  apply greaterThan_false in H0, H1, H2. rewrite H0, H1, H2. cbn [orb].
  set (M := Rmax _ (Rmax _ _)).
  assert (HCx : Rmax 0 (pow (Rmax (M * vPhiCenterScale v) 0) sigma)
                = pow (Rmax 0 (M * vPhiCenterScale v)) sigma).
  { rewrite (Rmax_comm (M * vPhiCenterScale v) 0).
    apply Rmax_right. apply pow_nonneg. }
  rewrite HCx. unfold spec_alpha. split.
  - intros Ha. apply lessThan_true in Ha. rewrite Ha. reflexivity.
  - intros Ha. destruct (lessThan _ _) eqn:E;
      [apply lessThan_true in E; contradiction|].
    reflexivity.
Qed.

Lemma fragment_output_inside_witness :
  main 1 (Vec2 2 2) inner_fragment
  = FragColor (Vec4 (0.99 * (1 / 2)) (0.99 * (1 / 4)) (0.99 * (1 / 4)) 0.99).
Proof.
  destruct (fragment_output_inside 1 (Vec2 2 2) inner_fragment)
    as (beta & _ & Hbary & _ & Hout).
  - unfold delta, dot2. simpl. lra.
  - unfold delta, dot2. simpl. lra.
  - unfold delta, dot2. simpl. lra.
  - assert (Hd : ~ Rabs (bary_denom (vScreenPos0 inner_fragment)
                           (vScreenPos1 inner_fragment)
                           (vScreenPos2 inner_fragment)) < 1e-6).
    { unfold bary_denom. simpl. rewrite Rabs_right; lra. }
    destruct (Hbary Hd) as (Hsum & Hx & Hy). simpl in Hx, Hy.
    assert (HM : Rmax (delta (vNormal0 inner_fragment)
                         (vOffset0 inner_fragment) (Vec2 2 2))
                   (Rmax (delta (vNormal1 inner_fragment)
                            (vOffset1 inner_fragment) (Vec2 2 2))
                         (delta (vNormal2 inner_fragment)
                            (vOffset2 inner_fragment) (Vec2 2 2))) = -2).
    { replace (delta (vNormal0 inner_fragment) (vOffset0 inner_fragment)
                 (Vec2 2 2)) with (-2) by (unfold delta, dot2; simpl; lra).
      replace (delta (vNormal1 inner_fragment) (vOffset1 inner_fragment)
                 (Vec2 2 2)) with (-2) by (unfold delta, dot2; simpl; lra).
      replace (delta (vNormal2 inner_fragment) (vOffset2 inner_fragment)
                 (Vec2 2 2)) with (-2) by (unfold delta, dot2; simpl; lra).
      unfold Rmax. repeat destruct (Rle_dec _ _); lra. }
    assert (Halpha : spec_alpha 1 (-2) (vPhiCenterScale inner_fragment)
                       (vTriangleMinWeight inner_fragment) = 0.99).
    { unfold spec_alpha. simpl.
      rewrite (Rmax_right 0 (-2 * -1)) by lra.
      unfold pow. destruct (lessThanEqual _ _) eqn:E;
        [apply lessThanEqual_true in E; lra|].
      rewrite Rpower_1 by lra. apply Rmin_left. lra. }
    rewrite HM, Halpha in Hout. rewrite Hout by lra.
    unfold interpolate, scale3, add3, vec4_of. simpl.
    f_equal. f_equal; nra.
Defined.

End FragmentClaim.

(** ** The edge loop of the vertex stage *)

Section EdgeLoop.
Import GLSL TypedArray VertexStage ShaderSpec.
Local Open Scope R_scope.
Variable projected : list vec2.
Variable incenter : vec2.
Variables ratio exponent : R.

Local Abbreviation edge := (oriented_edge projected incenter).
Local Abbreviation normal_ := (fun k => fst (fst (edge k))).
Local Abbreviation offset_ := (fun k => snd (fst (edge k))).
Local Abbreviation dist_ := (fun k => snd (edge k)).
Local Abbreviation pw := (pow ratio exponent).

(** The three shrink sizes, as the loop computes them. *)
Lemma edge_loop_unrolled :
  let s0 := dist_ 0%nat * pw in
  let s1 := if equal s0 0 then dist_ 1%nat * pw else s0 in
  let s2 := if equal s1 0 then dist_ 2%nat * pw else s1 in
  edge_loop projected incenter ratio exponent
  = {| edgeNormals := [normal_ 0%nat; normal_ 1%nat; normal_ 2%nat];
       edgeOffsets := [offset_ 0%nat - s0; offset_ 1%nat - s1;
                       offset_ 2%nat - s2];
       computedSize := s2;
       lastDist := dist_ 2%nat |}.
Proof.
  cbv zeta. unfold edge_loop, for_loop. cbn [seq fold_left].
  unfold edge_step.
  destruct (edge 0%nat) as [[n0 o0] d0].
  destruct (edge 1%nat) as [[n1 o1] d1].
  destruct (edge 2%nat) as [[n2 o2] d2].
  cbn [computedSize edgeNormals edgeOffsets fst snd].
  assert (H0 : equal 0 0 = true) by (apply equal_true; reflexivity).
  rewrite H0. reflexivity.
Qed.

(** The oriented distance is never positive. *)
Lemma oriented_dist_nonpos k : dist_ k <= 0.
Proof.
  unfold oriented_edge. cbv zeta.
  destruct (greaterThan _ 0) eqn:E; cbn [snd].
  - apply greaterThan_true in E. lra.
  - apply greaterThan_false in E. exact E.
Qed.

End EdgeLoop.

(** ** The incenter and the three edges *)

Section IncenterGeometry.
Import GLSL TypedArray VertexStage ShaderSpec.
Local Open Scope R_scope.
Variables p0 p1 p2 : vec2.

Local Abbreviation projected := [p0; p1; p2].
Local Abbreviation incenter := (incenter_of projected).
Local Abbreviation area2 := (bary_denom p0 p1 p2).

Lemma distance2_nonneg a b : 0 <= distance2 a b.
Proof. unfold distance2, length2. apply sqrt_pos. Qed.

Lemma sum_of_squares_nonneg (u v : R) : 0 <= u * u + v * v.
Proof. nra. Qed.

Lemma sum_of_squares_zero (u v : R) : u * u + v * v = 0 -> u = 0 /\ v = 0.
Proof. intros H. split; nra. Qed.

Lemma distance2_zero a b : distance2 a b = 0 -> x2 a = x2 b /\ y2 a = y2 b.
Proof.
  unfold distance2, length2, sub2. cbn [x2 y2]. intros H.
  apply sqrt_eq_0 in H; [|apply sum_of_squares_nonneg].
  apply sum_of_squares_zero in H as [Hx Hy]. split; lra.
Qed.

(** The oriented distance is a non-zero multiple of the distance measured
    along the unnormalised normal of the edge. *)
Lemma oriented_dist_multiple (pts : list vec2) (c : vec2) i :
  let current := elem zero2 pts i in
  let next := elem zero2 pts ((i + 1) mod 3) in
  exists s, s <> 0
    /\ snd (oriented_edge pts c i)
       = s * ((y2 next - y2 current) * (x2 c - x2 current)
              - (x2 next - x2 current) * (y2 c - y2 current)).
Proof.
  cbv zeta. unfold oriented_edge. cbv zeta.
  set (current := elem zero2 pts i).
  set (next := elem zero2 pts ((i + 1) mod 3)).
  cbn [sub2 x2 y2].
  set (len := length2 _).
  destruct (greaterThan len 1e-4) eqn:Elen.
  - apply greaterThan_true in Elen. cbn [div2 x2 y2].
    destruct (greaterThan _ 0); cbn [snd].
    + exists (- (1 / len)). split.
      * apply Ropp_neq_0_compat. apply Rgt_not_eq.
        apply Rdiv_lt_0_compat; lra.
      * field. lra.
    + exists (1 / len). split.
      * apply Rgt_not_eq. apply Rdiv_lt_0_compat; lra.
      * field. lra.
  - cbn [x2 y2]. destruct (greaterThan _ 0); cbn [snd].
    + exists (-1). split; [lra | ring].
    + exists 1. split; [lra | ring].
Qed.

(** Measured along the unnormalised normal of an edge, the distance of
    the incenter is the doubled signed area of the projected triangle
    scaled by the length of that edge over the perimeter. *)
Lemma incenter_edge_0 :
  perimeter_of projected <> 0 ->
  (y2 p1 - y2 p0) * (x2 incenter - x2 p0)
  - (x2 p1 - x2 p0) * (y2 incenter - y2 p0)
  = - (distance2 p0 p1 / perimeter_of projected) * area2.
Proof.
  unfold perimeter_of, incenter_of, bary_denom. cbn [elem nth].
  set (sideA := distance2 p1 p2). set (sideB := distance2 p2 p0).
  set (sideC := distance2 p0 p1).
  intros HP. cbn [add2 scale2 div2 x2 y2]. field. exact HP.
Qed.

Lemma incenter_edge_1 :
  perimeter_of projected <> 0 ->
  (y2 p2 - y2 p1) * (x2 incenter - x2 p1)
  - (x2 p2 - x2 p1) * (y2 incenter - y2 p1)
  = - (distance2 p1 p2 / perimeter_of projected) * area2.
Proof.
  unfold perimeter_of, incenter_of, bary_denom. cbn [elem nth].
  set (sideA := distance2 p1 p2). set (sideB := distance2 p2 p0).
  set (sideC := distance2 p0 p1).
  intros HP. cbn [add2 scale2 div2 x2 y2]. field. exact HP.
Qed.

Lemma incenter_edge_2 :
  perimeter_of projected <> 0 ->
  (y2 p0 - y2 p2) * (x2 incenter - x2 p2)
  - (x2 p0 - x2 p2) * (y2 incenter - y2 p2)
  = - (distance2 p2 p0 / perimeter_of projected) * area2.
Proof.
  unfold perimeter_of, incenter_of, bary_denom. cbn [elem nth].
  set (sideA := distance2 p1 p2). set (sideB := distance2 p2 p0).
  set (sideC := distance2 p0 p1).
  intros HP. cbn [add2 scale2 div2 x2 y2]. field. exact HP.
Qed.

Lemma degenerate_first_edge : distance2 p0 p1 = 0 -> area2 = 0.
Proof.
  intros H. apply distance2_zero in H as [Hx Hy].
  unfold bary_denom. rewrite Hx, Hy. ring.
Qed.

(** If the incenter lies on the first edge, the projected triangle is
    degenerate and the incenter lies on the three edges. *)
Lemma first_distance_zero :
  1 <= perimeter_of projected ->
  snd (oriented_edge projected incenter 0) = 0 ->
  snd (oriented_edge projected incenter 1) = 0
  /\ snd (oriented_edge projected incenter 2) = 0.
Proof.
  intros HP H0.
  assert (HPnz : perimeter_of projected <> 0) by lra.
  destruct (oriented_dist_multiple projected incenter 0) as (s0 & Hs0 & E0).
  destruct (oriented_dist_multiple projected incenter 1) as (s1 & _ & E1).
  destruct (oriented_dist_multiple projected incenter 2) as (s2 & _ & E2).
  change ((0 + 1) mod 3)%nat with 1%nat in E0.
  change ((1 + 1) mod 3)%nat with 2%nat in E1.
  change ((2 + 1) mod 3)%nat with 0%nat in E2.
  cbn [elem nth] in E0, E1, E2.
  rewrite (incenter_edge_0 HPnz) in E0.
  rewrite (incenter_edge_1 HPnz) in E1.
  rewrite (incenter_edge_2 HPnz) in E2.
  assert (Harea : area2 = 0).
  { rewrite H0 in E0. symmetry in E0.
    apply Rmult_integral in E0 as [E0 | E0]; [contradiction|].
    apply Rmult_integral in E0 as [E0 | E0]; [|exact E0].
    apply degenerate_first_edge.
    apply Ropp_eq_0_compat in E0. rewrite Ropp_involutive in E0.
    unfold Rdiv in E0. apply Rmult_integral in E0 as [E0 | E0];
      [exact E0|].
    exfalso. revert E0. apply Rinv_neq_0_compat, HPnz. }
  rewrite E1, E2, Harea. split; ring.
Qed.

End IncenterGeometry.

(** ** What an emitted corner has passed *)

Section Emitted.
Import GLSL TypedArray VertexStage ShaderSpec.
Local Open Scope R_scope.

Lemma main_emitted u a gl v :
  main u a = Emitted gl v ->
  let projected := projected_of u a in
  let edges :=
    edge_loop projected (incenter_of projected)
      (0.01 / aTriangleMinWeight a) (1 / sigma u) in
  0.01 <= aTriangleMinWeight a
  /\ 0.001 <= Rabs (backface_cos u a)
  /\ 1 <= perimeter_of projected
  /\ 1 <= distance_points_of projected (incenter_of projected) <= 1600
  /\ vTriangleMinWeight v = aTriangleMinWeight a
  /\ vPhiCenterScale v = 1 / safeDist_of (lastDist edges)
  /\ vNormal0 v = elem zero2 (edgeNormals edges) 0
  /\ vNormal1 v = elem zero2 (edgeNormals edges) 1
  /\ vNormal2 v = elem zero2 (edgeNormals edges) 2
  /\ vOffset0 v = elem 0 (edgeOffsets edges) 0
  /\ vOffset1 v = elem 0 (edgeOffsets edges) 1
  /\ vOffset2 v = elem 0 (edgeOffsets edges) 2.
Proof.
  unfold main. cbv zeta.
  destruct (lessThan (aTriangleMinWeight a) 0.01) eqn:E1; [discriminate|].
  destruct (lessThan (Rabs (backface_cos u a)) 0.001) eqn:E2;
    [discriminate|].
  destruct (lessThanEqual _ 0 && lessThanEqual _ 0 && lessThanEqual _ 0);
    [discriminate|].
  destruct (lessThan (perimeter_of (projected_of u a)) 1) eqn:E3;
    [discriminate|].
  destruct (greaterThan (distance_points_of (projected_of u a)
                           (incenter_of (projected_of u a))) 1600) eqn:E4;
    [discriminate|].
  destruct (lessThan (distance_points_of (projected_of u a)
                        (incenter_of (projected_of u a))) 1) eqn:E5;
    [discriminate|].
  cbn [orb]. intros H. injection H as _ <-.
  cbn [vTriangleMinWeight vPhiCenterScale vNormal0 vNormal1 vNormal2
       vOffset0 vOffset1 vOffset2].
  apply lessThan_false in E1, E2, E3, E5. apply greaterThan_false in E4.
  repeat split; (assumption || reflexivity).
Qed.

End Emitted.

Section VertexClaims.
Import GLSL TypedArray VertexStage ShaderSpec.
Local Open Scope R_scope.


(** C5, amended.  For every corner that survives the culling sequence
    the distance [d_last] of the incenter to the last edge is not
    positive, and the scale handed to the fragment stage is [1 / d_last]
    when [d_last < 0] and [1 / (-1e-4)] when [d_last = 0]; it equals
    [1 / min(d_last, -1e-4)] whenever [d_last <= -1e-4] or
    [d_last = 0]. *)
Theorem phi_scale_guards_zero_only u a gl v :
  main u a = Emitted gl v ->
  let d_last := edge_distance u a 2 in
  d_last <= 0
  /\ (d_last < 0 -> vPhiCenterScale v = 1 / d_last)
  /\ (d_last = 0 -> vPhiCenterScale v = 1 / - 1e-4)
  /\ (d_last <= - 1e-4 \/ d_last = 0 ->
        vPhiCenterScale v = 1 / Rmin d_last (- 1e-4)).
Proof.
  intros Hmain. apply main_emitted in Hmain. cbv zeta in Hmain.
  destruct Hmain as (_ & _ & _ & _ & _ & Hphi & _).
  rewrite edge_loop_unrolled in Hphi. cbn [lastDist] in Hphi.
  cbv zeta. unfold edge_distance, edge_of.
  set (d := snd (oriented_edge _ _ 2)) in *.
  assert (Hd : d <= 0) by apply oriented_dist_nonpos.
  unfold safeDist_of in Hphi.
  split; [exact Hd|]. split; [|split].
  - intros Hneg. destruct (greaterThanEqual d 0) eqn:E;
      [apply greaterThanEqual_true in E; lra | exact Hphi].
  - intros Hz. destruct (greaterThanEqual d 0) eqn:E;
      [exact Hphi | apply greaterThanEqual_false in E; lra].
  - intros [Hle | Hz].
    + rewrite Rmin_left by exact Hle.
      destruct (greaterThanEqual d 0) eqn:E;
        [apply greaterThanEqual_true in E; lra | exact Hphi].
    + rewrite Rmin_right by lra.
      destruct (greaterThanEqual d 0) eqn:E;
        [exact Hphi | apply greaterThanEqual_false in E; lra].
Qed.

End VertexClaims.

(** ** Two triangles that survive the culling sequence *)

Section SurvivingTriangles.
Import GLSL TypedArray VertexStage ShaderSpec.
Local Open Scope R_scope.

Local Abbreviation h := sliver_height.
Local Abbreviation long_side := (400000001 / 399999999).
Local Abbreviation inradius := (1 / 20000).
Local Abbreviation q0 := (Vec2 (- 0.5) (0.5 - h / 3)).
Local Abbreviation q1 := (Vec2 1.5 (0.5 - h / 3)).
Local Abbreviation q2 := (Vec2 0.5 (0.5 + 2 * h / 3)).
Local Abbreviation centre := (Vec2 0.5 (0.5 - h / 3 + inradius)).

Lemma sqrt_of_square x y : 0 <= y -> x = y * y -> sqrt x = y.
Proof. intros Hy ->. apply sqrt_square, Hy. Qed.

(** Unfolds the vector operations down to the arithmetic of the reals. *)
Ltac glsl_eval :=
  cbv beta iota zeta delta
      [projected_of to_pixels pixel_coord clip backface_cos
       sliver_uniforms sliver flat_uniforms flat identity4
       mat4_vec mat4_mul mat3_of mat3_vec vec4_of xyz xy
       add4 scale4 add3 sub3 neg3 scale3 div3 dot3 cross normalize3
       add2 sub2 neg2 scale2 div2 dot2 distance2
       x4 y4 z4 w4 x3 y3 z3 x2 y2
       m4c0 m4c1 m4c2 m4c3 m3c0 m3c1 m3c2
       modelViewMatrix projectionMatrix uResolution sigma
       aTriangleMinWeight aTriangleV0 aTriangleV1 aTriangleV2 position
       elem nth].

(** Through identity matrices a vertex is its own clip position. *)
Lemma sliver_clip v : clip sliver_uniforms v = vec4_of v 1.
Proof.
  destruct v as [x y z]. glsl_eval.
  assert (HV : forall a b c d a' b' c' d' : R,
            a = a' -> b = b' -> c = c' -> d = d' ->
            Vec4 a b c d = Vec4 a' b' c' d') by (intros; subst; reflexivity).
  apply HV; ring.
Qed.

Lemma sliver_projected :
  projected_of sliver_uniforms sliver = [q0; q1; q2].
Proof.
  unfold projected_of. rewrite !sliver_clip. glsl_eval.
  unfold sliver_height.
  repeat (apply (f_equal2 cons); [apply (f_equal2 Vec2)|]);
    try reflexivity; lra.
Qed.

Lemma sliver_side_a : distance2 q1 q2 = long_side.
Proof.
  unfold distance2, length2, sub2. cbn [x2 y2].
  apply sqrt_of_square; unfold sliver_height; lra.
Qed.

Lemma sliver_side_b : distance2 q2 q0 = long_side.
Proof.
  unfold distance2, length2, sub2. cbn [x2 y2].
  apply sqrt_of_square; unfold sliver_height; lra.
Qed.

Lemma sliver_side_c : distance2 q0 q1 = 2.
Proof.
  unfold distance2, length2, sub2. cbn [x2 y2].
  apply sqrt_of_square; unfold sliver_height; lra.
Qed.

Lemma sliver_perimeter : perimeter_of [q0; q1; q2] = 2 * long_side + 2.
Proof.
  unfold perimeter_of. cbn [elem nth].
  rewrite sliver_side_a, sliver_side_b, sliver_side_c. lra.
Qed.

Lemma sliver_incenter : incenter_of [q0; q1; q2] = centre.
Proof.
  unfold incenter_of. cbn [elem nth].
  rewrite sliver_side_a, sliver_side_b, sliver_side_c.
  unfold div2, add2, scale2. cbn [x2 y2].
  f_equal; unfold sliver_height; lra.
Qed.

Lemma Vec3_eq (a b c a' b' c' : R) :
  a = a' -> b = b' -> c = c' -> Vec3 a b c = Vec3 a' b' c'.
Proof. intros; subst; reflexivity. Qed.

Lemma sliver_height_bounds : 1e-4 < 2 * h /\ h < 3e-4 /\ 0 < h.
Proof. unfold sliver_height. lra. Qed.

(** The sliver faces the camera squarely. *)
Lemma sliver_backface : backface_cos sliver_uniforms sliver = -1.
Proof.
  pose proof sliver_height_bounds as (Hh1 & Hh2 & Hh0).
  unfold backface_cos. cbv zeta.
  assert (Hn : mat3_vec (mat3_of (modelViewMatrix sliver_uniforms))
                 (cross (sub3 (aTriangleV1 sliver) (aTriangleV0 sliver))
                        (sub3 (aTriangleV2 sliver) (aTriangleV0 sliver)))
               = Vec3 0 0 (2 * h)).
  { glsl_eval. apply Vec3_eq; lra. }
  rewrite Hn.
  assert (Hlen : length3 (Vec3 0 0 (2 * h)) = 2 * h).
  { unfold length3. cbn [x3 y3 z3]. apply sqrt_of_square; lra. }
  rewrite Hlen.
  assert (Hgt : greaterThan (2 * h) 1e-4 = true)
    by (apply greaterThan_true; lra).
  rewrite Hgt.
  assert (Hnorm : normalize3 (Vec3 0 0 (2 * h)) = Vec3 0 0 1).
  { unfold normalize3. rewrite Hlen. unfold div3. cbn [x3 y3 z3].
    apply Vec3_eq; field; lra. }
  rewrite Hnorm.
  assert (Hc : neg3 (xyz (mat4_vec (modelViewMatrix sliver_uniforms)
                 (vec4_of
                    (div3 (add3 (add3 (aTriangleV0 sliver)
                                      (aTriangleV1 sliver))
                                (aTriangleV2 sliver)) 3) 1)))
               = Vec3 0 0 1).
  { glsl_eval. apply Vec3_eq; lra. }
  rewrite Hc.
  assert (Hview : normalize3 (Vec3 0 0 1) = Vec3 0 0 1).
  { unfold normalize3, length3, div3. cbn [x3 y3 z3].
    rewrite (sqrt_of_square _ 1) by lra. apply Vec3_eq; lra. }
  rewrite Hview.
  assert (Hdot : dot3 (Vec3 0 0 1) (Vec3 0 0 1) = 1)
    by (unfold dot3; cbn [x3 y3 z3]; lra).
  rewrite Hdot.
  assert (Hflip : greaterThan 1 0 = true) by (apply greaterThan_true; lra).
  rewrite Hflip. reflexivity.
Qed.

(** The distance of the incenter to the last edge is the inradius. *)
Lemma sliver_last_distance :
  snd (oriented_edge [q0; q1; q2] centre 2) = - inradius.
Proof.
  pose proof sliver_height_bounds as (Hh1 & Hh2 & Hh0).
  unfold oriented_edge. cbv zeta.
  change ((2 + 1) mod 3)%nat with 0%nat. cbn [elem nth sub2 x2 y2].
  assert (Hlen : length2 (Vec2 (0.5 - h / 3 - (0.5 + 2 * h / 3))
                               (- (- 0.5 - 0.5)))
                 = long_side).
  { unfold length2. cbn [x2 y2].
    apply sqrt_of_square; unfold sliver_height; lra. }
  rewrite Hlen.
  assert (Hgt : greaterThan long_side 1e-4 = true)
    by (apply greaterThan_true; lra).
  rewrite Hgt. cbn [div2 x2 y2].
  match goal with
  | |- snd (if greaterThan ?d 0 then _ else _) = _ =>
      assert (Hd : d = - inradius)
  end.
  { assert (Hinv : / long_side = 399999999 / 400000001) by lra.
    unfold Rdiv at 1 3 5 7 9. unfold sliver_height.
    lra. }
  rewrite Hd.
  assert (Hno : greaterThan (- inradius) 0 = false)
    by (apply greaterThan_false; lra).
  rewrite Hno. reflexivity.
Qed.

(** The largest vertex distance is above the first one and below any
    bound on the three. *)
Lemma distance_points_bounds (pts : list vec2) (c : vec2) (B : R) :
  0 <= B ->
  (forall i, (i < 3)%nat -> distance2 (elem zero2 pts i) c <= B) ->
  distance2 (elem zero2 pts 0) c <= distance_points_of pts c <= B.
Proof.
  intros HB Hall.
  pose proof (Hall 0%nat ltac:(lia)) as H0.
  pose proof (Hall 1%nat ltac:(lia)) as H1.
  pose proof (Hall 2%nat ltac:(lia)) as H2.
  pose proof (distance2_nonneg (elem zero2 pts 0) c) as Hpos.
  unfold distance_points_of, for_loop. cbn [seq fold_left].
  repeat match goal with
         | |- context [greaterThan ?x ?y] =>
             lazymatch y with
             | context [greaterThan] => fail
             | _ =>
                 let E := fresh "E" in
                 destruct (greaterThan x y) eqn:E;
                 [apply greaterThan_true in E | apply greaterThan_false in E]
             end
         end; lra.
Qed.

Lemma sliver_distance_points :
  1 <= distance_points_of [q0; q1; q2] centre <= 1600.
Proof.
  pose proof sliver_height_bounds as (Hh1 & Hh2 & Hh0).
  assert (Hsmall : forall i, (i < 3)%nat ->
            distance2 (elem zero2 [q0; q1; q2] i) centre <= 1600).
  { intros i Hi. unfold distance2, length2, sub2. cbn [x2 y2].
    rewrite <- (sqrt_square 1600) by lra. apply sqrt_le_1_alt.
    assert (i = 0 \/ i = 1 \/ i = 2)%nat as [-> | [-> | ->]] by lia;
      cbn [elem nth x2 y2]; nra. }
  pose proof (distance_points_bounds [q0; q1; q2] centre 1600
                ltac:(lra) Hsmall) as [Hlow Hhigh].
  split; [|exact Hhigh].
  eapply Rle_trans; [|exact Hlow].
  unfold distance2, length2, sub2. cbn [elem nth x2 y2].
  rewrite <- sqrt_1 at 1. apply sqrt_le_1_alt. nra.
Qed.

(** The sliver passes every gate; its scale is [-20000]. *)
Lemma sliver_is_emitted :
  exists gl v,
    main sliver_uniforms sliver = Emitted gl v
    /\ edge_distance sliver_uniforms sliver 2 = - inradius
    /\ vPhiCenterScale v = - 20000.
Proof.
  pose proof sliver_distance_points as [Hdp1 Hdp2].
  assert (Hlast : edge_distance sliver_uniforms sliver 2 = - inradius).
  { unfold edge_distance, edge_of.
    rewrite sliver_projected, sliver_incenter. apply sliver_last_distance. }
  unfold main. cbv zeta.
  assert (E1 : lessThan (aTriangleMinWeight sliver) 0.01 = false)
    by (apply lessThan_false; cbn; lra).
  rewrite E1, sliver_backface.
  assert (E2 : lessThan (Rabs (-1)) 0.001 = false).
  { apply lessThan_false. rewrite Rabs_left; lra. }
  rewrite E2, !sliver_clip.
  assert (E3 : lessThanEqual (w4 (vec4_of (aTriangleV0 sliver) 1)) 0 = false)
    by (apply lessThanEqual_false; cbn; lra).
  rewrite E3. cbn [andb].
  rewrite sliver_projected, sliver_perimeter, sliver_incenter.
  assert (E4 : lessThan (2 * long_side + 2) 1 = false)
    by (apply lessThan_false; lra).
  rewrite E4.
  assert (E5 : greaterThan (distance_points_of [q0; q1; q2] centre) 1600
               = false) by (apply greaterThan_false; exact Hdp2).
  assert (E6 : lessThan (distance_points_of [q0; q1; q2] centre) 1 = false)
    by (apply lessThan_false; exact Hdp1).
  rewrite E5, E6. cbn [orb].
  eexists. eexists. split; [reflexivity|]. split; [exact Hlast|].
  cbn [vPhiCenterScale]. rewrite edge_loop_unrolled. cbn [lastDist].
  rewrite sliver_last_distance. unfold safeDist_of.
  assert (E7 : greaterThanEqual (- inradius) 0 = false)
    by (apply greaterThanEqual_false; lra).
  rewrite E7. field.
Qed.

(** *** The flattened triangle *)

Local Abbreviation f0 := (Vec2 (- 0.5) 0.5).
Local Abbreviation f1 := (Vec2 1.5 0.5).
Local Abbreviation f2 := (Vec2 0.5 0.5).

Lemma flat_clip v :
  clip flat_uniforms v = Vec4 (x3 v) 0 (z3 v) 1.
Proof.
  destruct v as [x y z]. glsl_eval.
  assert (HV : forall a b c d a' b' c' d' : R,
            a = a' -> b = b' -> c = c' -> d = d' ->
            Vec4 a b c d = Vec4 a' b' c' d') by (intros; subst; reflexivity).
  apply HV; ring.
Qed.

Lemma flat_projected : projected_of flat_uniforms flat = [f0; f1; f2].
Proof.
  unfold projected_of. rewrite !flat_clip. glsl_eval.
  repeat (apply (f_equal2 cons); [apply (f_equal2 Vec2)|]);
    try reflexivity; lra.
Qed.

Lemma flat_side_a : distance2 f1 f2 = 1.
Proof.
  unfold distance2, length2, sub2. cbn [x2 y2]. apply sqrt_of_square; lra.
Qed.

Lemma flat_side_b : distance2 f2 f0 = 1.
Proof.
  unfold distance2, length2, sub2. cbn [x2 y2]. apply sqrt_of_square; lra.
Qed.

Lemma flat_side_c : distance2 f0 f1 = 2.
Proof.
  unfold distance2, length2, sub2. cbn [x2 y2]. apply sqrt_of_square; lra.
Qed.

Lemma flat_perimeter : perimeter_of [f0; f1; f2] = 4.
Proof.
  unfold perimeter_of. cbn [elem nth].
  rewrite flat_side_a, flat_side_b, flat_side_c. lra.
Qed.

Lemma flat_incenter : incenter_of [f0; f1; f2] = f2.
Proof.
  unfold incenter_of. cbn [elem nth].
  rewrite flat_side_a, flat_side_b, flat_side_c.
  unfold div2, add2, scale2. cbn [x2 y2]. apply (f_equal2 Vec2); lra.
Qed.

Lemma flat_backface : backface_cos flat_uniforms flat = -1.
Proof.
  unfold backface_cos. cbv zeta.
  assert (Hn : mat3_vec (mat3_of (modelViewMatrix flat_uniforms))
                 (cross (sub3 (aTriangleV1 flat) (aTriangleV0 flat))
                        (sub3 (aTriangleV2 flat) (aTriangleV0 flat)))
               = Vec3 0 0 6).
  { glsl_eval. apply Vec3_eq; lra. }
  rewrite Hn.
  assert (Hlen : length3 (Vec3 0 0 6) = 6).
  { unfold length3. cbn [x3 y3 z3]. apply sqrt_of_square; lra. }
  rewrite Hlen.
  assert (Hgt : greaterThan 6 1e-4 = true) by (apply greaterThan_true; lra).
  rewrite Hgt.
  assert (Hnorm : normalize3 (Vec3 0 0 6) = Vec3 0 0 1).
  { unfold normalize3. rewrite Hlen. unfold div3. cbn [x3 y3 z3].
    apply Vec3_eq; lra. }
  rewrite Hnorm.
  assert (Hc : neg3 (xyz (mat4_vec (modelViewMatrix flat_uniforms)
                 (vec4_of
                    (div3 (add3 (add3 (aTriangleV0 flat) (aTriangleV1 flat))
                                (aTriangleV2 flat)) 3) 1)))
               = Vec3 0 0 1).
  { glsl_eval. apply Vec3_eq; lra. }
  rewrite Hc.
  assert (Hview : normalize3 (Vec3 0 0 1) = Vec3 0 0 1).
  { unfold normalize3, length3, div3. cbn [x3 y3 z3].
    rewrite (sqrt_of_square _ 1) by lra. apply Vec3_eq; lra. }
  rewrite Hview.
  assert (Hdot : dot3 (Vec3 0 0 1) (Vec3 0 0 1) = 1)
    by (unfold dot3; cbn [x3 y3 z3]; lra).
  rewrite Hdot.
  assert (Hflip : greaterThan 1 0 = true) by (apply greaterThan_true; lra).
  rewrite Hflip. reflexivity.
Qed.

Lemma flat_distance_points :
  1 <= distance_points_of [f0; f1; f2] f2 <= 1600.
Proof.
  assert (Hsmall : forall i, (i < 3)%nat ->
            distance2 (elem zero2 [f0; f1; f2] i) f2 <= 1600).
  { intros i Hi. unfold distance2, length2, sub2. cbn [x2 y2].
    rewrite <- (sqrt_square 1600) by lra. apply sqrt_le_1_alt.
    assert (i = 0 \/ i = 1 \/ i = 2)%nat as [-> | [-> | ->]] by lia;
      cbn [elem nth x2 y2]; nra. }
  pose proof (distance_points_bounds [f0; f1; f2] f2 1600
                ltac:(lra) Hsmall) as [Hlow Hhigh].
  split; [|exact Hhigh].
  eapply Rle_trans; [|exact Hlow].
  cbn [elem nth]. unfold distance2, length2, sub2. cbn [x2 y2].
  rewrite (sqrt_of_square _ 1) by lra. lra.
Qed.

(** The incenter lies on the three edges of the flattened triangle. *)
Lemma flat_edge_distance k :
  (k < 3)%nat -> snd (oriented_edge [f0; f1; f2] f2 k) = 0.
Proof.
  intros Hk.
  assert (Hzero : greaterThan 0 0 = false)
    by (apply greaterThan_false; lra).
  assert (k = 0 \/ k = 1 \/ k = 2)%nat as [-> | [-> | ->]] by lia;
    unfold oriented_edge; cbv zeta;
    [ change ((0 + 1) mod 3)%nat with 1%nat
    | change ((1 + 1) mod 3)%nat with 2%nat
    | change ((2 + 1) mod 3)%nat with 0%nat ];
    cbn [elem nth sub2 x2 y2];
    destruct (greaterThan (length2 _) 1e-4); cbn [div2 x2 y2];
    match goal with
    | |- snd (if greaterThan ?d 0 then _ else _) = _ =>
        assert (Hd : d = 0) by (unfold Rdiv; lra)
    end;
    rewrite Hd, Hzero; reflexivity.
Qed.

(** The flattened triangle passes every gate; its distances are zero and
    its scale is that of the guard, [-10000]. *)
Lemma flat_is_emitted :
  exists gl v,
    main flat_uniforms flat = Emitted gl v
    /\ (forall k, (k < 3)%nat -> edge_distance flat_uniforms flat k = 0)
    /\ vPhiCenterScale v = - 10000.
Proof.
  pose proof flat_distance_points as [Hdp1 Hdp2].
  assert (Hdist : forall k, (k < 3)%nat ->
            edge_distance flat_uniforms flat k = 0).
  { intros k Hk. unfold edge_distance, edge_of.
    rewrite flat_projected, flat_incenter. apply flat_edge_distance, Hk. }
  unfold main. cbv zeta.
  assert (E1 : lessThan (aTriangleMinWeight flat) 0.01 = false)
    by (apply lessThan_false; cbn; lra).
  rewrite E1, flat_backface.
  assert (E2 : lessThan (Rabs (-1)) 0.001 = false).
  { apply lessThan_false. rewrite Rabs_left; lra. }
  rewrite E2, !flat_clip.
  assert (E3 : lessThanEqual 1 0 = false)
    by (apply lessThanEqual_false; lra).
  cbn [w4]. rewrite E3. cbn [andb].
  rewrite flat_projected, flat_perimeter, flat_incenter.
  assert (E4 : lessThan 4 1 = false) by (apply lessThan_false; lra).
  rewrite E4.
  assert (E5 : greaterThan (distance_points_of [f0; f1; f2] f2) 1600
               = false) by (apply greaterThan_false; exact Hdp2).
  assert (E6 : lessThan (distance_points_of [f0; f1; f2] f2) 1 = false)
    by (apply lessThan_false; exact Hdp1).
  rewrite E5, E6. cbn [orb].
  eexists. eexists. split; [reflexivity|]. split; [exact Hdist|].
  cbn [vPhiCenterScale]. rewrite edge_loop_unrolled. cbn [lastDist].
  rewrite flat_edge_distance by lia. unfold safeDist_of.
  assert (E7 : greaterThanEqual 0 0 = true)
    by (apply greaterThanEqual_true; lra).
  rewrite E7. lra.
Qed.

End SurvivingTriangles.

Section VertexWitnesses.
Import GLSL TypedArray VertexStage ShaderSpec.
Local Open Scope R_scope.

(** C5, as the specification has it, fails on the sliver: the corner
    survives, its last edge distance [-1/20000] lies strictly between
    [-1e-4] and 0, and the scale is [-20000], not the
    [1 / min(d_last, -1e-4) = -10000] of the specification. *)
Lemma phi_scale_is_not_clamped :
  exists gl v,
    main sliver_uniforms sliver = Emitted gl v
    /\ - 1e-4 < edge_distance sliver_uniforms sliver 2 < 0
    /\ vPhiCenterScale v = - 20000
    /\ 1 / Rmin (edge_distance sliver_uniforms sliver 2) (- 1e-4) = - 10000
    /\ vPhiCenterScale v
       <> 1 / Rmin (edge_distance sliver_uniforms sliver 2) (- 1e-4).
Proof.
  destruct sliver_is_emitted as (gl & v & Hmain & Hd & Hphi).
  exists gl, v. split; [exact Hmain|]. rewrite Hd, Hphi.
  assert (Hmin : Rmin (- (1 / 20000)) (- 1e-4) = - 1e-4)
    by (apply Rmin_right; lra).
  rewrite Hmin.
  assert (Hclamped : 1 / - 1e-4 = - 10000) by lra.
  rewrite Hclamped. repeat split; lra.
Qed.

Lemma phi_scale_guards_zero_only_witness :
  edge_distance sliver_uniforms sliver 2 <= 0
  /\ exists gl v,
       main flat_uniforms flat = Emitted gl v
       /\ edge_distance flat_uniforms flat 2 = 0
       /\ vPhiCenterScale v = 1 / - 1e-4.
Proof.
  split.
  - destruct sliver_is_emitted as (gl & v & Hmain & _).
    exact (proj1 (phi_scale_guards_zero_only sliver_uniforms sliver gl v
                    Hmain)).
  - destruct flat_is_emitted as (gl & v & Hmain & Hd & _).
    exists gl, v. split; [exact Hmain|].
    split; [apply Hd; lia|].
    apply (phi_scale_guards_zero_only flat_uniforms flat gl v Hmain).
    apply Hd; lia.
Defined.


End VertexWitnesses.

(* ================================================================== *)
(** * Part VI: further properties of the code *)
(* ================================================================== *)

(** ** Loops that write one block of an array per iteration *)

Section BlockLoops.
Import TypedArray.

Lemma insert_lookup_fmap {A} (l : list A) i p v :
  <[i := v]> l !! p = if decide (p = i) then (fun _ => v) <$> l !! p
                      else l !! p.
Proof.
  destruct (decide (p = i)) as [-> | Hne].
  - destruct (l !! i) eqn:E.
    + apply lookup_lt_Some in E as Hlt.
      rewrite list_lookup_insert_eq by exact Hlt. reflexivity.
    + apply lookup_ge_None in E as Hge. cbn.
      apply lookup_ge_None. rewrite length_insert. exact Hge.
  - apply list_lookup_insert_ne. congruence.
Qed.

(** Iteration [i] rewrites the slots [i*w .. i*w + w - 1] and no other
    slot; [upd i r] is what it does to slot [i*w + r]. *)
Lemma block_loop_lookup {A} (w : nat) (upd : nat -> nat -> A -> A)
    (body : nat -> list A -> list A) n (a0 : list A) :
  (forall i a r, r < w ->
     body i a !! (i * w + r)%nat = upd i r <$> a !! (i * w + r)%nat) ->
  (forall i a q, ~ (i * w <= q < i * w + w) -> body i a !! q = a !! q) ->
  (forall k r, k < n -> r < w ->
     for_loop n body a0 !! (k * w + r)%nat
     = upd k r <$> a0 !! (k * w + r)%nat)
  /\ (forall q, n * w <= q -> for_loop n body a0 !! q = a0 !! q).
Proof.
  intros Hin Hout. induction n as [|n [IHin IHout]].
  - split; [intros; lia | reflexivity].
  - split.
    + intros k r Hk Hr. rewrite for_loop_S.
      destruct (decide (k = n)) as [-> | Hne].
      * rewrite Hin by exact Hr. rewrite IHout by lia. reflexivity.
      * rewrite Hout by nia. apply IHin; lia.
    + intros q Hq. rewrite for_loop_S.
      rewrite Hout by nia. apply IHout. nia.
Qed.

Lemma block_loop_length {A} (body : nat -> list A -> list A) n
    (a0 : list A) :
  (forall i a, length (body i a) = length a) ->
  length (for_loop n body a0) = length a0.
Proof.
  intros H. apply (for_loop_ind (fun _ a => length a = length a0));
    [reflexivity|].
  intros i st _ Hst. rewrite H. exact Hst.
Qed.

End BlockLoops.

(** ** The unrolled buffers of the geometry builder *)

Section Unrolling.
Import JS TypedArray Geometry.
Variables (vertices : list Q) (triangle_indices : list Z) (opacities : list Q).

Local Abbreviation unrolled :=
  (unrollTriangles vertices triangle_indices opacities).
Local Abbreviation vIdx := (fun i j => triangle_indices !! (i * 3 + j)%nat).
Local Abbreviation triple_body := (fun (f : nat -> nat -> number) i a =>
  <[(i * 3 + 2)%nat := f i 2%nat]>
    (<[(i * 3 + 1)%nat := f i 1%nat]> (<[(i * 3)%nat := f i 0%nat]> a))).

(** A buffer with one number per corner record, all written by the body
    of the inner loop. *)
Lemma scalar_buffer_lookup (proj : buffers -> list number)
    (f : nat -> nat -> number) i j :
  (forall i b,
     proj (triangle_step vertices triangle_indices opacities i b)
     = triple_body f i (proj b)) ->
  length (proj (fresh_buffers (third_of_length triangle_indices)
                  (third_of_length triangle_indices * 3)))
  = length triangle_indices ->
  j < 3 -> i * 3 + j < length triangle_indices ->
  proj unrolled !! (i * 3 + j)%nat = Some (f i j)
  /\ length (proj unrolled) = length triangle_indices.
Proof.
  intros Hstep Hlen Hj Hlt. unfold unrollTriangles.
  rewrite (for_loop_proj proj _ _ (triple_body f) _ Hstep). split.
  - apply (triple_loop_lookup_in f).
    + apply (trip_count_covers triangle_indices i j Hlt).
    + exact Hj.
    + rewrite Hlen. exact Hlt.
  - rewrite (triple_loop_length f). exact Hlen.
Qed.

Lemma scalar_length :
  length (replicate (alloc_length (third_of_length triangle_indices * 3))
            (Fin 0))
  = length triangle_indices.
Proof. rewrite length_replicate. apply alloc_length_whole. Qed.

Ltac scalar_step :=
  intros; unfold triangle_step, for_loop; cbn [seq fold_left];
  cbn [corner_step store_center unrolledOpacities vertexIndices
       triangleVertexIndices0 triangleVertexIndices1 triangleVertexIndices2
       triangleOpacities0 triangleOpacities1 triangleOpacities2
       triangleMinWeights];
  rewrite ?Nat.add_0_r; reflexivity.

Lemma unrolledOpacities_lookup i j :
  j < 3 -> i * 3 + j < length triangle_indices ->
  unrolledOpacities unrolled !! (i * 3 + j)%nat
  = Some (f32_at opacities (vIdx i j))
  /\ length (unrolledOpacities unrolled) = length triangle_indices.
Proof.
  apply (scalar_buffer_lookup unrolledOpacities
           (fun i j => f32_at opacities (vIdx i j))).
  - scalar_step.
  - apply scalar_length.
Qed.

Lemma vertexIndices_lookup i j :
  j < 3 -> i * 3 + j < length triangle_indices ->
  vertexIndices unrolled !! (i * 3 + j)%nat = Some (as_number (vIdx i j))
  /\ length (vertexIndices unrolled) = length triangle_indices.
Proof.
  apply (scalar_buffer_lookup vertexIndices
           (fun i j => as_number (vIdx i j))).
  - scalar_step.
  - apply scalar_length.
Qed.

(** The buffers that repeat the data of corner [k] of the triangle on its
    three records. *)
Lemma triangleVertexIndices_lookup i j :
  j < 3 -> i * 3 + j < length triangle_indices ->
  triangleVertexIndices0 unrolled !! (i * 3 + j)%nat
  = Some (as_number (vIdx i 0%nat))
  /\ triangleVertexIndices1 unrolled !! (i * 3 + j)%nat
     = Some (as_number (vIdx i 1%nat))
  /\ triangleVertexIndices2 unrolled !! (i * 3 + j)%nat
     = Some (as_number (vIdx i 2%nat)).
Proof.
  intros Hj Hlt. split; [|split].
  - apply (scalar_buffer_lookup triangleVertexIndices0
             (fun i _ => as_number (vIdx i 0%nat))); try assumption.
    + scalar_step.
    + apply scalar_length.
  - apply (scalar_buffer_lookup triangleVertexIndices1
             (fun i _ => as_number (vIdx i 1%nat))); try assumption.
    + scalar_step.
    + apply scalar_length.
  - apply (scalar_buffer_lookup triangleVertexIndices2
             (fun i _ => as_number (vIdx i 2%nat))); try assumption.
    + scalar_step.
    + apply scalar_length.
Qed.

Lemma triangleOpacities_lookup i j :
  j < 3 -> i * 3 + j < length triangle_indices ->
  triangleOpacities0 unrolled !! (i * 3 + j)%nat
  = Some (f32_at opacities (vIdx i 0%nat))
  /\ triangleOpacities1 unrolled !! (i * 3 + j)%nat
     = Some (f32_at opacities (vIdx i 1%nat))
  /\ triangleOpacities2 unrolled !! (i * 3 + j)%nat
     = Some (f32_at opacities (vIdx i 2%nat)).
Proof.
  intros Hj Hlt. split; [|split].
  - apply (scalar_buffer_lookup triangleOpacities0
             (fun i _ => f32_at opacities (vIdx i 0%nat))); try assumption.
    + scalar_step.
    + apply scalar_length.
  - apply (scalar_buffer_lookup triangleOpacities1
             (fun i _ => f32_at opacities (vIdx i 1%nat))); try assumption.
    + scalar_step.
    + apply scalar_length.
  - apply (scalar_buffer_lookup triangleOpacities2
             (fun i _ => f32_at opacities (vIdx i 2%nat))); try assumption.
    + scalar_step.
    + apply scalar_length.
Qed.

Lemma triangleCenters_lookup i c :
  c < 3 -> i * 3 + c < length triangle_indices ->
  triangleCenters unrolled !! (i * 3 + c)%nat
  = Some (center_coord vertices (vIdx i 0%nat) (vIdx i 1%nat)
            (vIdx i 2%nat) (Z.of_nat c))
  /\ length (triangleCenters unrolled) = length triangle_indices.
Proof.
  apply (scalar_buffer_lookup triangleCenters
           (fun i c => center_coord vertices (vIdx i 0%nat) (vIdx i 1%nat)
                         (vIdx i 2%nat) (Z.of_nat c))).
  - intros; unfold triangle_step, for_loop; cbn [seq fold_left].
    cbn [corner_step store_center triangleCenters].
    rewrite ?Nat.add_0_r. reflexivity.
  - apply scalar_length.
Qed.

(** *** Buffers with three numbers per corner record *)

Local Abbreviation vector_body := (fun (who : nat -> nat -> option Z) i a =>
  store_vertex vertices (who i 2%nat) (i * 3 + 2)
    (store_vertex vertices (who i 1%nat) (i * 3 + 1)
       (store_vertex vertices (who i 0%nat) (i * 3 + 0) a))).

Ltac through_inserts :=
  repeat (rewrite insert_lookup_fmap;
          destruct (decide _) as [? | ?]; try lia).

Lemma vector_length :
  length (replicate
            (alloc_length (third_of_length triangle_indices * 3 * 3))
            (Fin 0))
  = (length triangle_indices * 3)%nat.
Proof. rewrite length_replicate. apply alloc_length_whole_3. Qed.

Lemma vector_buffer_lookup (proj : buffers -> list number)
    (who : nat -> nat -> option Z) i j c :
  (forall i b,
     proj (triangle_step vertices triangle_indices opacities i b)
     = vector_body who i (proj b)) ->
  length (proj (fresh_buffers (third_of_length triangle_indices)
                  (third_of_length triangle_indices * 3)))
  = (length triangle_indices * 3)%nat ->
  j < 3 -> c < 3 -> i * 3 + j < length triangle_indices ->
  proj unrolled !! ((i * 3 + j) * 3 + c)%nat
  = Some (f32_at vertices (scaled (who i j) 3 (Z.of_nat c)))
  /\ length (proj unrolled) = (length triangle_indices * 3)%nat.
Proof.
  intros Hstep Hlen Hj Hc Hlt. unfold unrollTriangles.
  rewrite (for_loop_proj proj _ _ (vector_body who) _ Hstep).
  set (a0 := proj _) in *.
  split.
  - destruct (block_loop_lookup 9
                (fun i r _ => f32_at vertices
                                (scaled (who i (r / 3)%nat) 3
                                   (Z.of_nat (r mod 3))))
                (vector_body who)
                (trip_count (third_of_length triangle_indices)) a0)
      as [Hin _].
    + intros k a r Hr. unfold store_vertex.
      do 9 (destruct r as [|r]; [through_inserts; reflexivity|]). lia.
    + intros k a q Hq. unfold store_vertex.
      rewrite !list_lookup_insert_ne by lia. reflexivity.
    + replace ((i * 3 + j) * 3 + c)%nat with (i * 9 + (j * 3 + c))%nat
        by lia.
      rewrite Hin;
        [|apply (trip_count_covers triangle_indices i j Hlt) | lia].
      assert (Hsome : exists x, a0 !! (i * 9 + (j * 3 + c))%nat = Some x).
      { apply lookup_lt_is_Some. rewrite Hlen. lia. }
      destruct Hsome as [x ->]. cbn [fmap option_fmap option_map].
      assert (j = 0 \/ j = 1 \/ j = 2)%nat as [-> | [-> | ->]] by lia;
        assert (c = 0 \/ c = 1 \/ c = 2)%nat as [-> | [-> | ->]] by lia;
        reflexivity.
  - rewrite (block_loop_length (vector_body who)); [exact Hlen|].
    intros k a. unfold store_vertex. rewrite !length_insert. reflexivity.
Qed.

Ltac vector_step :=
  intros; unfold triangle_step, for_loop; cbn [seq fold_left];
  cbn [corner_step store_center unrolledVertices triangleVertices0
       triangleVertices1 triangleVertices2];
  reflexivity.

Lemma unrolledVertices_lookup i j c :
  j < 3 -> c < 3 -> i * 3 + j < length triangle_indices ->
  unrolledVertices unrolled !! ((i * 3 + j) * 3 + c)%nat
  = Some (f32_at vertices (scaled (vIdx i j) 3 (Z.of_nat c)))
  /\ length (unrolledVertices unrolled) = (length triangle_indices * 3)%nat.
Proof.
  apply (vector_buffer_lookup unrolledVertices vIdx).
  - vector_step.
  - apply vector_length.
Qed.

Lemma triangleVertices_lookup i j c :
  j < 3 -> c < 3 -> i * 3 + j < length triangle_indices ->
  triangleVertices0 unrolled !! ((i * 3 + j) * 3 + c)%nat
  = Some (f32_at vertices (scaled (vIdx i 0%nat) 3 (Z.of_nat c)))
  /\ triangleVertices1 unrolled !! ((i * 3 + j) * 3 + c)%nat
     = Some (f32_at vertices (scaled (vIdx i 1%nat) 3 (Z.of_nat c)))
  /\ triangleVertices2 unrolled !! ((i * 3 + j) * 3 + c)%nat
     = Some (f32_at vertices (scaled (vIdx i 2%nat) 3 (Z.of_nat c))).
Proof.
  intros Hj Hc Hlt. split; [|split].
  - apply (vector_buffer_lookup triangleVertices0
             (fun i _ => vIdx i 0%nat)); try assumption.
    + vector_step.
    + apply vector_length.
  - apply (vector_buffer_lookup triangleVertices1
             (fun i _ => vIdx i 1%nat)); try assumption.
    + vector_step.
    + apply vector_length.
  - apply (vector_buffer_lookup triangleVertices2
             (fun i _ => vIdx i 2%nat)); try assumption.
    + vector_step.
    + apply vector_length.
Qed.

(** The barycentric buffer: one write per corner, into zeros. *)
Lemma unrolledBarycentrics_lookup i j c :
  j < 3 -> c < 3 -> i * 3 + j < length triangle_indices ->
  unrolledBarycentrics unrolled !! ((i * 3 + j) * 3 + c)%nat
  = Some (if decide (c = j) then Fin 1 else Fin 0)
  /\ length (unrolledBarycentrics unrolled)
     = (length triangle_indices * 3)%nat.
Proof.
  intros Hj Hc Hlt. unfold unrollTriangles.
  pose (body := fun (i : nat) (a : list number) =>
    <[((i * 3 + 2) * 3 + 2)%nat := Fin 1]>
      (<[((i * 3 + 1) * 3 + 1)%nat := Fin 1]>
         (<[((i * 3 + 0) * 3 + 0)%nat := Fin 1]> a))).
  rewrite (for_loop_proj unrolledBarycentrics _ _ body).
  2:{ intros. unfold triangle_step, for_loop. cbn [seq fold_left].
      cbn [corner_step store_center unrolledBarycentrics]. reflexivity. }
  cbn [fresh_buffers unrolledBarycentrics].
  set (a0 := replicate _ _).
  assert (Hlen : length a0 = (length triangle_indices * 3)%nat)
    by apply vector_length.
  split.
  - destruct (block_loop_lookup 9
                (fun _ r old =>
                   if decide (r = 0 \/ r = 4 \/ r = 8)%nat then Fin 1
                   else old)
                body (trip_count (third_of_length triangle_indices)) a0)
      as [Hin _].
    + intros k a r Hr. unfold body.
      do 9 (destruct r as [|r];
            [through_inserts;
             destruct (a !! _); reflexivity|]).
      lia.
    + intros k a q Hq. unfold body.
      rewrite !list_lookup_insert_ne by lia. reflexivity.
    + replace ((i * 3 + j) * 3 + c)%nat with (i * 9 + (j * 3 + c))%nat
        by lia.
      rewrite Hin;
        [|apply (trip_count_covers triangle_indices i j Hlt) | lia].
      assert (Hzero : a0 !! (i * 9 + (j * 3 + c))%nat = Some (Fin 0)).
      { apply lookup_replicate_2. unfold a0 in Hlen.
        rewrite length_replicate in Hlen. rewrite Hlen. lia. }
      rewrite Hzero.
      cbn [fmap option_fmap option_map].
      assert (j = 0 \/ j = 1 \/ j = 2)%nat as [-> | [-> | ->]] by lia;
        assert (c = 0 \/ c = 1 \/ c = 2)%nat as [-> | [-> | ->]] by lia;
        reflexivity.
  - rewrite (block_loop_length body); [exact Hlen|].
    intros k a. unfold body. rewrite !length_insert. reflexivity.
Qed.

End Unrolling.

(** ** The geometry that the builder returns *)

Section BuilderResult.
Import JS TypedArray Geometry.

(** The attributes of the returned geometry are the unrolled buffers. *)
Lemma builder_returns vertices triangle_indices opacities vertex_weights
    colors features_dc features_rest sh_degree :
  let b := unrollTriangles vertices triangle_indices opacities in
  exists texture,
    createTriangleSplatsGeometry vertices triangle_indices opacities
      vertex_weights colors features_dc features_rest sh_degree
    = Some {| position := unrolledVertices b;
              aBarycentric := unrolledBarycentrics b;
              aOpacity := unrolledOpacities b;
              aVertexIndex := vertexIndices b;
              aTriangleVertexIdx0 := triangleVertexIndices0 b;
              aTriangleVertexIdx1 := triangleVertexIndices1 b;
              aTriangleVertexIdx2 := triangleVertexIndices2 b;
              aTriangleV0 := triangleVertices0 b;
              aTriangleV1 := triangleVertices1 b;
              aTriangleV2 := triangleVertices2 b;
              aTriangleOpacity0 := triangleOpacities0 b;
              aTriangleOpacity1 := triangleOpacities1 b;
              aTriangleOpacity2 := triangleOpacities2 b;
              aTriangleMinWeight := triangleMinWeights b;
              geom_triangleCenters := triangleCenters b;
              shDataTexture := texture;
              aColor := unrollColors triangle_indices <$> colors;
              index := identityIndex (third_of_length triangle_indices * 3)
           |}
    /\ match features_dc with
       | Some dc =>
           exists shData t,
             packSH vertices (Some dc) features_rest sh_degree = Some shData
             /\ makeSHTexture vertices shData = Some t
             /\ texture = Some t
       | None => texture = None
       end.
Proof.
  cbv zeta. unfold createTriangleSplatsGeometry.
  destruct features_dc as [dc|].
  - destruct (packSH vertices (Some dc) features_rest sh_degree)
      as [shData|] eqn:Hpack; [|discriminate].
    destruct (makeSHTexture_total _ _ _ _ _ Hpack) as [t Ht].
    rewrite Ht. cbn. exists (Some t). split; [reflexivity|].
    exists shData, t. repeat split; assumption.
  - cbn. exists None. split; reflexivity.
Qed.

End BuilderResult.

(** ** Integers that their binary32 store keeps *)

Section Rounding.
Import JS.

Lemma Qred_inject_Z z : Qred (inject_Z z) = inject_Z z.
Proof.
  unfold Qred, inject_Z.
  pose proof (Z.ggcd_gcd z 1) as Hg.
  pose proof (Z.ggcd_correct_divisors z 1) as Hd.
  destruct (Z.ggcd z 1) as [g [aa bb]]. cbn [fst snd] in *.
  rewrite Z.gcd_1_r in Hg. subst g. destruct Hd as [Ha Hb].
  rewrite Z.mul_1_l in Ha, Hb. subst aa bb. reflexivity.
Qed.

Lemma round_half_even_integer x m :
  (x == inject_Z m)%Q -> round_half_even x = m.
Proof.
  intros Hx. unfold round_half_even.
  rewrite (Qfloor_comp _ _ Hx), Qfloor_Z.
  assert (Hr : Qlt_bool (x - inject_Z m) (1 # 2) = true).
  { unfold Qlt_bool. apply negb_true_iff.
    destruct (Qle_bool (1 # 2) (x - inject_Z m)) eqn:E; [|reflexivity].
    apply Qle_bool_iff in E. rewrite Hx in E. exfalso.
    assert (Hz : (inject_Z m - inject_Z m == 0)%Q) by ring.
    rewrite Hz in E. apply E. reflexivity. }
  rewrite Hr. reflexivity.
Qed.

Lemma pow2_nonpos e :
  (e <= 0)%Z -> (pow2 e * inject_Z (2 ^ (- e)) == 1)%Q.
Proof.
  intros He. unfold pow2. destruct (0 <=? e)%Z eqn:E.
  - apply Z.leb_le in E. assert (e = 0)%Z by lia. subst e. reflexivity.
  - assert (Hp : (0 < 2 ^ (- e))%Z) by (apply Z.pow_pos_nonneg; lia).
    unfold Qeq, Qmult, inject_Z. cbn [Qnum Qden].
    rewrite Pos.mul_1_r, Z2Pos.id by exact Hp. lia.
Qed.

Lemma pow2_pos e : (0 < pow2 e)%Q.
Proof.
  unfold pow2. destruct (0 <=? e)%Z eqn:E.
  - apply Z.leb_le in E. change 0%Q with (inject_Z 0).
    rewrite <- Zlt_Qlt. apply Z.pow_pos_nonneg; lia.
  - reflexivity.
Qed.

Lemma fround_small_integer z :
  (0 <= z <= 2 ^ 24)%Z -> fround (Fin (inject_Z z)) = Fin (inject_Z z).
Proof.
  intros [H0 H1].
  destruct (Z.eq_dec z 0%Z) as [-> | Hz]; [reflexivity|].
  destruct (Z.eq_dec z (2 ^ 24)%Z) as [-> | Hz']; [vm_compute; reflexivity|].
  assert (Hpos : (0 < z)%Z) by lia.
  unfold fround.
  assert (E0 : Qeq_bool (inject_Z z) 0 = false).
  { destruct (Qeq_bool (inject_Z z) 0) eqn:E; [|reflexivity].
    apply Qeq_bool_iff in E. unfold Qeq in E. cbn in E. lia. }
  assert (E1 : Qlt_bool (inject_Z z) 0 = false).
  { unfold Qlt_bool, Qle_bool. cbn. apply negb_false_iff, Z.leb_le. lia. }
  assert (E2 : Qlt_bool 0 (inject_Z z) = true).
  { unfold Qlt_bool, Qle_bool. cbn. apply negb_true_iff, Z.leb_gt. lia. }
  rewrite E0, E1, E2. cbv zeta.
  assert (Hlog : (0 <= Z.log2 z <= 23)%Z).
  { split; [apply Z.log2_nonneg|].
    assert (Z.log2 z < 24)%Z; [|lia].
    apply Z.log2_lt_pow2; lia. }
  assert (Hexp : binary_exponent (inject_Z z) = Z.log2 z).
  { unfold binary_exponent.
    change (Qnum (inject_Z z)) with z.
    change (Z.log2 (QDen (inject_Z z))) with 0%Z. rewrite Z.sub_0_r.
    assert (Hle : Qle_bool (pow2 (Z.log2 z)) (inject_Z z) = true).
    { unfold pow2. destruct (0 <=? Z.log2 z)%Z eqn:E;
        [|apply Z.leb_gt in E; lia].
      unfold Qle_bool, inject_Z. cbn [Qnum Qden]. apply Z.leb_le.
      pose proof (Z.log2_spec z Hpos). lia. }
    rewrite Hle. reflexivity. }
  assert (Hnear : nearest_binary32 (inject_Z z) = inject_Z z).
  { unfold nearest_binary32. rewrite Hexp. cbv zeta.
    rewrite Z.max_l by lia.
    set (e := (Z.log2 z - 23)%Z).
    pose proof (pow2_nonpos e ltac:(lia)) as Hp.
    pose proof (pow2_pos e) as Hpp.
    assert (Hdiv : (inject_Z z / pow2 e == inject_Z (z * 2 ^ (- e)))%Q).
    { rewrite inject_Z_mult.
      assert (Hne : ~ (pow2 e == 0)%Q)
        by (intros H; rewrite H in Hpp; discriminate).
      transitivity
        (inject_Z z * (pow2 e * inject_Z (2 ^ (- e))) / pow2 e)%Q;
        [rewrite Hp; field; exact Hne | field; exact Hne]. }
    rewrite (round_half_even_integer _ _ Hdiv).
    etransitivity; [|apply Qred_inject_Z]. apply Qred_complete.
    rewrite inject_Z_mult, <- Qmult_assoc, (Qmult_comm _ (pow2 e)), Hp.
    apply Qmult_1_r. }
  rewrite Hnear.
  assert (E3 : Qle_bool (pow2 128) (inject_Z z) = false).
  { destruct (Qle_bool (pow2 128) (inject_Z z)) eqn:E; [|reflexivity].
    apply Qle_bool_iff in E. change (pow2 128) with (inject_Z (2 ^ 128)) in E.
    rewrite <- Zle_Qle in E. exfalso.
    assert (2 ^ 24 < 2 ^ 128)%Z by (apply Z.pow_lt_mono_r; lia). lia. }
  rewrite E3. reflexivity.
Qed.

End Rounding.

Section BuilderProperties.
Import JS TypedArray Geometry GeometrySpec.
Variables (vertices : list Q) (triangle_indices : list Z) (opacities : list Q).
Variables (vertex_weights : option (list Q)) (colors : option (list Z)).
Variables (features_dc features_rest : option (list Q)) (sh_degree : Z).

Local Abbreviation built :=
  (createTriangleSplatsGeometry vertices triangle_indices opacities
     vertex_weights colors features_dc features_rest sh_degree).

(** X1.  Every corner record [3i + j] of the returned geometry is a copy
    of the vertex [v] that [triangle_indices] names at that place: its
    three position components are [vertices[3v + c]], its opacity is
    [opacities[v]] and its vertex index is [v] rounded to binary32,
    which is [v] itself up to [2^24 = 16777216], whereas the index
    16777217 is stored as 16777216; a read outside an input array enters
    as [NaN].  The position buffer has three numbers, the other two one
    number per entry of [triangle_indices]. *)
Theorem corner_record_copies_vertex i j :
  j < 3 -> i * 3 + j < length triangle_indices ->
  let v := triangle_indices !! (i * 3 + j)%nat in
  exists g,
    createTriangleSplatsGeometry vertices triangle_indices opacities
      vertex_weights colors features_dc features_rest sh_degree = Some g
    /\ (forall c, c < 3 ->
          position g !! ((i * 3 + j) * 3 + c)%nat
          = Some (f32_at vertices (scaled v 3 (Z.of_nat c))))
    /\ aOpacity g !! (i * 3 + j)%nat = Some (f32_at opacities v)
    /\ aVertexIndex g !! (i * 3 + j)%nat = Some (as_number v)
    /\ (forall z, v = Some z -> (0 <= z <= 2 ^ 24)%Z ->
          aVertexIndex g !! (i * 3 + j)%nat = Some (Fin (inject_Z z)))
    /\ as_number (Some 16777217%Z) = Fin (inject_Z 16777216)
    /\ (forall z c x, v = Some z -> c < 3 ->
          get vertices (z * 3 + Z.of_nat c) = Some x ->
          position g !! ((i * 3 + j) * 3 + c)%nat = Some (Fin x))
    /\ length (position g) = (length triangle_indices * 3)%nat
    /\ length (aOpacity g) = length triangle_indices
    /\ length (aVertexIndex g) = length triangle_indices.
Proof.
  intros Hj Hlt. cbv zeta.
  destruct (builder_returns vertices triangle_indices opacities
              vertex_weights colors features_dc features_rest sh_degree)
    as (texture & Hg & _).
  eexists. split; [exact Hg|]. cbn [position aOpacity aVertexIndex].
  pose proof (fun c Hc => unrolledVertices_lookup vertices triangle_indices
                            opacities i j c Hj Hc Hlt) as Hpos.
  destruct (unrolledOpacities_lookup vertices triangle_indices opacities
              i j Hj Hlt) as [Hop Hoplen].
  destruct (vertexIndices_lookup vertices triangle_indices opacities
              i j Hj Hlt) as [Hvi Hvilen].
  split; [intros c Hc; apply (Hpos c Hc)|].
  split; [exact Hop|]. split; [exact Hvi|].
  split; [intros z Hv Hz; rewrite Hvi, Hv; cbn [as_number]; f_equal;
          apply fround_small_integer, Hz|].
  split; [vm_compute; reflexivity|]. split.
  - intros z c x Hv Hc Hx. rewrite (proj1 (Hpos c Hc)), Hv.
    cbn [scaled fmap option_fmap option_map f32_at]. rewrite Hx.
    reflexivity.
  - split; [apply (Hpos 0%nat); lia|]. split; assumption.
Qed.

(** X2.  The barycentric attribute of corner record [3i + j] is the
    [j]-th unit vector: component [c] is 1 when [c = j] and 0
    otherwise. *)
Theorem corner_barycentric_is_unit i j c :
  j < 3 -> c < 3 -> i * 3 + j < length triangle_indices ->
  exists g,
    createTriangleSplatsGeometry vertices triangle_indices opacities
      vertex_weights colors features_dc features_rest sh_degree = Some g
    /\ aBarycentric g !! ((i * 3 + j) * 3 + c)%nat
       = Some (if decide (c = j) then Fin 1 else Fin 0)
    /\ length (aBarycentric g) = (length triangle_indices * 3)%nat.
Proof.
  intros Hj Hc Hlt.
  destruct (builder_returns vertices triangle_indices opacities
              vertex_weights colors features_dc features_rest sh_degree)
    as (texture & Hg & _).
  eexists. split; [exact Hg|]. cbn [aBarycentric].
  apply unrolledBarycentrics_lookup; assumption.
Qed.

(** X3.  On each of the three corner records of a complete triangle [i],
    the attributes [aTriangleV0/1/2], [aTriangleOpacity0/1/2] and
    [aTriangleVertexIdx0/1/2] hold the position, the opacity and the
    vertex index that the corner records [3i], [3i + 1] and [3i + 2]
    carry themselves. *)
Theorem triangle_attributes_repeat_corners i j :
  j < 3 -> i * 3 + 2 < length triangle_indices ->
  exists g,
    createTriangleSplatsGeometry vertices triangle_indices opacities
      vertex_weights colors features_dc features_rest sh_degree = Some g
    /\ (forall c, c < 3 ->
          exists p0 p1 p2,
            position g !! ((i * 3 + 0) * 3 + c)%nat = Some p0
            /\ position g !! ((i * 3 + 1) * 3 + c)%nat = Some p1
            /\ position g !! ((i * 3 + 2) * 3 + c)%nat = Some p2
            /\ aTriangleV0 g !! ((i * 3 + j) * 3 + c)%nat = Some p0
            /\ aTriangleV1 g !! ((i * 3 + j) * 3 + c)%nat = Some p1
            /\ aTriangleV2 g !! ((i * 3 + j) * 3 + c)%nat = Some p2)
    /\ (exists o0 o1 o2,
          aOpacity g !! (i * 3 + 0)%nat = Some o0
          /\ aOpacity g !! (i * 3 + 1)%nat = Some o1
          /\ aOpacity g !! (i * 3 + 2)%nat = Some o2
          /\ aTriangleOpacity0 g !! (i * 3 + j)%nat = Some o0
          /\ aTriangleOpacity1 g !! (i * 3 + j)%nat = Some o1
          /\ aTriangleOpacity2 g !! (i * 3 + j)%nat = Some o2)
    /\ (exists x0 x1 x2,
          aVertexIndex g !! (i * 3 + 0)%nat = Some x0
          /\ aVertexIndex g !! (i * 3 + 1)%nat = Some x1
          /\ aVertexIndex g !! (i * 3 + 2)%nat = Some x2
          /\ aTriangleVertexIdx0 g !! (i * 3 + j)%nat = Some x0
          /\ aTriangleVertexIdx1 g !! (i * 3 + j)%nat = Some x1
          /\ aTriangleVertexIdx2 g !! (i * 3 + j)%nat = Some x2).
Proof.
  intros Hj Hlt.
  destruct (builder_returns vertices triangle_indices opacities
              vertex_weights colors features_dc features_rest sh_degree)
    as (texture & Hg & _).
  eexists. split; [exact Hg|].
  cbn [position aTriangleV0 aTriangleV1 aTriangleV2 aOpacity
       aTriangleOpacity0 aTriangleOpacity1 aTriangleOpacity2 aVertexIndex
       aTriangleVertexIdx0 aTriangleVertexIdx1 aTriangleVertexIdx2].
  assert (Hlt' : i * 3 + j < length triangle_indices) by lia.
  split; [|split].
  - intros c Hc. do 3 eexists.
    split; [apply unrolledVertices_lookup; lia|].
    split; [apply unrolledVertices_lookup; lia|].
    split; [apply unrolledVertices_lookup; lia|].
    apply triangleVertices_lookup; assumption.
  - do 3 eexists.
    split; [apply unrolledOpacities_lookup; lia|].
    split; [apply unrolledOpacities_lookup; lia|].
    split; [apply unrolledOpacities_lookup; lia|].
    apply triangleOpacities_lookup; assumption.
  - do 3 eexists.
    split; [apply vertexIndices_lookup; lia|].
    split; [apply vertexIndices_lookup; lia|].
    split; [apply vertexIndices_lookup; lia|].
    apply triangleVertexIndices_lookup; assumption.
Qed.

(** X4.  On every corner record the min-weight attribute is [Math.min]
    of the three opacities that the same record stores in
    [aTriangleOpacity0/1/2]. *)
Theorem min_weight_of_stored_opacities i j :
  j < 3 -> i * 3 + j < length triangle_indices ->
  exists g w0 w1 w2,
    createTriangleSplatsGeometry vertices triangle_indices opacities
      vertex_weights colors features_dc features_rest sh_degree = Some g
    /\ aTriangleOpacity0 g !! (i * 3 + j)%nat = Some w0
    /\ aTriangleOpacity1 g !! (i * 3 + j)%nat = Some w1
    /\ aTriangleOpacity2 g !! (i * 3 + j)%nat = Some w2
    /\ aTriangleMinWeight g !! (i * 3 + j)%nat = Some (min3 w0 w1 w2).
Proof.
  intros Hj Hlt.
  destruct (builder_returns vertices triangle_indices opacities
              vertex_weights colors features_dc features_rest sh_degree)
    as (texture & Hg & _).
  destruct (triangleOpacities_lookup vertices triangle_indices opacities
              i j Hj Hlt) as (H0 & H1 & H2).
  eexists. do 3 eexists. split; [exact Hg|].
  cbn [aTriangleOpacity0 aTriangleOpacity1 aTriangleOpacity2
       aTriangleMinWeight].
  split; [exact H0|]. split; [exact H1|]. split; [exact H2|].
  apply unrollTriangles_min_weights; assumption.
Qed.

(** X5.  The centre stored for a complete triangle [i] is the mean of
    the three corner positions of its records: component [c] is
    [(p0 + p1 + p2) / 3.0] for the components [c] of the positions of
    the records [3i], [3i + 1], [3i + 2]; the centre table has one number
    per entry of [triangle_indices]. *)
Theorem center_is_mean_of_corners i c :
  c < 3 -> i * 3 + 2 < length triangle_indices ->
  exists g p0 p1 p2,
    createTriangleSplatsGeometry vertices triangle_indices opacities
      vertex_weights colors features_dc features_rest sh_degree = Some g
    /\ position g !! ((i * 3 + 0) * 3 + c)%nat = Some p0
    /\ position g !! ((i * 3 + 1) * 3 + c)%nat = Some p1
    /\ position g !! ((i * 3 + 2) * 3 + c)%nat = Some p2
    /\ geom_triangleCenters g !! (i * 3 + c)%nat
       = Some (div (add (add p0 p1) p2) (Fin 3))
    /\ (forall x0 x1 x2,
          p0 = Fin x0 -> p1 = Fin x1 -> p2 = Fin x2 ->
          geom_triangleCenters g !! (i * 3 + c)%nat
          = Some (Fin ((x0 + x1 + x2) / 3)))
    /\ length (geom_triangleCenters g) = length triangle_indices.
Proof.
  intros Hc Hlt.
  destruct (builder_returns vertices triangle_indices opacities
              vertex_weights colors features_dc features_rest sh_degree)
    as (texture & Hg & _).
  destruct (triangleCenters_lookup vertices triangle_indices opacities
              i c Hc ltac:(lia)) as [Hcen Hlen].
  eexists. do 3 eexists. split; [exact Hg|].
  cbn [position geom_triangleCenters].
  split; [apply unrolledVertices_lookup; lia|].
  split; [apply unrolledVertices_lookup; lia|].
  split; [apply unrolledVertices_lookup; lia|].
  split; [exact Hcen|]. split; [|exact Hlen].
  intros x0 x1 x2 E0 E1 E2. rewrite Hcen. unfold center_coord.
  rewrite E0, E1, E2. reflexivity.
Qed.

Lemma trip_count_whole {A} (a : list A) :
  trip_count (third_of_length a * 3) = length a.
Proof.
  unfold trip_count, third_of_length.
  rewrite (Qceiling_comp _ (inject_Z (Z.of_nat (length a)))) by field.
  rewrite Qceiling_Z. apply Nat2Z.id.
Qed.

Lemma identityIndex_seq :
  identityIndex (third_of_length triangle_indices * 3)
  = map Z.of_nat (seq 0 (length triangle_indices)).
Proof.
  unfold identityIndex. rewrite trip_count_whole, alloc_length_whole.
  apply list_eq. intros k.
  rewrite fill_loop_lookup by (rewrite length_replicate; lia).
  rewrite list_lookup_fmap.
  destruct (decide (k < length triangle_indices)) as [Hk | Hk].
  - rewrite lookup_seq_lt by exact Hk. reflexivity.
  - rewrite lookup_seq_ge by lia.
    apply lookup_ge_None. rewrite length_replicate. lia.
Qed.

Lemma triples_seq T :
  SorterSpec.triples (seq 0 T) = map Z.of_nat (seq 0 (T * 3)).
Proof.
  induction T as [|T IH]; [reflexivity|].
  rewrite seq_S. unfold SorterSpec.triples in *. rewrite flat_map_app, IH.
  cbn [flat_map app Nat.add].
  replace (Datatypes.S T * 3)%nat
    with (Datatypes.S (Datatypes.S (Datatypes.S (T * 3)))) by lia.
  rewrite !seq_S, !map_app. cbn [map Nat.add].
  rewrite <- !app_assoc. cbn [app].
  replace (T * 3 + 1)%nat with (Datatypes.S (T * 3)) by lia.
  replace (T * 3 + 2)%nat with (Datatypes.S (Datatypes.S (T * 3))) by lia.
  reflexivity.
Qed.

(** X6.  The index buffer of a freshly built geometry is the identity
    [0, 1, .., n - 1] over the corner records; for [n = 3T] it is the
    array that the depth sorter returns for [T] triangles when it takes
    its early return. *)
Theorem initial_index_is_identity :
  exists g,
    createTriangleSplatsGeometry vertices triangle_indices opacities
      vertex_weights colors features_dc features_rest sh_degree = Some g
    /\ index g = map Z.of_nat (seq 0 (length triangle_indices))
    /\ forall T, length triangle_indices = (T * 3)%nat ->
         index g = Sorter.identityIndices T.
Proof.
  destruct (builder_returns vertices triangle_indices opacities
              vertex_weights colors features_dc features_rest sh_degree)
    as (texture & Hg & _).
  eexists. split; [exact Hg|]. cbn [index]. split.
  - apply identityIndex_seq.
  - intros T HT. rewrite identityIndex_seq, HT.
    rewrite identityIndices_triples. symmetry. apply triples_seq.
Qed.

Lemma unrollColors_lookup cs k c :
  k < length triangle_indices -> c < 3 ->
  unrollColors triangle_indices cs !! (k * 3 + c)%nat
  = Some (div (u8_at cs (scaled (triangle_indices !! k) 3 (Z.of_nat c)))
              (Fin 255))
  /\ length (unrollColors triangle_indices cs)
     = (length triangle_indices * 3)%nat.
Proof.
  intros Hk Hc. unfold unrollColors.
  rewrite trip_count_whole, alloc_length_whole_3.
  pose (f := fun k c =>
    div (u8_at cs (scaled (triangle_indices !! k) 3 (Z.of_nat c)))
        (Fin 255)).
  change (color_step triangle_indices cs)
    with (fun i (a : list number) =>
            <[(i * 3 + 2)%nat := f i 2%nat]>
              (<[(i * 3 + 1)%nat := f i 1%nat]>
                 (<[(i * 3)%nat := f i 0%nat]> a))).
  split.
  - apply (triple_loop_lookup f); [rewrite length_replicate; lia | | ];
      assumption.
  - rewrite (triple_loop_length f). apply length_replicate.
Qed.

(** X7.  With direct colours the colour attribute of corner record [k]
    is the colour of its vertex divided by 255: component [c] is
    [colors[3v + c] / 255.0], a number between 0 and 1 for a byte that
    exists; without direct colours the geometry has no colour
    attribute. *)
Theorem corner_colour_is_scaled_byte k c :
  k < length triangle_indices -> c < 3 ->
  exists g,
    createTriangleSplatsGeometry vertices triangle_indices opacities
      vertex_weights colors features_dc features_rest sh_degree = Some g
    /\ (colors = None -> aColor g = None)
    /\ forall cs, colors = Some cs ->
         exists a,
           aColor g = Some a
           /\ length a = (length triangle_indices * 3)%nat
           /\ a !! (k * 3 + c)%nat
              = Some (div (u8_at cs
                             (scaled (triangle_indices !! k) 3 (Z.of_nat c)))
                          (Fin 255))
           /\ forall v byte,
                triangle_indices !! k = Some v ->
                get cs (v * 3 + Z.of_nat c) = Some byte ->
                (0 <= byte <= 255)%Z ->
                a !! (k * 3 + c)%nat = Some (Fin (inject_Z byte / 255))
                /\ (0 <= inject_Z byte / 255 <= 1)%Q.
Proof.
  intros Hk Hc.
  destruct (builder_returns vertices triangle_indices opacities
              vertex_weights colors features_dc features_rest sh_degree)
    as (texture & Hg & _).
  eexists. split; [exact Hg|]. cbn [aColor].
  split; [intros ->; reflexivity|].
  intros cs ->. cbn [fmap option_fmap option_map]. eexists.
  split; [reflexivity|].
  destruct (unrollColors_lookup cs k c Hk Hc) as [Hcol Hlen].
  split; [exact Hlen|]. split; [exact Hcol|].
  intros v byte Hv Hbyte Hrange. rewrite Hcol, Hv.
  cbn [scaled fmap option_fmap option_map u8_at]. rewrite Hbyte.
  cbn [fmap option_fmap option_map of_slot]. split; [reflexivity|].
  assert (H0 : (inject_Z 0 <= inject_Z byte)%Q) by (rewrite <- Zle_Qle; lia).
  assert (H1 : (inject_Z byte <= inject_Z 255)%Q)
    by (rewrite <- Zle_Qle; lia).
  change (inject_Z 0) with 0%Q in H0. change (inject_Z 255) with 255%Q in H1.
  split.
  - apply Qle_shift_div_l; [reflexivity | lra].
  - apply Qle_shift_div_r; [reflexivity | lra].
Qed.

End BuilderProperties.

(** ** The packed SH coefficients and their texture *)

Section Packing.
Import JS TypedArray Geometry.

Lemma offset_fill_lookup {A} (g : nat -> A) off n (a : list A) q :
  for_loop n (fun k a => <[(off + k)%nat := g k]> a) a !! q
  = if decide (off <= q < off + n) then (fun _ => g (q - off)) <$> a !! q
    else a !! q.
Proof.
  induction n as [|n IH].
  - rewrite for_loop_0. destruct (decide _); [lia | reflexivity].
  - rewrite for_loop_S, insert_lookup_fmap, IH.
    destruct (decide (q = off + n)) as [-> | Hne].
    + destruct (decide (off <= off + n < off + n)); [lia|].
      destruct (decide (off <= off + n < off + Datatypes.S n)); [|lia].
      destruct (a !! (off + n)%nat); cbn; [|reflexivity].
      do 2 f_equal. lia.
    + destruct (decide (off <= q < off + n)),
               (decide (off <= q < off + Datatypes.S n));
        try lia; reflexivity.
Qed.

Variables (dc : list Q) (features_rest : option (list Q)) (sh_degree : Z).
Hypothesis degree_range : (0 <= sh_degree <= 3)%Z.

Local Abbreviation restSize :=
  (Z.to_nat (restComponentCount sh_degree * 3)).

(** What slot [r] of the block of vertex [v] holds after packing. *)
Local Abbreviation packed := (fun (v r : nat) (old : number) =>
  if decide (r < 3) then of_slot (dc !! (v * 3 + r)%nat)
  else match features_rest with
       | Some rest =>
           if decide (r - 3 < restSize)
           then of_slot (rest !! (v * restSize + (r - 3))%nat)
           else old
       | None => old
       end).

Lemma restSize_cases :
  (sh_degree = 0%Z /\ restSize = 0%nat)
  \/ (sh_degree = 1%Z /\ restSize = 9%nat)
  \/ (sh_degree = 2%Z /\ restSize = 24%nat)
  \/ (sh_degree = 3%Z /\ restSize = 45%nat).
Proof using degree_range.
  assert (sh_degree = 0 \/ sh_degree = 1 \/ sh_degree = 2 \/ sh_degree = 3)%Z
    as [-> | [-> | [-> | ->]]] by lia; vm_compute; tauto.
Qed.

Lemma restSize_positive :
  (0 <? restComponentCount sh_degree)%Z = negb (restSize =? 0)%nat.
Proof using degree_range.
  assert (sh_degree = 0 \/ sh_degree = 1 \/ sh_degree = 2 \/ sh_degree = 3)%Z
    as [-> | [-> | [-> | ->]]] by lia; reflexivity.
Qed.

Lemma sh_step_lookup v (a : list number) q :
  sh_step dc features_rest sh_degree v a !! q
  = if decide (v * 48 <= q < v * 48 + 48)
    then packed v (q - v * 48) <$> a !! q
    else a !! q.
Proof using degree_range.
  assert (Hsize : restSize <= 45)
    by (destruct restSize_cases as [[_ ->] | [[_ ->] | [[_ ->] | [_ ->]]]];
        lia).
  assert (Hhead : forall (b : list number),
    <[(v * 48 + 2)%nat := of_slot (dc !! (v * 3 + 2)%nat)]>
      (<[(v * 48 + 1)%nat := of_slot (dc !! (v * 3 + 1)%nat)]>
         (<[(v * 48 + 0)%nat := of_slot (dc !! (v * 3 + 0)%nat)]> b)) !! q
    = if decide (v * 48 <= q < v * 48 + 3)
      then (fun _ => of_slot (dc !! (v * 3 + (q - v * 48))%nat)) <$> b !! q
      else b !! q).
  { intros b. rewrite !insert_lookup_fmap.
    destruct (decide (q = v * 48 + 2)%nat) as [-> | H2].
    - destruct (decide (v * 48 + 2 = v * 48 + 1)%nat); [lia|].
      destruct (decide (v * 48 + 2 = v * 48 + 0)%nat); [lia|].
      destruct (decide _); [|lia].
      replace (v * 48 + 2 - v * 48)%nat with 2%nat by lia. reflexivity.
    - destruct (decide (q = v * 48 + 1)%nat) as [-> | H1].
      + destruct (decide (v * 48 + 1 = v * 48 + 0)%nat); [lia|].
        destruct (decide _); [|lia].
        replace (v * 48 + 1 - v * 48)%nat with 1%nat by lia. reflexivity.
      + destruct (decide (q = v * 48 + 0)%nat) as [-> | H0].
        * destruct (decide _); [|lia].
          replace (v * 48 + 0 - v * 48)%nat with 0%nat by lia. reflexivity.
        * destruct (decide _); [lia | reflexivity]. }
  unfold sh_step. cbv zeta.
  destruct features_rest as [rest|].
  - rewrite restSize_positive.
    destruct (restSize =? 0)%nat eqn:E0; cbn [negb].
    + apply Nat.eqb_eq in E0. rewrite Hhead.
      destruct (decide (v * 48 <= q < v * 48 + 3)),
               (decide (v * 48 <= q < v * 48 + 48)); try lia.
      * destruct (a !! q); [|reflexivity]. cbn.
        destruct (decide (q - v * 48 < 3)); [reflexivity | lia].
      * destruct (a !! q); [|reflexivity]. cbn.
        destruct (decide (q - v * 48 < 3)); [lia|].
        destruct (decide (q - v * 48 - 3 < restSize)); [lia | reflexivity].
      * reflexivity.
    + rewrite (offset_fill_lookup
                 (fun k => of_slot (rest !! (v * restSize + k)%nat))
                 (v * 48 + 3)).
      rewrite Hhead.
      destruct (decide (v * 48 + 3 <= q < v * 48 + 3 + restSize)).
      * destruct (decide (v * 48 <= q < v * 48 + 3)); [lia|].
        destruct (decide (v * 48 <= q < v * 48 + 48)); [|lia].
        destruct (a !! q); [|reflexivity]. cbn.
        destruct (decide (q - v * 48 < 3)); [lia|].
        destruct (decide (q - v * 48 - 3 < restSize)); [|lia].
        do 3 f_equal. lia.
      * destruct (decide (v * 48 <= q < v * 48 + 3)),
                 (decide (v * 48 <= q < v * 48 + 48)); try lia.
        -- destruct (a !! q); [|reflexivity]. cbn.
           destruct (decide (q - v * 48 < 3)); [reflexivity | lia].
        -- destruct (a !! q); [|reflexivity]. cbn.
           destruct (decide (q - v * 48 < 3)); [lia|].
           destruct (decide (q - v * 48 - 3 < restSize));
             [lia | reflexivity].
        -- reflexivity.
  - rewrite Hhead.
    destruct (decide (v * 48 <= q < v * 48 + 3)),
             (decide (v * 48 <= q < v * 48 + 48)); try lia.
    + destruct (a !! q); [|reflexivity]. cbn.
      destruct (decide (q - v * 48 < 3)); [reflexivity | lia].
    + destruct (a !! q); [|reflexivity]. cbn.
      destruct (decide (q - v * 48 < 3)); [lia | reflexivity].
    + reflexivity.
Qed.

Variable vertices : list Q.

Lemma packed_length :
  alloc_length (third_of_length vertices * 48) = (16 * length vertices)%nat.
Proof using Type.
  unfold alloc_length, third_of_length.
  rewrite (Qfloor_comp _ (inject_Z (Z.of_nat (16 * length vertices)))).
  - rewrite Qfloor_Z. apply Nat2Z.id.
  - rewrite Nat2Z.inj_mul, inject_Z_mult. simpl (Z.of_nat 16). field.
Qed.

Lemma packSH_lookup v r :
  r < 48 -> v * 48 + r < 16 * length vertices ->
  exists shData,
    packSH vertices (Some dc) features_rest sh_degree = Some shData
    /\ length shData = (16 * length vertices)%nat
    /\ shData !! (v * 48 + r)%nat = Some (packed v r (Fin 0)).
Proof using degree_range.
  intros Hr Hlt. unfold packSH. eexists. split; [reflexivity|].
  set (a0 := replicate _ _).
  assert (Hlen : length a0 = (16 * length vertices)%nat)
    by (unfold a0; rewrite length_replicate; apply packed_length).
  split.
  - rewrite (block_loop_length (sh_step dc features_rest sh_degree));
      [exact Hlen|].
    intros. apply sh_step_length.
  - destruct (block_loop_lookup 48 packed
                (sh_step dc features_rest sh_degree)
                (trip_count (third_of_length vertices)) a0) as [Hin _].
    + intros i a k Hk. rewrite sh_step_lookup.
      destruct (decide _); [|lia].
      replace (i * 48 + k - i * 48)%nat with k by lia. reflexivity.
    + intros i a q Hq. rewrite sh_step_lookup.
      destruct (decide _); [lia | reflexivity].
    + rewrite Hin;
        [|apply (trip_count_covers vertices v 0%nat); lia | exact Hr].
      assert (Hzero : a0 !! (v * 48 + r)%nat = Some (Fin 0)).
      { apply lookup_replicate_2. unfold a0 in Hlen.
        rewrite length_replicate in Hlen. rewrite Hlen. lia. }
      rewrite Hzero. reflexivity.
Qed.

(** The number of rows of the texture. *)
Local Abbreviation rows :=
  (Qceiling (third_of_length vertices * 12 / 1024)).

Lemma rows_bounds :
  (4 * Z.of_nat (length vertices) <= 1024 * rows
   < 4 * Z.of_nat (length vertices) + 1024)%Z.
Proof using Type.
  pose proof (Qle_ceiling (third_of_length vertices * 12 / 1024)) as Hle.
  pose proof (Qceiling_lt (third_of_length vertices * 12 / 1024)) as Hlt.
  set (c := rows) in *.
  assert (Hx : (third_of_length vertices * 12 / 1024
                == inject_Z (Z.of_nat (length vertices)) * 4 / 1024)%Q)
    by (unfold third_of_length; field).
  rewrite Hx in Hle, Hlt.
  assert (Hm : (inject_Z (Z.of_nat (length vertices)) * 4 / 1024 * 1024
                == inject_Z (Z.of_nat (length vertices)) * 4)%Q) by field.
  set (x := (inject_Z (Z.of_nat (length vertices)) * 4 / 1024)%Q) in *.
  assert (H1 : (inject_Z (Z.of_nat (length vertices)) * 4
                <= inject_Z c * 1024)%Q) by lra.
  assert (H2 : (inject_Z (c - 1) * 1024
                < inject_Z (Z.of_nat (length vertices)) * 4)%Q) by lra.
  clearbody x.
  change 4%Q with (inject_Z 4) in H1, H2.
  change 1024%Q with (inject_Z 1024) in H1, H2.
  rewrite <- !inject_Z_mult in H1, H2.
  rewrite <- Zle_Qle in H1. rewrite <- Zlt_Qlt in H2. lia.
Qed.

Lemma makeSHTexture_data shData :
  length shData = (16 * length vertices)%nat ->
  exists t,
    makeSHTexture vertices shData = Some t
    /\ tex_width t = 1024%nat
    /\ tex_height t = Z.to_nat rows
    /\ length (tex_data t) = (4096 * Z.to_nat rows)%nat
    /\ (forall q, q < length shData -> tex_data t !! q = shData !! q)
    /\ (forall q, length shData <= q < length (tex_data t) ->
          tex_data t !! q = Some (Fin 0)).
Proof using Type.
  intros Hlen. pose proof rows_bounds as Hrows.
  unfold makeSHTexture. cbv zeta. set (c := rows) in *.
  assert (Halloc : alloc_length (1024 * inject_Z c * 4)
                   = (4096 * Z.to_nat c)%nat).
  { unfold alloc_length.
    rewrite (Qfloor_comp _ (inject_Z (4096 * c))).
    - rewrite Qfloor_Z. lia.
    - rewrite inject_Z_mult. change (inject_Z 4096) with 4096%Q. ring. }
  rewrite Halloc. unfold typed_set. rewrite length_replicate.
  destruct (Nat.leb_spec (length shData) (4096 * Z.to_nat c)) as [Hfit | Hno];
    [|lia].
  eexists. split; [reflexivity|]. cbn [tex_width tex_height tex_data].
  split; [reflexivity|].
  split; [unfold alloc_length; rewrite Qfloor_Z; reflexivity|].
  split; [|split].
  - rewrite length_app, length_drop, length_replicate. lia.
  - intros q Hq. apply lookup_app_l. exact Hq.
  - intros q [Hq1 Hq2].
    rewrite length_app, length_drop, length_replicate in Hq2.
    rewrite lookup_app_r by exact Hq1.
    rewrite lookup_drop. apply lookup_replicate_2. lia.
Qed.

End Packing.

Section TextureProperties.
Import JS TypedArray Geometry.
Variables (vertices : list Q) (triangle_indices : list Z) (opacities : list Q).
Variables (vertex_weights : option (list Q)) (colors : option (list Z)).
Variables (features_rest : option (list Q)) (sh_degree : Z).

(** X8.  With SH features and a degree from 0 to 3, the texture data
    holds the coefficients of vertex [v] in the 48 numbers from [48v]
    on: the three DC numbers [features_dc[3v + r]] first, then the
    [3 * ((sh_degree + 1)^2 - 1)] rest numbers of the vertex in the order
    of [features_rest], then zeros; nothing of another vertex lies in
    that block. *)
Theorem sh_texture_layout dc v r :
  (0 <= sh_degree <= 3)%Z ->
  r < 48 -> v * 48 + r < 16 * length vertices ->
  let restSize := Z.to_nat (restComponentCount sh_degree * 3) in
  exists g t,
    createTriangleSplatsGeometry vertices triangle_indices opacities
      vertex_weights colors (Some dc) features_rest sh_degree = Some g
    /\ shDataTexture g = Some t
    /\ tex_data t !! (v * 48 + r)%nat
       = Some (if decide (r < 3) then of_slot (dc !! (v * 3 + r)%nat)
               else match features_rest with
                    | Some rest =>
                        if decide (r - 3 < restSize)
                        then of_slot (rest !! (v * restSize + (r - 3))%nat)
                        else Fin 0
                    | None => Fin 0
                    end).
Proof.
  intros Hd Hr Hlt. cbv zeta.
  destruct (builder_returns vertices triangle_indices opacities
              vertex_weights colors (Some dc) features_rest sh_degree)
    as (texture & Hg & shData & t & Hpack & Htex & ->).
  destruct (packSH_lookup dc features_rest sh_degree Hd vertices v r Hr Hlt)
    as (shData' & Hpack' & Hlen & Hslot).
  rewrite Hpack in Hpack'. injection Hpack' as <-.
  destruct (makeSHTexture_data vertices shData Hlen)
    as (t' & Htex' & _ & _ & _ & Hdata & _).
  rewrite Htex in Htex'. injection Htex' as <-.
  eexists. exists t. split; [exact Hg|]. split; [reflexivity|].
  rewrite Hdata by (rewrite Hlen; exact Hlt). exact Hslot.
Qed.

(** X9.  Without SH features the geometry has no SH texture.  With
    them, the texture is 1024 texels wide and has the least number of
    rows that holds twelve texels for each of the [vertices.length / 3]
    vertices; its data are four numbers per texel, and whatever follows
    the packed coefficients is zero. *)
Theorem sh_texture_size features_dc :
  exists g,
    createTriangleSplatsGeometry vertices triangle_indices opacities
      vertex_weights colors features_dc features_rest sh_degree = Some g
    /\ (features_dc = None -> shDataTexture g = None)
    /\ forall dc, features_dc = Some dc ->
         exists t,
           shDataTexture g = Some t
           /\ tex_width t = 1024%nat
           /\ length (tex_data t) = (4 * (tex_width t * tex_height t))%nat
           /\ (4 * length vertices <= 1024 * tex_height t
               < 4 * length vertices + 1024)%nat
           /\ forall q, 16 * length vertices <= q < length (tex_data t) ->
                tex_data t !! q = Some (Fin 0).
Proof.
  destruct (builder_returns vertices triangle_indices opacities
              vertex_weights colors features_dc features_rest sh_degree)
    as (texture & Hg & Htexture).
  eexists. split; [exact Hg|]. cbn [shDataTexture].
  destruct features_dc as [dc|].
  - split; [discriminate|]. intros dc' Hdc. injection Hdc as <-.
    destruct Htexture as (shData & t & Hpack & Htex & ->).
    pose proof (packSH_length _ _ _ _ _ Hpack) as Hlen.
    rewrite packed_length in Hlen.
    destruct (makeSHTexture_data vertices shData Hlen)
      as (t' & Htex' & Hw & Hh & Hdata & _ & Hzero).
    rewrite Htex in Htex'. injection Htex' as <-.
    pose proof (rows_bounds vertices) as Hrows.
    exists t. split; [reflexivity|]. split; [exact Hw|].
    split; [rewrite Hdata, Hw, Hh; lia|].
    split; [rewrite Hh; lia|].
    intros q Hq. apply Hzero. rewrite Hlen. exact Hq.
  - split; [intros _; exact Htexture|]. discriminate.
Qed.

End TextureProperties.

(** ** Reading the texture back in the vertex shader *)

Section Fetching.
Import SHTexture.
Context {A : Type}.
Variable zero : A.

Lemma int32_small z : (0 <= z < 2 ^ 31)%Z -> int32 z = z.
Proof.
  intros H. unfold int32. rewrite Z.mod_small by lia. lia.
Qed.

(** Texel [i] of vertex [v] is made of the four numbers from
    [48v + 4i] on. *)
Lemma fetchSHDataAt_block (data : list A) (height : Z) (v : nat) (i : Z)
    (d : nat -> A) :
  (0 <= i < 12)%Z ->
  (Z.of_nat v * 12 + 11 < 2 ^ 31)%Z ->
  (Z.of_nat v * 12 + 12 <= 1024 * height)%Z ->
  (forall r, r < 48 -> data !! (v * 48 + r)%nat = Some (d r)) ->
  fetchSHDataAt data 1024 height (Z.of_nat v) i
  = Some (Texel (d (Z.to_nat (4 * i))) (d (Z.to_nat (4 * i) + 1)%nat)
            (d (Z.to_nat (4 * i) + 2)%nat) (d (Z.to_nat (4 * i) + 3)%nat)).
Proof.
  intros Hi Hv Hh Hd. unfold fetchSHDataAt. cbv zeta.
  rewrite (int32_small (Z.of_nat v * 12)) by lia.
  rewrite (int32_small (Z.of_nat v * 12 + i)) by lia.
  set (p := (Z.of_nat v * 12 + i)%Z).
  assert (Hp : (0 <= p)%Z) by (unfold p; lia).
  pose proof (Z.quot_rem' p 1024) as Hqr.
  pose proof (Z.rem_bound_pos p 1024 Hp ltac:(lia)) as Hrem.
  assert (Hquot : (0 <= Z.quot p 1024 < height)%Z).
  { split; [apply Z.quot_pos; lia|].
    apply Z.quot_lt_upper_bound; unfold p; lia. }
  unfold texelFetch.
  destruct (Z.leb_spec 0 (Z.rem p 1024)); [|lia].
  destruct (Z.ltb_spec (Z.rem p 1024) 1024); [|lia].
  destruct (Z.leb_spec 0 (Z.quot p 1024)); [|lia].
  destruct (Z.ltb_spec (Z.quot p 1024) height); [|lia].
  cbn [andb].
  assert (Hbase : Z.to_nat (4 * (Z.quot p 1024 * 1024 + Z.rem p 1024))
                  = (v * 48 + Z.to_nat (4 * i))%nat) by (unfold p in *; lia).
  rewrite Hbase, <- !Nat.add_assoc.
  rewrite !Hd by lia. reflexivity.
Qed.

(** The coefficient that sits in the slots [3k + 3 .. 3k + 5] of a
    block. *)
Local Abbreviation coefficient_of := (fun (d : nat -> A) (k : nat) =>
  (d (3 * k + 3)%nat, d (3 * k + 4)%nat, d (3 * k + 5)%nat)).

Lemma loadCoefficients_result (d : nat -> A) (fetch : Z -> option (texel A))
    (uninitialized : list (coefficient A)) (sh_degree : Z) :
  length uninitialized = 15%nat ->
  (forall i, (0 <= i < 12)%Z ->
     fetch i
     = Some (Texel (d (Z.to_nat (4 * i))) (d (Z.to_nat (4 * i) + 1)%nat)
               (d (Z.to_nat (4 * i) + 2)%nat)
               (d (Z.to_nat (4 * i) + 3)%nat))) ->
  let loaded :=
    if (2 <? sh_degree)%Z then 15%nat
    else if (1 <? sh_degree)%Z then 7%nat else 3%nat in
  loadCoefficients zero sh_degree fetch uninitialized
  = Some (map (coefficient_of d) (seq 0 loaded)
          ++ drop loaded uninitialized).
Proof.
  intros Hlen Hfetch. cbv zeta.
  do 15 (destruct uninitialized as [|[[? ?] ?] uninitialized];
         [discriminate|]).
  destruct uninitialized; [|discriminate].
  unfold loadCoefficients, load_first, load_second, load_third.
  rewrite !Hfetch by lia.
  destruct (1 <? sh_degree)%Z eqn:E1, (2 <? sh_degree)%Z eqn:E2;
    try (apply Z.ltb_lt in E2; apply Z.ltb_ge in E1; lia);
    rewrite ?Hfetch by lia; reflexivity.
Qed.

End Fetching.

Section RoundTrip.
Import JS TypedArray Geometry SHTexture.
Variables (vertices : list Q) (triangle_indices : list Z) (opacities : list Q).
Variables (vertex_weights : option (list Q)) (colors : option (list Z)).
Variables (features_rest : option (list Q)) (sh_degree : Z).
Variable dc : list Q.

Local Abbreviation restSize :=
  (Z.to_nat (restComponentCount sh_degree * 3)).
Local Abbreviation rest_at := (fun i : nat =>
  match features_rest with
  | Some rest => of_slot (rest !! i)
  | None => Fin 0
  end).
Local Abbreviation slot_of := (fun v r : nat =>
  if decide (r < 3) then of_slot (dc !! (v * 3 + r)%nat)
  else match features_rest with
       | Some rest =>
           if decide (r - 3 < restSize)
           then of_slot (rest !! (v * restSize + (r - 3))%nat)
           else Fin 0
       | None => Fin 0
       end).

Lemma texture_block v :
  (0 <= sh_degree <= 3)%Z -> v * 3 + 3 <= length vertices ->
  exists g t,
    createTriangleSplatsGeometry vertices triangle_indices opacities
      vertex_weights colors (Some dc) features_rest sh_degree = Some g
    /\ shDataTexture g = Some t
    /\ tex_width t = 1024%nat
    /\ (Z.of_nat v * 12 + 12 <= 1024 * Z.of_nat (tex_height t))%Z
    /\ forall r, r < 48 -> tex_data t !! (v * 48 + r)%nat = Some (slot_of v r).
Proof.
  intros Hd Hv.
  destruct (builder_returns vertices triangle_indices opacities
              vertex_weights colors (Some dc) features_rest sh_degree)
    as (texture & Hg & shData & t & Hpack & Htex & ->).
  pose proof (packSH_length _ _ _ _ _ Hpack) as Hlen.
  rewrite packed_length in Hlen.
  destruct (makeSHTexture_data vertices shData Hlen)
    as (t' & Htex' & Hw & Hh & _ & Hdata & _).
  rewrite Htex in Htex'. injection Htex' as <-.
  pose proof (rows_bounds vertices) as Hrows.
  eexists. exists t. split; [exact Hg|]. split; [reflexivity|].
  split; [exact Hw|]. split; [rewrite Hh; lia|].
  intros r Hr.
  destruct (packSH_lookup dc features_rest sh_degree Hd vertices v r Hr
              ltac:(lia)) as (shData' & Hpack' & _ & Hslot).
  rewrite Hpack in Hpack'. injection Hpack' as <-.
  rewrite Hdata by (rewrite Hlen; lia). exact Hslot.
Qed.

(** X10.  The vertex shader reads back what the builder packed.  For a
    degree from 1 to 3 and a vertex [v] whose texels exist, texel 0 of
    the vertex holds its DC coefficient, and the array [f_rest] that
    [computeVertexColor] fills from the texture holds at [k] the rest
    coefficient
    [features_rest[v * restSize + 3k .. v * restSize + 3k + 2]], for the
    first 3 coefficients at degree 1, the first 7 at degree 2 and all 15
    at degree 3; a number missing from a feature array is read as [NaN],
    and without rest features the coefficients are zero.  At degree 2
    the entry [f_rest[7]] keeps its unspecified initial content. *)
Theorem shader_reads_packed_coefficients v
    (uninitialized : list (coefficient number)) :
  (1 <= sh_degree <= 3)%Z ->
  v * 3 + 3 <= length vertices ->
  (Z.of_nat v * 12 + 11 < 2 ^ 31)%Z ->
  length uninitialized = 15%nat ->
  let loaded :=
    if (2 <? sh_degree)%Z then 15%nat
    else if (1 <? sh_degree)%Z then 7%nat else 3%nat in
  exists g t,
    createTriangleSplatsGeometry vertices triangle_indices opacities
      vertex_weights colors (Some dc) features_rest sh_degree = Some g
    /\ shDataTexture g = Some t
    /\ let fetch :=
         fetchSHDataAt (tex_data t) (Z.of_nat (tex_width t))
           (Z.of_nat (tex_height t)) (Z.of_nat v) in
       (exists sh0,
          fetch 0%Z = Some sh0
          /\ tx sh0 = of_slot (dc !! (v * 3 + 0)%nat)
          /\ ty sh0 = of_slot (dc !! (v * 3 + 1)%nat)
          /\ tz sh0 = of_slot (dc !! (v * 3 + 2)%nat))
       /\ exists f_rest,
            loadCoefficients (Fin 0) sh_degree fetch uninitialized
            = Some f_rest
            /\ length f_rest = 15%nat
            /\ (forall k, k < loaded ->
                  f_rest !! k
                  = Some (rest_at (v * restSize + 3 * k)%nat,
                          rest_at (v * restSize + 3 * k + 1)%nat,
                          rest_at (v * restSize + 3 * k + 2)%nat))
            /\ (forall k, loaded <= k -> f_rest !! k = uninitialized !! k).
Proof.
  intros Hd Hv H31 Hjunk. cbv zeta.
  assert (Hd03 : (0 <= sh_degree <= 3)%Z) by lia.
  destruct (texture_block v Hd03 Hv) as (g & t & Hg & Ht & Hw & Hh & Hdata).
  exists g, t. split; [exact Hg|]. split; [exact Ht|].
  rewrite Hw. change (Z.of_nat 1024) with 1024%Z.
  pose (d := fun r : nat => slot_of v r).
  assert (Hfetch : forall i, (0 <= i < 12)%Z ->
    fetchSHDataAt (tex_data t) 1024 (Z.of_nat (tex_height t)) (Z.of_nat v) i
    = Some (Texel (d (Z.to_nat (4 * i))) (d (Z.to_nat (4 * i) + 1)%nat)
              (d (Z.to_nat (4 * i) + 2)%nat)
              (d (Z.to_nat (4 * i) + 3)%nat))).
  { intros i Hi. apply (fetchSHDataAt_block _ _ _ _ d); assumption. }
  split.
  - eexists. split; [apply Hfetch; lia|]. cbn [tx ty tz].
    repeat split; reflexivity.
  - rewrite (loadCoefficients_result (Fin 0) d _ _ _ Hjunk Hfetch).
    eexists. split; [reflexivity|].
    set (loaded := if (2 <? sh_degree)%Z then 15%nat
                   else if (1 <? sh_degree)%Z then 7%nat else 3%nat).
    assert (Hloaded : loaded <= 15 /\ 3 * loaded <= restSize).
    { unfold loaded.
      pose proof (restSize_cases sh_degree ltac:(lia)) as Hcases.
      destruct Hcases as [[E1 E2] | [[E1 E2] | [[E1 E2] | [E1 E2]]]];
        rewrite E2, E1; cbn; lia. }
    destruct Hloaded as [Hl15 Hlrest].
    split; [|split].
    + rewrite length_app, length_map, length_seq, length_drop.
      unfold coefficient in *. lia.
    + intros k Hk.
      rewrite lookup_app_l by (rewrite length_map, length_seq; exact Hk).
      rewrite list_lookup_fmap, lookup_seq_lt by exact Hk.
      cbn [fmap option_fmap option_map Nat.add]. unfold d.
      destruct (decide (3 * k + 3 < 3)); [lia|].
      destruct (decide (3 * k + 4 < 3)); [lia|].
      destruct (decide (3 * k + 5 < 3)); [lia|].
      destruct features_rest as [rest|]; [|reflexivity].
      destruct (decide (3 * k + 3 - 3 < restSize)); [|lia].
      destruct (decide (3 * k + 4 - 3 < restSize)); [|lia].
      destruct (decide (3 * k + 5 - 3 < restSize)); [|lia].
      replace (3 * k + 3 - 3)%nat with (3 * k)%nat by lia.
      replace (3 * k + 4 - 3)%nat with (3 * k + 1)%nat by lia.
      replace (3 * k + 5 - 3)%nat with (3 * k + 2)%nat by lia.
      rewrite !Nat.add_assoc. reflexivity.
    + intros k Hk.
      rewrite lookup_app_r by (rewrite length_map, length_seq; exact Hk).
      rewrite length_map, length_seq, lookup_drop. f_equal. lia.
Qed.

End RoundTrip.

(** ** The colour of a vertex *)

Section VertexColour.
Import GLSL SHTexture SH.
Local Open Scope R_scope.
Variables (shDataTexture : sampler2D) (worldCameraPosition : vec3).
Variables (vertexIdx : Z) (worldPos : vec3).

Local Abbreviation fetch :=
  (fetchSHDataAt (texels shDataTexture) (texSize_x shDataTexture)
     (texSize_y shDataTexture) vertexIdx).
Local Abbreviation colour := (fun sh_degree uninitialized =>
  computeVertexColor sh_degree shDataTexture worldCameraPosition
    uninitialized vertexIdx worldPos).

Ltac fifteen u :=
  do 15 (destruct u as [|[[? ?] ?] u]; [discriminate|]);
  destruct u; [|discriminate].

Ltac next_fetch i :=
  destruct (fetch i) as [[? ? ? ?]|];
  cbn [mbind option_bind tx ty tz tw]; [|reflexivity].

(** X11.  At the degrees 0, 1 and 3 the colour that
    [computeVertexColor] returns does not depend on the unspecified
    initial content of its local array [f_rest]. *)
Theorem vertex_colour_is_determined sh_degree
    (u1 u2 : list (coefficient R)) :
  sh_degree = 0%Z \/ sh_degree = 1%Z \/ sh_degree = 3%Z ->
  length u1 = 15%nat -> length u2 = 15%nat ->
  colour sh_degree u1 = colour sh_degree u2.
Proof.
  intros Hd H1 H2. fifteen u1. fifteen u2.
  unfold computeVertexColor. cbv zeta.
  destruct Hd as [-> | [-> | ->]].
  - reflexivity.
  - unfold loadCoefficients, load_first. cbn [Z.eqb Z.ltb Z.compare
      Pos.compare Pos.compare_cont].
    next_fetch 0%Z. next_fetch 1%Z. next_fetch 2%Z.
    reflexivity.
  - unfold loadCoefficients, load_first, load_second, load_third.
    cbn [Z.eqb Z.ltb Z.compare Pos.compare Pos.compare_cont].
    next_fetch 0%Z. next_fetch 1%Z. next_fetch 2%Z.
    next_fetch 3%Z. next_fetch 4%Z. next_fetch 5%Z. next_fetch 6%Z.
    next_fetch 7%Z. next_fetch 8%Z. next_fetch 9%Z. next_fetch 10%Z.
    next_fetch 11%Z. reflexivity.
Qed.

(** The same at every call of [computeVertexColor] of the vertex
    stage. *)
Lemma colour_ignores_uninitialized sh_degree
    (u1 u2 : list (coefficient R)) :
  sh_degree = 0%Z \/ sh_degree = 1%Z \/ sh_degree = 3%Z ->
  length u1 = 15%nat -> length u2 = 15%nat ->
  colour sh_degree u1 = colour sh_degree u2.
Proof.
  intros Hd H1 H2. fifteen u1. fifteen u2.
  unfold computeVertexColor. cbv zeta.
  destruct Hd as [-> | [-> | ->]].
  - reflexivity.
  - unfold loadCoefficients, load_first. cbn [Z.eqb Z.ltb Z.compare
      Pos.compare Pos.compare_cont].
    next_fetch 0%Z. next_fetch 1%Z. next_fetch 2%Z.
    reflexivity.
  - unfold loadCoefficients, load_first, load_second, load_third.
    cbn [Z.eqb Z.ltb Z.compare Pos.compare Pos.compare_cont].
    next_fetch 0%Z. next_fetch 1%Z. next_fetch 2%Z.
    next_fetch 3%Z. next_fetch 4%Z. next_fetch 5%Z. next_fetch 6%Z.
    next_fetch 7%Z. next_fetch 8%Z. next_fetch 9%Z. next_fetch 10%Z.
    next_fetch 11%Z. reflexivity.
Qed.

Ltac known_fetch H i :=
  let E := fresh "E" in
  destruct (H i ltac:(lia)) as [[? ? ? ?] E]; rewrite E;
  cbn [mbind option_bind tx ty tz tw].

Ltac sh_eval :=
  unfold computeSH, shifted_color, vec3_of;
  cbn [Z.eqb Pos.eqb fmap list_fmap elem nth add3 sub3 scale3 x3 y3 z3].

(** X12.  At degree 2, [computeSH] reads [f_rest[7]], which
    [computeVertexColor] assigns only for degrees above 2: whenever the
    six texels of the degree can be fetched, the colour is
    [max(K + SH_C2[4] * (x*x - y*y) * f_rest[7] + 0.5, 0)] for a [K] that
    does not depend on the unspecified initial content of [f_rest], and
    [f_rest[7]] is that content. *)
Theorem degree_two_reads_unassigned_coefficient :
  (forall i, (0 <= i < 6)%Z -> is_Some (fetch i)) ->
  let dir := normalize3 (sub3 worldPos worldCameraPosition) in
  exists K : vec3,
    forall u, length u = 15%nat ->
      colour 2%Z u
      = Some (shifted_color
                (add3 K
                   (scale3
                      (elem 0 SH_C2 4 * (x3 dir * x3 dir - y3 dir * y3 dir))
                      (vec3_of (nth 7 u (0, 0, 0)))))).
Proof.
  intros Hf. cbv zeta.
  assert (Hf' : forall i, (0 <= i < 6)%Z -> exists t, fetch i = Some t).
  { intros i Hi. destruct (Hf i Hi) as [t Ht]. exists t. exact Ht. }
  set (dir := normalize3 (sub3 worldPos worldCameraPosition)).
  unfold computeVertexColor. cbv zeta.
  unfold loadCoefficients, load_first, load_second.
  cbn [Z.eqb Z.ltb Z.compare Pos.compare Pos.compare_cont].
  destruct (Hf' 0%Z ltac:(lia)) as [[a0 b0 c0 d0] E0].
  destruct (Hf' 1%Z ltac:(lia)) as [[a1 b1 c1 d1] E1].
  destruct (Hf' 2%Z ltac:(lia)) as [[a2 b2 c2 d2] E2].
  destruct (Hf' 3%Z ltac:(lia)) as [[a3 b3 c3 d3] E3].
  destruct (Hf' 4%Z ltac:(lia)) as [[a4 b4 c4 d4] E4].
  destruct (Hf' 5%Z ltac:(lia)) as [[a5 b5 c5 d5] E5].
  rewrite E0, E1, E2, E3, E4, E5. cbn [mbind option_bind tx ty tz tw].
  exists (computeSH 2 dir (Vec3 a0 b0 c0)
            (vec3_of <$> [(d0, a1, b1); (c1, d1, a2); (b2, c2, d2);
                          (a3, b3, c3); (d3, a4, b4); (c4, d4, a5);
                          (b5, c5, d5); (0, 0, 0)])).
  intros u Hu. fifteen u. fold dir.
  unfold assign, assign_yz, assign_z.
  cbn [lookup list_lookup insert list_insert mbind option_bind nth].
  f_equal. sh_eval. fold dir.
  set (k0 := elem 0 SH_C2 0). set (k1 := elem 0 SH_C2 1).
  set (k2 := elem 0 SH_C2 2). set (k3 := elem 0 SH_C2 3).
  set (k4 := elem 0 SH_C2 4).
  f_equal; f_equal; ring.
Qed.

(** X13.  When the rest numbers in the twelve texels of a vertex are
    zero, as they are for a geometry built without rest features, the
    colour at the degrees 1 and 3 is the colour of degree 0,
    [max(SH_C0 * f_dc + 0.5, 0)], whatever the view direction. *)
Theorem colour_of_dc_only sh_degree (u : list (coefficient R)) :
  sh_degree = 1%Z \/ sh_degree = 3%Z ->
  length u = 15%nat ->
  (forall i, (0 <= i < 12)%Z ->
     exists t, fetch i = Some t
               /\ tw t = 0
               /\ ((0 < i)%Z -> tx t = 0 /\ ty t = 0 /\ tz t = 0)) ->
  exists f_dc,
    colour 0%Z u = Some (shifted_color (scale3 SH_C0 f_dc))
    /\ colour sh_degree u = Some (shifted_color (scale3 SH_C0 f_dc)).
Proof.
  intros Hd Hu Hf. fifteen u.
  assert (Hzero : forall i, (0 < i < 12)%Z ->
            fetch i = Some (Texel 0 0 0 0)).
  { intros i Hi. destruct (Hf i ltac:(lia)) as ([a b c d] & E & Hw & Hxyz).
    cbn [tx ty tz tw] in *. destruct (Hxyz ltac:(lia)) as (-> & -> & ->).
    rewrite E, Hw. reflexivity. }
  destruct (Hf 0%Z ltac:(lia)) as ([a b c d] & E0 & Hw & _).
  cbn [tw] in Hw. subst d.
  exists (Vec3 a b c). unfold computeVertexColor. cbv zeta.
  rewrite E0. cbn [mbind option_bind tx ty tz tw].
  split; [reflexivity|].
  destruct Hd as [-> | ->].
  - unfold loadCoefficients, load_first.
    cbn [Z.eqb Z.ltb Z.compare Pos.compare Pos.compare_cont].
    rewrite E0, !Hzero by lia. cbn [mbind option_bind tx ty tz tw].
    unfold assign, assign_yz, assign_z.
    cbn [lookup list_lookup insert list_insert mbind option_bind].
    f_equal. sh_eval. f_equal; f_equal; ring.
  - unfold loadCoefficients, load_first, load_second, load_third.
    cbn [Z.eqb Z.ltb Z.compare Pos.compare Pos.compare_cont].
    rewrite E0, !Hzero by lia. cbn [mbind option_bind tx ty tz tw].
    unfold assign, assign_yz, assign_z.
    cbn [lookup list_lookup insert list_insert mbind option_bind].
    f_equal. sh_eval.
    set (c20 := elem 0 SH_C2 0). set (c21 := elem 0 SH_C2 1).
    set (c22 := elem 0 SH_C2 2). set (c23 := elem 0 SH_C2 3).
    set (c24 := elem 0 SH_C2 4).
    set (c30 := elem 0 SH_C3 0). set (c31 := elem 0 SH_C3 1).
    set (c32 := elem 0 SH_C3 2). set (c33 := elem 0 SH_C3 3).
    set (c34 := elem 0 SH_C3 4). set (c35 := elem 0 SH_C3 5).
    set (c36 := elem 0 SH_C3 6).
    f_equal; f_equal; ring.
Qed.

End VertexColour.

(** ** Installing a sorted order in the index buffer *)

Section IndexUpdates.
Import TypedArray Sorter SorterSpec TriangleSorter.

Lemma for_loop_ext {S} n (body1 body2 : nat -> S -> S) s :
  (forall i st, i < n -> body1 i st = body2 i st) ->
  for_loop n body1 s = for_loop n body2 s.
Proof.
  intros H. induction n as [|n IH]; [reflexivity|].
  rewrite !for_loop_S, IH by (intros; apply H; lia). apply H. lia.
Qed.

Lemma store_uint32_small z : (0 <= z < 2 ^ 32)%Z -> store_uint32 z = z.
Proof. intros H. unfold store_uint32. apply Z.mod_small. exact H. Qed.

Ltac through_inserts :=
  repeat (rewrite insert_lookup_fmap;
          destruct (decide _) as [? | ?]; try lia).

(** X14.  [updateGeometryIndexByTriangleSort] leaves a geometry without
    index alone.  Otherwise it keeps the length of the index buffer,
    writes [3o, 3o + 1, 3o + 2] (reduced modulo 2^32) for the [k]-th
    sorted triangle [o] into the slots [3k, 3k + 1, 3k + 2] that exist,
    and keeps every slot from [3 * sortedTriangleIndices.length] on.
    On a buffer of three slots per sorted triangle the result is the
    array that step 4 of the sort worker prepares from the same order,
    whatever the buffer held before, and the legacy entry point
    [reorderGeometryByTriangleSort] returns the same. *)
Theorem update_writes_sorted_triples (indexArray sorted : list Z) :
  updateGeometryIndexByTriangleSort None sorted = None
  /\ exists updated,
       updateGeometryIndexByTriangleSort (Some indexArray) sorted
       = Some updated
       /\ reorderGeometryByTriangleSort (Some indexArray) sorted
          = Some updated
       /\ length updated = length indexArray
       /\ (forall k o j,
             sorted !! k = Some o -> j < 3 ->
             k * 3 + j < length indexArray ->
             updated !! (k * 3 + j)%nat
             = Some (store_uint32 (o * 3 + Z.of_nat j)))
       /\ (forall q, length sorted * 3 <= q ->
             updated !! q = indexArray !! q)
       /\ (length indexArray = (length sorted * 3)%nat ->
           (forall k o, sorted !! k = Some o ->
              (0 <= o /\ o * 3 + 2 < 2 ^ 32)%Z) ->
           updated = expandIndices (length sorted) sorted).
Proof.
  split; [reflexivity|].
  unfold reorderGeometryByTriangleSort, updateGeometryIndexByTriangleSort.
  cbv zeta. eexists. split; [reflexivity|]. split; [reflexivity|].
  pose (f := fun (k j : nat) =>
    store_uint32 (default 0%Z (sorted !! k) * 3 + Z.of_nat j)).
  pose (body := fun (i : nat) (a : list Z) =>
    <[(i * 3 + 2)%nat := f i 2%nat]>
      (<[(i * 3 + 1)%nat := f i 1%nat]> (<[(i * 3)%nat := f i 0%nat]> a))).
  rewrite (for_loop_ext _ _ body).
  2:{ intros i st Hi. unfold reindex_step, body, f.
      destruct (lookup_lt_is_Some_2 sorted i Hi) as [o ->].
      cbn [default]. rewrite Z.add_0_r. reflexivity. }
  destruct (block_loop_lookup 3 (fun k r _ => f k r) body (length sorted)
              indexArray) as [Hin Hout].
  { intros i a r Hr. unfold body.
    do 3 (destruct r as [|r]; [through_inserts; reflexivity|]). lia. }
  { intros i a q Hq. unfold body.
    rewrite !list_lookup_insert_ne by lia. reflexivity. }
  assert (Hlen : length (for_loop (length sorted) body indexArray)
                 = length indexArray).
  { apply block_loop_length. intros. unfold body.
    rewrite !length_insert. reflexivity. }
  split; [exact Hlen|]. split; [|split].
  - intros k o j Ho Hj Hlt.
    rewrite Hin by (try apply (lookup_lt_Some _ _ _ Ho); exact Hj).
    destruct (lookup_lt_is_Some_2 indexArray (k * 3 + j) Hlt) as [x ->].
    unfold f. rewrite Ho. reflexivity.
  - exact Hout.
  - intros Hsize Hrange. apply list_eq_same_length with (length indexArray).
    + rewrite expandIndices_length. symmetry. exact Hsize.
    + exact Hlen.
    + intros p x y Hp Hx Hy.
      assert (Hkj : exists k j, p = (k * 3 + j)%nat /\ j < 3
                                /\ k < length sorted).
      { exists (p / 3)%nat, (p mod 3)%nat.
        pose proof (Nat.div_mod_eq p 3). pose proof (Nat.mod_upper_bound p 3).
        split; [lia|]. split; [lia|].
        apply Nat.Div0.div_lt_upper_bound. lia. }
      destruct Hkj as (k & j & -> & Hj & Hk).
      destruct (lookup_lt_is_Some_2 sorted k Hk) as [o Ho].
      rewrite Hin in Hx by assumption.
      rewrite expandIndices_lookup in Hy by assumption.
      destruct (lookup_lt_is_Some_2 indexArray (k * 3 + j) Hp) as [w Hw].
      rewrite Hw in Hx. cbn in Hx. unfold f in Hx.
      rewrite Ho in Hx, Hy. cbn [default] in Hx, Hy.
      change (Datatypes.id o) with o in Hx, Hy.
      destruct (Hrange k o Ho) as [Ho1 Ho2].
      rewrite store_uint32_small in Hx by lia. congruence.
Qed.

End IndexUpdates.

(** ** From the builder through the sort worker to the index buffer *)

Section SortedGeometry.
Import JS TypedArray Geometry Sorter SorterSpec TriangleSorter.
Variables (vertices : list Q) (triangle_indices : list Z) (opacities : list Q).
Variables (vertex_weights : option (list Q)) (colors : option (list Z)).
Variables (features_dc features_rest : option (list Q)) (sh_degree : Z).
Variable T : nat.
Hypothesis whole_triangles : length triangle_indices = (T * 3)%nat.
Hypothesis indices_in_range :
  forall k v, triangle_indices !! k = Some v ->
    (0 <= v /\ v * 3 + 2 < Z.of_nat (length vertices))%Z.

(** The centre table of a well-formed mesh holds finite numbers. *)
Lemma centres_are_finite :
  exists centers : list Q,
    triangleCenters (unrollTriangles vertices triangle_indices opacities)
    = Fin <$> centers
    /\ length centers = (T * 3)%nat.
Proof using whole_triangles indices_in_range.
  set (table := triangleCenters _).
  assert (Hfin : forall p, p < T * 3 ->
            exists q, table !! p = Some (Fin q)).
  { intros p Hp.
    assert (Hic : exists i c, p = (i * 3 + c)%nat /\ c < 3 /\ i < T).
    { exists (p / 3)%nat, (p mod 3)%nat.
      pose proof (Nat.div_mod_eq p 3). pose proof (Nat.mod_upper_bound p 3).
      split; [lia|]. split; [lia|].
      apply Nat.Div0.div_lt_upper_bound. lia. }
    destruct Hic as (i & c & -> & Hc & Hi).
    destruct (triangleCenters_lookup vertices triangle_indices opacities
                i c Hc ltac:(lia)) as [Hcen _].
    unfold table. rewrite Hcen. unfold center_coord.
    assert (Hcorner : forall j, j < 3 ->
              exists x, f32_at vertices
                          (scaled (triangle_indices !! (i * 3 + j)%nat) 3
                             (Z.of_nat c)) = Fin x).
    { intros j Hj.
      destruct (lookup_lt_is_Some_2 triangle_indices (i * 3 + j)
                  ltac:(lia)) as [v Hv].
      rewrite Hv. cbn [scaled fmap option_fmap option_map f32_at].
      destruct (indices_in_range _ _ Hv) as [Hv0 Hv1].
      rewrite get_Some by lia.
      destruct (lookup_lt_is_Some_2 vertices
                  (Z.to_nat (v * 3 + Z.of_nat c)) ltac:(lia)) as [x ->].
      exists x. reflexivity. }
    destruct (Hcorner 0%nat ltac:(lia)) as [x0 ->].
    destruct (Hcorner 1%nat ltac:(lia)) as [x1 ->].
    destruct (Hcorner 2%nat ltac:(lia)) as [x2 ->].
    eexists. reflexivity. }
  assert (Hlen : length table = (T * 3)%nat).
  { unfold table.
    destruct T as [|T'].
    - destruct triangle_indices; [reflexivity | discriminate].
    - destruct (triangleCenters_lookup vertices triangle_indices opacities
                  0 0 ltac:(lia) ltac:(lia)) as [_ Hl].
      rewrite Hl. exact whole_triangles. }
  exists (omap (fun x => match x with Fin q => Some q | _ => None end) table).
  assert (Hmap : Fin <$> omap (fun x => match x with
                                        | Fin q => Some q
                                        | _ => None
                                        end) table = table).
  { assert (Hall : Forall (fun x => exists q, x = Fin q) table).
    { apply Forall_lookup. intros p x Hx.
      apply lookup_lt_Some in Hx as Hp. rewrite Hlen in Hp.
      destruct (Hfin p Hp) as [q Hq]. exists q. congruence. }
    clear Hlen Hfin. induction Hall as [|x l [q ->] _ IH]; [reflexivity|].
    cbn. f_equal. exact IH. }
  split; [symmetry; exact Hmap|].
  rewrite <- Hlen. rewrite <- Hmap at 2. rewrite length_fmap. reflexivity.
Qed.

Lemma sorter_returns_triples numTriangles centers viewMatrix :
  exact_depths centers viewMatrix numTriangles ->
  exists order,
    sortAndPrepareIndexBuffer numTriangles centers viewMatrix
    = triples order
    /\ Permutation order (seq 0 numTriangles).
Proof using Type.
  intros Hexact.
  destruct (le (sub (maxDepth (computeDepths numTriangles centers viewMatrix))
                    (minDepth (computeDepths numTriangles centers viewMatrix)))
               (Fin DEPTH_RANGE_EPS)) eqn:Hle.
  - exists (seq 0 numTriangles). split; [|reflexivity].
    apply (early_return numTriangles centers viewMatrix Hle).
  - destruct (sorted_return numTriangles centers viewMatrix Hexact Hle)
      as (order & _ & Hout & Hperm & _).
    exists order. split; assumption.
Qed.


End SortedGeometry.

(** ** The sorter on requests that the depth store leaves unchanged *)

Section ExactStores.
Import JS TypedArray Sorter SorterSpec.




End ExactStores.

(** ** The order in which the sorter emits the triangles *)

Lemma StronglySorted_forward {A} (R : A -> A -> Prop) (l : list A)
    k1 k2 x y :
  StronglySorted R l -> k1 < k2 ->
  l !! k1 = Some x -> l !! k2 = Some y -> R x y.
Proof.
  intros Hs. revert k1 k2. induction Hs as [|a l Hs IH Hall];
    intros k1 k2 Hlt H1 H2; [discriminate|].
  destruct k2 as [|k2]; [lia|]. cbn in H2.
  destruct k1 as [|k1].
  - cbn in H1. injection H1 as ->.
    rewrite List.Forall_forall in Hall. apply Hall.
    apply list_elem_of_In. eapply list_elem_of_lookup_2. exact H2.
  - cbn in H1. apply (IH k1 k2); [lia | assumption | assumption].
Qed.

Section EmissionOrder.
Import JS TypedArray Sorter SorterSpec.
Variable numTriangles : nat.
Variables centers viewMatrix : list Q.
Variables zmin zmax : Q.
Hypothesis centers_length : length centers = (numTriangles * 3)%nat.
Hypothesis viewMatrix_length : length viewMatrix = 16%nat.
Hypothesis zmin_least : is_min_depth centers viewMatrix numTriangles zmin.
Hypothesis zmax_greatest : is_max_depth centers viewMatrix numTriangles zmax.
Hypothesis depths_differ : ~ (zmax - zmin <= DEPTH_RANGE_EPS)%Q.
Hypothesis stores_exact : exact_depths centers viewMatrix numTriangles.

Local Abbreviation out :=
  (sortAndPrepareIndexBuffer numTriangles centers viewMatrix).
Local Abbreviation depth := (spec_depth centers viewMatrix).
Local Abbreviation bucket := (spec_bucket centers viewMatrix zmin zmax).

Lemma sort_branch_order :
  exists order,
    out = triples order
    /\ Permutation order (seq 0 numTriangles)
    /\ StronglySorted (bucket_lex bucket) order.
Proof using All.
  pose proof (sort_branch_iff numTriangles centers viewMatrix zmin zmax
                centers_length viewMatrix_length zmin_least zmax_greatest)
    as Hiff. cbv zeta in Hiff.
  assert (Hle : le (sub (maxDepth (computeDepths numTriangles centers
                                     viewMatrix))
                        (minDepth (computeDepths numTriangles centers
                                     viewMatrix)))
                   (Fin DEPTH_RANGE_EPS) = false).
  { destruct (le _ _) eqn:E; [|reflexivity].
    exfalso. apply depths_differ, Hiff. reflexivity. }
  destruct (sorted_return numTriangles centers viewMatrix stores_exact Hle)
    as (order & _ & Hout & Hperm & Hsorted).
  exists order. split; [exact Hout|]. split; [exact Hperm|].
  revert Hsorted. apply StronglySorted_impl_on.
  intros x y Hx Hy. rewrite Hperm in Hx, Hy.
  apply elem_of_seq in Hx, Hy. unfold bucket_lex.
  rewrite !(spec_bucket_agrees numTriangles centers viewMatrix zmin zmax)
    by (assumption || lia).
  tauto.
Qed.

Lemma range_positive : (0 < zmax - zmin)%Q.
Proof using All.
  apply Qnot_le_lt in depths_differ. unfold DEPTH_RANGE_EPS in *.
  eapply Qlt_trans; [|exact depths_differ]. reflexivity.
Qed.

Lemma depth_in_range i :
  i < numTriangles -> (zmin <= depth i <= zmax)%Q.
Proof using All.
  intros Hi. split; [apply zmin_least | apply zmax_greatest]; exact Hi.
Qed.

Lemma bucket_monotone i j :
  (depth i <= depth j)%Q -> (bucket i <= bucket j)%Z.
Proof using All.
  intros Hle. pose proof range_positive as Hr. unfold spec_bucket.
  apply Qfloor_resp_le. unfold Qdiv.
  apply Qmult_le_compat_r.
  - apply Qmult_le_compat_r; [lra | discriminate].
  - apply Qlt_le_weak, Qinv_lt_0_compat, Hr.
Qed.

Lemma bucket_separates i j :
  ((zmax - zmin) / 65535 <= depth j - depth i)%Q ->
  (bucket i < bucket j)%Z.
Proof using All.
  intros Hgap. pose proof range_positive as Hr. unfold spec_bucket.
  set (x := ((depth i - zmin) * 65535 / (zmax - zmin))%Q).
  set (y := ((depth j - zmin) * 65535 / (zmax - zmin))%Q).
  assert (Hxy : (x + 1 <= y)%Q).
  { unfold x, y.
    assert (He : ((depth j - zmin) * 65535 / (zmax - zmin)
                  - (depth i - zmin) * 65535 / (zmax - zmin)
                  == (depth j - depth i) * 65535 / (zmax - zmin))%Q)
      by (field; lra).
    assert (H1 : (1 <= (depth j - depth i) * 65535 / (zmax - zmin))%Q).
    { apply Qle_shift_div_l; [exact Hr|].
      assert (Hm : ((zmax - zmin) / 65535 * 65535 == zmax - zmin)%Q)
        by field.
      set (g := ((zmax - zmin) / 65535)%Q) in *. lra. }
    lra. }
  pose proof (Qfloor_le x) as Hfx. pose proof (Qlt_floor y) as Hfy.
  assert (Hlt : (inject_Z (Qfloor x) + 1 < inject_Z (Qfloor y + 1))%Q)
    by lra.
  change 1%Q with (inject_Z 1) in Hlt. rewrite <- inject_Z_plus in Hlt.
  rewrite <- Zlt_Qlt in Hlt. lia.
Qed.

Lemma bucket_bounds i :
  i < numTriangles -> (0 <= bucket i <= 65535)%Z.
Proof using All.
  intros Hi. pose proof range_positive as Hr.
  destruct (depth_in_range i Hi) as [H1 H2]. unfold spec_bucket.
  set (x := ((depth i - zmin) * 65535 / (zmax - zmin))%Q).
  assert (Hx : (0 <= x <= 65535)%Q).
  { unfold x. split.
    - apply Qle_shift_div_l; [exact Hr | lra].
    - apply Qle_shift_div_r; [exact Hr | lra]. }
  destruct Hx as [Hx0 Hx1]. apply Qfloor_resp_le in Hx0, Hx1.
  change (Qfloor 0) with 0%Z in Hx0.
  change (Qfloor 65535) with 65535%Z in Hx1. lia.
Qed.

Lemma slot_of_triangle order t :
  Permutation order (seq 0 numTriangles) -> t < numTriangles ->
  exists k, k < numTriangles /\ order !! k = Some t.
Proof using All.
  intros Hperm Ht. apply (perm_slot_of numTriangles order Hperm t Ht).
Qed.



End EmissionOrder.

Section DegenerateRequests.
Import JS TypedArray Sorter SorterSpec.

Lemma add_NaN_r a : add a NaN = NaN.
Proof. destruct a; reflexivity. Qed.

Lemma mul_NaN_r a : mul a NaN = NaN.
Proof. destruct a; reflexivity. Qed.

(** X18.  The sorter returns the identity order, the triangles in input
    order, for every request with at most one triangle, for every
    request whose view matrix has fewer than 15 entries, and for every
    request whose centre array has fewer than 3 entries: no depth is a
    finite number then, or there is just one. *)
Theorem degenerate_request_keeps_input_order numTriangles centers
    viewMatrix :
  numTriangles <= 1 \/ length viewMatrix < 15 \/ length centers < 3 ->
  sortAndPrepareIndexBuffer numTriangles centers viewMatrix
  = identityIndices numTriangles
  /\ sortAndPrepareIndexBuffer numTriangles centers viewMatrix
     = map Z.of_nat (seq 0 (numTriangles * 3)).
Proof.
  intros Hcase.
  assert (Hid : sortAndPrepareIndexBuffer numTriangles centers viewMatrix
                = triples (seq 0 numTriangles)).
  { apply early_return.
    destruct (computeDepths_inv numTriangles centers viewMatrix)
      as (_ & _ & [(-> & -> & _) | (a & b & -> & -> & Hall & Hlo & Hhi)]);
      [reflexivity|].
    destruct Hlo as (j1 & Hj1 & Hz1). destruct Hhi as (j2 & Hj2 & Hz2).
    destruct Hcase as [Hone | [Hvm | Hc]].
    - assert (j1 = j2) by lia. subst j2. rewrite Hz1 in Hz2.
      injection Hz2 as <-. cbn. unfold DEPTH_RANGE_EPS.
      apply Qle_bool_iff. ring_simplify (a + - a)%Q. discriminate.
    - exfalso. unfold z_cam in Hz1. cbv zeta in Hz1.
      rewrite (lookup_ge_None_2 viewMatrix 14) in Hz1 by lia.
      cbn [of_slot] in Hz1. rewrite add_NaN_r in Hz1. discriminate.
    - exfalso. unfold z_cam in Hz1. cbv zeta in Hz1.
      rewrite (lookup_ge_None_2 centers (j1 * 3 + 2)) in Hz1 by lia.
      cbn [of_slot] in Hz1. rewrite mul_NaN_r, add_NaN_r in Hz1.
      destruct (of_slot (viewMatrix !! 14%nat)); discriminate. }
  split.
  - rewrite Hid. symmetry. apply identityIndices_triples.
  - rewrite Hid. apply triples_seq.
Qed.

End DegenerateRequests.

(** ** The corner records of a triangle in the vertex stage *)

Section CornerRecords.
Import GLSL TypedArray SHTexture VertexStage ShaderSpec.
Import VertexColours.
Local Open Scope R_scope.

Lemma geometric_main_ignores_position u a p :
  let a' := {| aTriangleMinWeight := aTriangleMinWeight a;
               aTriangleV0 := aTriangleV0 a;
               aTriangleV1 := aTriangleV1 a;
               aTriangleV2 := aTriangleV2 a;
               position := p |} in
  match main u a with
  | VertexStage.Culled => main u a' = VertexStage.Culled
  | VertexStage.Emitted gl v =>
      gl = clip u (position a)
      /\ main u a' = VertexStage.Emitted (clip u p) v
  end.
Proof.
  cbv zeta. unfold main, backface_cos, projected_of, clip. cbv zeta.
  cbn [aTriangleMinWeight aTriangleV0 aTriangleV1 aTriangleV2 position].
  repeat match goal with
         | |- context [if ?c then VertexStage.Culled else _] =>
             destruct c; [reflexivity|]
         end.
  split; reflexivity.
Qed.

(** X19.  Among the attributes that the vertex stage reads, the corner
    records of a triangle differ in [position] and [aVertexIndex] only,
    and these two enter [gl_Position] and [vColor] and nothing else: a
    record is culled if and only if the record with any other position
    and vertex index is; two emitted records hand the same geometric
    values to the fragment stage; [gl_Position] is the clip position of
    [position]; [vColor] is the colour of vertex [int(aVertexIndex)]
    seen at the world position of [position]; and the colours [vColor0],
    [vColor1], [vColor2], the only ones that the fragment stage reads,
    are the same for both records when the unspecified initial contents
    of the local arrays of their three calls are the same, and at the
    degrees 0, 1 and 3 whatever these contents of length 15 are. *)
Theorem corner_position_only_moves_gl_Position sh_degree u cu a ca
    (un un' : nat -> list (coefficient R)) p idx :
  let a' := {| aTriangleMinWeight := aTriangleMinWeight a;
               aTriangleV0 := aTriangleV0 a;
               aTriangleV1 := aTriangleV1 a;
               aTriangleV2 := aTriangleV2 a;
               position := p |} in
  let ca' := {| aVertexIndex := idx;
                aTriangleVertexIdx0 := aTriangleVertexIdx0 ca;
                aTriangleVertexIdx1 := aTriangleVertexIdx1 ca;
                aTriangleVertexIdx2 := aTriangleVertexIdx2 ca |} in
  let colour_at k uninitialized index point :=
    SH.computeVertexColor sh_degree (shDataTexture cu)
      (worldCameraPosition cu) (uninitialized k) (int index)
      (world_position cu point) in
  match vertex_main sh_degree u cu a ca un with
  | Culled => vertex_main sh_degree u cu a' ca' un' = Culled
  | Emitted gl v c =>
      gl = clip u (position a)
      /\ vColor c = colour_at 3%nat un (aVertexIndex ca) (position a)
      /\ exists c',
           vertex_main sh_degree u cu a' ca' un' = Emitted (clip u p) v c'
           /\ vColor c' = colour_at 3%nat un' idx p
           /\ ((forall k, (k < 3)%nat -> un' k = un k)
               \/ ((sh_degree = 0 \/ sh_degree = 1 \/ sh_degree = 3)%Z
                   /\ forall k, (k < 3)%nat ->
                        length (un k) = 15%nat /\ length (un' k) = 15%nat) ->
               vColor0 c' = vColor0 c /\ vColor1 c' = vColor1 c
               /\ vColor2 c' = vColor2 c
               /\ fragment_inputs v c' = fragment_inputs v c)
  end.
Proof.
  cbv zeta. unfold vertex_main.
  pose proof (geometric_main_ignores_position u a p) as Hgeo.
  cbv zeta in Hgeo.
  destruct (main u a) as [|gl v]; [rewrite Hgeo; reflexivity|].
  destruct Hgeo as [Hgl Hmain]. rewrite Hmain.
  split; [exact Hgl|]. split; [reflexivity|].
  eexists. split; [reflexivity|]. split; [reflexivity|].
  intros Hsame.
  assert (Hcol : forall k index point, (k < 3)%nat ->
            SH.computeVertexColor sh_degree (shDataTexture cu)
              (worldCameraPosition cu) (un' k) index point
            = SH.computeVertexColor sh_degree (shDataTexture cu)
                (worldCameraPosition cu) (un k) index point).
  { intros k index point Hk. destruct Hsame as [Heq | [Hd Hlen]].
    - rewrite (Heq k Hk). reflexivity.
    - destruct (Hlen k Hk) as [H1 H2].
      apply colour_ignores_uninitialized; assumption. }
  unfold fragment_inputs, colour_block. cbv zeta.
  cbn [vColor0 vColor1 vColor2 aTriangleV0 aTriangleV1 aTriangleV2
       aTriangleVertexIdx0 aTriangleVertexIdx1 aTriangleVertexIdx2].
  rewrite !Hcol by lia. repeat split; reflexivity.
Qed.

End CornerRecords.

(** ** The edges that an emitted corner hands to the fragment stage *)

Section EmittedEdges.
Import GLSL TypedArray VertexStage ShaderSpec.
Local Open Scope R_scope.

(** The edge line passes through both ends of the edge, the incenter
    lies on its non-positive side, and the normal of an edge longer than
    [1e-4] has length one. *)
Lemma oriented_edge_facts (pts : list vec2) (c : vec2) i :
  let current := elem zero2 pts i in
  let next := elem zero2 pts ((i + 1) mod 3) in
  let n := fst (fst (oriented_edge pts c i)) in
  let o := snd (fst (oriented_edge pts c i)) in
  let d := snd (oriented_edge pts c i) in
  delta n o current = 0
  /\ delta n o next = 0
  /\ d = delta n o c
  /\ (1e-4 < distance2 current next -> dot2 n n = 1).
Proof.
  cbv zeta. unfold oriented_edge, delta. cbv zeta.
  set (current := elem zero2 pts i).
  set (next := elem zero2 pts ((i + 1) mod 3)).
  cbn [sub2 x2 y2].
  assert (Hlen : length2 (Vec2 (y2 next - y2 current)
                               (- (x2 next - x2 current)))
                 = distance2 current next).
  { unfold distance2, length2, sub2. cbn [x2 y2]. f_equal. ring. }
  rewrite Hlen. set (len := distance2 current next).
  assert (Hsq : len * len
                = (x2 next - x2 current) * (x2 next - x2 current)
                  + (y2 next - y2 current) * (y2 next - y2 current)).
  { unfold len, distance2, length2, sub2. cbn [x2 y2].
    rewrite sqrt_sqrt by apply sum_of_squares_nonneg. ring. }
  destruct (greaterThan len 1e-4) eqn:Elen.
  - apply greaterThan_true in Elen.
    assert (Hunit : (y2 next - y2 current) / len
                    * ((y2 next - y2 current) / len)
                    + - (x2 next - x2 current) / len
                      * (- (x2 next - x2 current) / len) = 1).
    { unfold Rdiv.
      replace ((y2 next - y2 current) * / len
               * ((y2 next - y2 current) * / len)
               + - (x2 next - x2 current) * / len
                 * (- (x2 next - x2 current) * / len))
        with (((x2 next - x2 current) * (x2 next - x2 current)
               + (y2 next - y2 current) * (y2 next - y2 current))
              * (/ len * / len)) by ring.
      rewrite <- Hsq. field. lra. }
    destruct (greaterThan _ 0); cbn [fst snd];
      unfold dot2, neg2, div2; cbn [x2 y2].
    + split; [field; lra|]. split; [field; lra|]. split; [ring|].
      intros _. rewrite <- Hunit. ring.
    + split; [field; lra|]. split; [field; lra|]. split; [ring|].
      intros _. exact Hunit.
  - apply greaterThan_false in Elen.
    destruct (greaterThan _ 0); cbn [fst snd];
      unfold dot2, neg2; cbn [x2 y2].
    + split; [ring|]. split; [ring|]. split; [ring|]. intros H. lra.
    + split; [ring|]. split; [ring|]. split; [ring|]. intros H. lra.
Qed.

(** The whole record of varyings of an emitted corner. *)
Lemma emitted_varyings u a gl v :
  main u a = Emitted gl v ->
  let projected := projected_of u a in
  let edges :=
    edge_loop projected (incenter_of projected)
      (0.01 / aTriangleMinWeight a) (1 / sigma u) in
  vScreenPos0 v = elem zero2 projected 0
  /\ vScreenPos1 v = elem zero2 projected 1
  /\ vScreenPos2 v = elem zero2 projected 2.
Proof.
  unfold main. cbv zeta.
  repeat match goal with
         | |- context [if ?c then Culled else _] =>
             destruct c; [discriminate|]
         end.
  intros H. injection H as _ <-. cbn [vScreenPos0 vScreenPos1 vScreenPos2].
  repeat split; reflexivity.
Qed.

(** The offsets of an emitted corner are those of the edges, moved by
    the shrink amount of the first edge. *)
Lemma emitted_offsets u a gl v :
  main u a = Emitted gl v ->
  let s := shrink_amount u a in
  s <= 0
  /\ vOffset0 v = edge_offset u a 0 - s
  /\ vOffset1 v = edge_offset u a 1 - s
  /\ vOffset2 v = edge_offset u a 2 - s
  /\ vNormal0 v = edge_normal u a 0
  /\ vNormal1 v = edge_normal u a 1
  /\ vNormal2 v = edge_normal u a 2.
Proof.
  intros Hmain. apply main_emitted in Hmain. cbv zeta in Hmain.
  destruct Hmain as (Hm & _ & HP & _ & _ & _ & Hn0 & Hn1 & Hn2
                     & Ho0 & Ho1 & Ho2).
  rewrite edge_loop_unrolled in Hn0, Hn1, Hn2, Ho0, Ho1, Ho2.
  cbn [edgeNormals edgeOffsets elem nth] in Hn0, Hn1, Hn2, Ho0, Ho1, Ho2.
  cbv zeta. unfold shrink_amount, edge_offset, edge_normal, edge_distance,
    edge_of.
  set (projected := projected_of u a) in *.
  set (incenter := incenter_of projected) in *.
  set (pw := pow (0.01 / aTriangleMinWeight a) (1 / sigma u)) in *.
  set (d0 := snd (oriented_edge projected incenter 0)) in *.
  assert (Hpw : 0 < pw).
  { apply pow_pos. apply Rdiv_lt_0_compat; lra. }
  assert (Hd0 : d0 <= 0) by apply oriented_dist_nonpos.
  split; [nra|].
  assert (Hzero : d0 * pw = 0 ->
            snd (oriented_edge projected incenter 1) * pw = 0
            /\ snd (oriented_edge projected incenter 2) * pw = 0).
  { intros H. apply Rmult_integral in H as [H | H]; [|lra].
    destruct (first_distance_zero _ _ _ HP H) as [H1 H2].
    change (snd (oriented_edge projected incenter 1) = 0) in H1.
    change (snd (oriented_edge projected incenter 2) = 0) in H2.
    rewrite H1, H2. split; ring. }
  destruct (equal (d0 * pw) 0) eqn:E.
  - apply equal_true in E. destruct (Hzero E) as [H1 H2].
    rewrite H1 in Ho1, Ho2.
    assert (E0 : equal 0 0 = true) by (apply equal_true; reflexivity).
    rewrite E0, H2 in Ho2. rewrite <- E in Ho1, Ho2.
    repeat split; assumption.
  - rewrite E in Ho2. repeat split; assumption.
Qed.


End EmittedEdges.

(** ** The inradius and the opacity of a splat *)

Section Inradius.
Import GLSL TypedArray VertexStage ShaderSpec.
Local Open Scope R_scope.

(** For an edge longer than [1e-4] the oriented distance is minus the
    distance to the line of the edge. *)
Lemma oriented_dist_normalised (pts : list vec2) (c : vec2) i :
  let current := elem zero2 pts i in
  let next := elem zero2 pts ((i + 1) mod 3) in
  1e-4 < distance2 current next ->
  snd (oriented_edge pts c i)
  = - Rabs (((y2 next - y2 current) * (x2 c - x2 current)
             - (x2 next - x2 current) * (y2 c - y2 current))
            / distance2 current next).
Proof.
  cbv zeta. unfold oriented_edge. cbv zeta.
  set (current := elem zero2 pts i).
  set (next := elem zero2 pts ((i + 1) mod 3)).
  cbn [sub2 x2 y2]. intros Hlong.
  assert (Hlen : length2 (Vec2 (y2 next - y2 current)
                               (- (x2 next - x2 current)))
                 = distance2 current next).
  { unfold distance2, length2, sub2. cbn [x2 y2]. f_equal. ring. }
  rewrite Hlen. set (len := distance2 current next) in *.
  assert (Hgt : greaterThan len 1e-4 = true)
    by (apply greaterThan_true; exact Hlong).
  rewrite Hgt. unfold div2. cbn [x2 y2].
  set (t := ((y2 next - y2 current) * (x2 c - x2 current)
             - (x2 next - x2 current) * (y2 c - y2 current)) / len).
  assert (Ht : (y2 next - y2 current) / len * x2 c
               + - (x2 next - x2 current) / len * y2 c
               + - ((y2 next - y2 current) / len * x2 current
                    + - (x2 next - x2 current) / len * y2 current) = t).
  { unfold t. field. lra. }
  rewrite Ht.
  destruct (greaterThan t 0) eqn:E; cbn [snd].
  - apply greaterThan_true in E. rewrite Rabs_right by lra. reflexivity.
  - apply greaterThan_false in E. rewrite Rabs_left1 by exact E. ring.
Qed.

Variables p0 p1 p2 : vec2.
Local Abbreviation projected := [p0; p1; p2].
Local Abbreviation incenter := (incenter_of projected).
Local Abbreviation inradius :=
  (Rabs (bary_denom p0 p1 p2) / perimeter_of projected).

Hypothesis long_edges :
  1e-4 < distance2 p0 p1 /\ 1e-4 < distance2 p1 p2
  /\ 1e-4 < distance2 p2 p0.

Lemma perimeter_positive : 0 < perimeter_of projected.
Proof using long_edges.
  unfold perimeter_of. cbn [elem nth]. lra.
Qed.

(** The incenter has the same distance, the inradius, to the three
    edges. *)
Lemma incenter_distances k :
  (k < 3)%nat -> snd (oriented_edge projected incenter k) = - inradius.
Proof using long_edges.
  intros Hk. pose proof perimeter_positive as HP.
  destruct long_edges as (H01 & H12 & H20).
  assert (HPnz : perimeter_of projected <> 0) by lra.
  assert (Hscaled : forall len, 0 < len ->
            Rabs (- (len / perimeter_of projected) * bary_denom p0 p1 p2
                  / len)
            = inradius).
  { intros len Hlen.
    replace (- (len / perimeter_of projected) * bary_denom p0 p1 p2 / len)
      with (- (bary_denom p0 p1 p2 / perimeter_of projected))
      by (field; lra).
    rewrite Rabs_Ropp. unfold Rdiv. rewrite Rabs_mult.
    rewrite (Rabs_right (/ perimeter_of projected)); [reflexivity|].
    apply Rle_ge, Rlt_le, Rinv_0_lt_compat, HP. }
  assert (k = 0 \/ k = 1 \/ k = 2)%nat as [-> | [-> | ->]] by lia.
  - rewrite oriented_dist_normalised;
      change ((0 + 1) mod 3)%nat with 1%nat; cbn [elem nth];
      [|exact H01].
    rewrite (incenter_edge_0 p0 p1 p2 HPnz). f_equal. apply Hscaled. lra.
  - rewrite oriented_dist_normalised;
      change ((1 + 1) mod 3)%nat with 2%nat; cbn [elem nth];
      [|exact H12].
    rewrite (incenter_edge_1 p0 p1 p2 HPnz). f_equal. apply Hscaled. lra.
  - rewrite oriented_dist_normalised;
      change ((2 + 1) mod 3)%nat with 0%nat; cbn [elem nth];
      [|exact H20].
    rewrite (incenter_edge_2 p0 p1 p2 HPnz). f_equal. apply Hscaled. lra.
Qed.

End Inradius.

Section SplatProfile.
Import GLSL TypedArray VertexStage ShaderSpec Pipeline.
Local Open Scope R_scope.

Lemma Rmax_shift a b c s :
  Rmax (a - s) (Rmax (b - s) (c - s)) = Rmax a (Rmax b c) - s.
Proof.
  unfold Rmax. repeat destruct (Rle_dec _ _); lra.
Qed.

Lemma Rmax_pos_iff a b c :
  0 < Rmax a (Rmax b c) <-> 0 < a \/ 0 < b \/ 0 < c.
Proof.
  unfold Rmax. repeat destruct (Rle_dec _ _); lra.
Qed.

(** The fragment stage on the outputs of an emitted corner, in terms of
    the largest signed distance [M] to the three shrunk edges. *)
Lemma fragment_of_distances sigma' p (v : FragmentStage.inputs) :
  let M :=
    Rmax (delta (FragmentStage.vNormal0 v) (FragmentStage.vOffset0 v) p)
      (Rmax (delta (FragmentStage.vNormal1 v) (FragmentStage.vOffset1 v) p)
            (delta (FragmentStage.vNormal2 v) (FragmentStage.vOffset2 v) p))
  in
  let alpha :=
    Rmin 0.99
      (FragmentStage.vTriangleMinWeight v
       * pow (Rmax 0 (M * FragmentStage.vPhiCenterScale v)) sigma') in
  (0 < M \/ alpha < 1 / 255 -> FragmentStage.main sigma' p v
                               = FragmentStage.Discarded)
  /\ (M <= 0 -> 1 / 255 <= alpha ->
      FragmentStage.main sigma' p v
      = FragmentStage.FragColor
          (vec4_of
             (scale3 alpha
                (interpolate
                   (FragmentStage.computeBarycentric p
                      (FragmentStage.vScreenPos0 v)
                      (FragmentStage.vScreenPos1 v)
                      (FragmentStage.vScreenPos2 v))
                   (FragmentStage.vColor0 v) (FragmentStage.vColor1 v)
                   (FragmentStage.vColor2 v)))
             alpha)).
Proof.
  cbv zeta. unfold FragmentStage.main, delta. cbv zeta.
  set (d0 := dot2 _ p + _). set (d1 := dot2 _ p + _).
  set (d2 := dot2 _ p + _).
  pose proof (Rmax_pos_iff d0 d1 d2) as HM.
  set (M := Rmax d0 (Rmax d1 d2)) in *.
  assert (HCx : Rmax 0 (pow (Rmax (M * FragmentStage.vPhiCenterScale v) 0)
                          sigma')
                = pow (Rmax 0 (M * FragmentStage.vPhiCenterScale v)) sigma').
  { rewrite (Rmax_comm (M * FragmentStage.vPhiCenterScale v) 0).
    apply Rmax_right. apply pow_nonneg. }
  rewrite HCx.
  destruct (greaterThan d0 0) eqn:E0; [apply greaterThan_true in E0
                                      | apply greaterThan_false in E0];
  destruct (greaterThan d1 0) eqn:E1; [apply greaterThan_true in E1
                                      | apply greaterThan_false in E1 | |];
  destruct (greaterThan d2 0) eqn:E2;
    try apply greaterThan_true in E1; try apply greaterThan_false in E1;
    try apply greaterThan_true in E2; try apply greaterThan_false in E2;
    cbn [orb];
    try (split; [reflexivity | intros HM0; exfalso;
                               assert (0 < M) by (apply HM; lra); lra]).
  assert (HM0 : ~ 0 < M) by (intros H; apply HM in H; lra).
  split.
  - intros [H | H]; [contradiction|].
    apply lessThan_true in H. rewrite H. reflexivity.
  - intros _ H. destruct (lessThan _ (1 / 255)) eqn:E;
      [apply lessThan_true in E; lra | reflexivity].
Qed.



(** X23.  A fragment that the fragment stage writes for an emitted
    corner lies on the side of the incenter of each of the three edge
    lines of the projected triangle, at least [|s|] pixels inside for
    the shrink amount [s] (the normals being of length one): nothing is
    drawn outside the projected triangle. *)
Theorem written_fragment_is_inside_triangle u a gl v c0 c1 c2 sigma' p
    rgba :
  main u a = Emitted gl v ->
  FragmentStage.main sigma' p (fragment_inputs v c0 c1 c2)
  = FragmentStage.FragColor rgba ->
  forall k, (k < 3)%nat ->
    delta (edge_normal u a k) (edge_offset u a k) p <= shrink_amount u a
    /\ shrink_amount u a <= 0
    /\ delta (edge_normal u a k) (edge_offset u a k)
         (incenter_of (projected_of u a)) <= 0.
Proof.
  intros Hmain Hfrag k Hk.
  destruct (emitted_offsets u a gl v Hmain)
    as (Hs & Ho0 & Ho1 & Ho2 & Hn0 & Hn1 & Hn2).
  cbv zeta in Hs, Ho0, Ho1, Ho2.
  pose proof (fragment_of_distances sigma' p (fragment_inputs v c0 c1 c2))
    as [Hdiscard _].
  cbn [fragment_inputs FragmentStage.vNormal0 FragmentStage.vNormal1
       FragmentStage.vNormal2 FragmentStage.vOffset0 FragmentStage.vOffset1
       FragmentStage.vOffset2 FragmentStage.vTriangleMinWeight
       FragmentStage.vPhiCenterScale] in Hdiscard.
  rewrite Hn0, Hn1, Hn2, Ho0, Ho1, Ho2 in Hdiscard.
  assert (HM : ~ 0 < Rmax
                 (delta (edge_normal u a 0)
                    (edge_offset u a 0 - shrink_amount u a) p)
                 (Rmax
                    (delta (edge_normal u a 1)
                       (edge_offset u a 1 - shrink_amount u a) p)
                    (delta (edge_normal u a 2)
                       (edge_offset u a 2 - shrink_amount u a) p))).
  { intros H. rewrite Hdiscard in Hfrag by (left; exact H).
    discriminate. }
  rewrite Rmax_pos_iff in HM. unfold delta in *.
  pose proof (oriented_edge_facts (projected_of u a)
                (incenter_of (projected_of u a)) k) as (_ & _ & Hd & _).
  cbv zeta in Hd.
  pose proof (oriented_dist_nonpos (projected_of u a)
                (incenter_of (projected_of u a)) k) as Hneg.
  cbv beta in Hneg. unfold delta in Hd. rewrite Hd in Hneg.
  split; [|split; [exact Hs | exact Hneg]].
  assert (k = 0 \/ k = 1 \/ k = 2)%nat as [-> | [-> | ->]] by lia; lra.
Qed.

(** X24.  Whatever its inputs, the fragment stage never writes an alpha
    below [1/255] or above [0.99], and a splat whose three corners have
    the same colour [c] is written as [(alpha * c, alpha)], also when
    the barycentric coordinates are degenerate. *)
Theorem written_alpha_is_bounded sigma' p (v : FragmentStage.inputs)
    rgba :
  FragmentStage.main sigma' p v = FragmentStage.FragColor rgba ->
  1 / 255 <= w4 rgba <= 0.99
  /\ forall c,
       FragmentStage.vColor0 v = c -> FragmentStage.vColor1 v = c ->
       FragmentStage.vColor2 v = c ->
       xyz rgba = scale3 (w4 rgba) c.
Proof.
  intros Hfrag.
  pose proof (fragment_of_distances sigma' p v) as [Hdiscard Hwrite].
  set (M := Rmax _ (Rmax _ _)) in *.
  set (alpha := Rmin 0.99 _) in *.
  destruct (Rlt_dec 0 M) as [HM | HM];
    [rewrite Hdiscard in Hfrag by (left; exact HM); discriminate|].
  destruct (Rlt_dec alpha (1 / 255)) as [Ha | Ha];
    [rewrite Hdiscard in Hfrag by (right; exact Ha); discriminate|].
  rewrite Hwrite in Hfrag by lra. injection Hfrag as <-.
  cbn [vec4_of w4]. split.
  - split; [lra | apply Rmin_l].
  - intros c -> E1 E2. rewrite E1, E2.
    set (beta := FragmentStage.computeBarycentric _ _ _ _).
    assert (Hsum : x3 beta + y3 beta + z3 beta = 1).
    { unfold beta, FragmentStage.computeBarycentric. cbv zeta.
      destruct (lessThan _ _); cbn [x3 y3 z3]; lra. }
    unfold xyz, interpolate, scale3, add3. cbn [x4 y4 z4 x3 y3 z3].
    assert (Hmix : forall al t : R,
              al * (x3 beta * t + y3 beta * t + z3 beta * t) = al * t).
    { intros al t.
      replace (x3 beta * t + y3 beta * t + z3 beta * t)
        with ((x3 beta + y3 beta + z3 beta) * t) by ring.
      rewrite Hsum. ring. }
    apply Vec3_eq; apply Hmix.
Qed.

End SplatProfile.

(** ** The filtering statistics *)

Section SortedWeights.
Import JS Analyze.

Local Abbreviation finite := (fun a : number => exists q, a = Fin q).
Local Abbreviation ordered := (fun a b : number => le a b = true).

Lemma insert_by_difference_length x l :
  length (insert_by_difference x l) = S (length l).
Proof.
  induction l as [|y l IH]; cbn [insert_by_difference length];
    [reflexivity|].
  destruct (lt (sub x y) (Fin 0)); cbn [length]; [reflexivity|].
  rewrite IH. reflexivity.
Qed.

Lemma sort_by_difference_length l :
  length (sort_by_difference l) = length l.
Proof.
  unfold sort_by_difference.
  assert (H : forall acc,
            length (fold_left
                      (fun sorted x => insert_by_difference x sorted) l acc)
            = (length acc + length l)%nat).
  { induction l as [|x l IH]; intros acc; cbn [fold_left length]; [lia|].
    rewrite IH, insert_by_difference_length. lia. }
  rewrite H. reflexivity.
Qed.

Lemma insert_by_difference_perm x l :
  Permutation (insert_by_difference x l) (x :: l).
Proof.
  induction l as [|y l IH]; cbn [insert_by_difference]; [reflexivity|].
  destruct (lt (sub x y) (Fin 0)); [reflexivity|].
  rewrite IH. apply perm_swap.
Qed.

Lemma sort_by_difference_perm l : Permutation (sort_by_difference l) l.
Proof.
  unfold sort_by_difference.
  assert (H : forall acc,
            Permutation
              (fold_left (fun sorted x => insert_by_difference x sorted)
                 l acc)
              (acc ++ l)).
  { induction l as [|x l IH]; intros acc; cbn [fold_left].
    - rewrite app_nil_r. reflexivity.
    - rewrite IH, insert_by_difference_perm.
      rewrite (Permutation_middle acc l x). reflexivity. }
  apply (H []).
Qed.

Lemma difference_negative (x y : Q) :
  lt (sub (Fin x) (Fin y)) (Fin 0) = true <-> (x < y)%Q.
Proof.
  cbn [sub neg add lt]. rewrite Qlt_bool_iff. split; intros H; lra.
Qed.

Lemma ordered_Fin (x y : Q) : ordered (Fin x) (Fin y) <-> (x <= y)%Q.
Proof. cbn [le]. apply Qle_bool_iff. Qed.

Lemma insert_by_difference_sorted x l :
  finite x -> Forall finite l ->
  StronglySorted ordered l ->
  StronglySorted ordered (insert_by_difference x l).
Proof.
  intros [qx ->] Hfin Hsorted.
  induction Hsorted as [|y l Hl IH Hy]; cbn [insert_by_difference].
  - constructor; [constructor | constructor].
  - apply Forall_cons in Hfin as [[qy ->] Hfin].
    destruct (lt (sub (Fin qx) (Fin qy)) (Fin 0)) eqn:E.
    + apply difference_negative in E.
      constructor; [constructor; assumption|].
      constructor; [apply ordered_Fin; lra|].
      eapply Forall_impl; [exact Hy|].
      intros a Ha. cbv beta in Ha.
      destruct a as [| | |qa]; cbn [le] in *; try discriminate;
        try reflexivity.
      apply Qle_bool_iff in Ha. apply Qle_bool_iff. lra.
    + assert (Hle : (qy <= qx)%Q).
      { destruct (Qlt_le_dec qx qy) as [Hlt | Hle]; [|exact Hle].
        apply difference_negative in Hlt. congruence. }
      constructor; [apply IH, Hfin|].
      rewrite insert_by_difference_perm.
      constructor; [apply ordered_Fin; exact Hle | exact Hy].
Qed.

Lemma sort_by_difference_sorted l :
  Forall finite l -> StronglySorted ordered (sort_by_difference l).
Proof.
  unfold sort_by_difference. intros Hfin.
  assert (H : forall acc,
            Forall finite acc -> StronglySorted ordered acc ->
            StronglySorted ordered
              (fold_left (fun sorted x => insert_by_difference x sorted)
                 l acc)).
  { induction Hfin as [|x l Hx Hl IH]; intros acc Hacc Hsorted;
      cbn [fold_left]; [exact Hsorted|].
    apply IH.
    - rewrite insert_by_difference_perm. constructor; assumption.
    - apply insert_by_difference_sorted; assumption. }
  apply H; constructor.
Qed.

End SortedWeights.

Section Analysis.
Import JS TypedArray Geometry Analyze SorterSpec.
Variables (vertices : list Q) (triangle_indices : list Z).
Variable opacities : list Q.

Local Abbreviation m := (triangleMinWeight triangle_indices opacities).
Local Abbreviation culled :=
  (fun i => lt (m i) (Fin STOPPING_INFLUENCE)).
Local Abbreviation scan n :=
  (for_loop n (scan_step triangle_indices opacities)
     {| scan_filtered := 0;
        scan_weights := [];
        scan_min := PosInf;
        scan_max := NegInf;
        scan_sum := Fin 0 |}).

Lemma scan_step_fields i s :
  scan_step triangle_indices opacities i s
  = {| scan_filtered :=
         if culled i then (scan_filtered s + 1)%Z else scan_filtered s;
       scan_weights := scan_weights s ++ [m i];
       scan_min := min2 (scan_min s) (m i);
       scan_max := max2 (scan_max s) (m i);
       scan_sum := add (scan_sum s) (m i) |}.
Proof.
  unfold scan_step, triangleMinWeight. cbv zeta.
  rewrite Nat.add_0_r. reflexivity.
Qed.

(** The list of weights and the counter, for every input. *)
Lemma scan_weights_filtered n :
  scan_weights (scan n) = map m (seq 0 n)
  /\ scan_filtered (scan n) = Z.of_nat (count_below culled n).
Proof.
  induction n as [|n [IHw IHf]]; [split; reflexivity|].
  rewrite for_loop_S, scan_step_fields.
  cbn [scan_weights scan_filtered count_below].
  rewrite IHw, IHf, seq_S, map_app. split; [reflexivity|].
  destruct (lt (m n) (Fin STOPPING_INFLUENCE)); lia.
Qed.

Lemma trip_count_third :
  trip_count (third_of_length triangle_indices)
  = Z.to_nat (- ((- Z.of_nat (length triangle_indices)) / 3)).
Proof.
  unfold trip_count, third_of_length, Qceiling. f_equal. f_equal.
  rewrite (Qfloor_comp _ ((- Z.of_nat (length triangle_indices)) # 3));
    [reflexivity|].
  unfold Qeq, Qdiv, Qmult, Qinv, Qopp, inject_Z. cbn. lia.
Qed.

Lemma median_index :
  Z.to_nat (Qfloor (third_of_length triangle_indices / 2))
  = Z.to_nat (Z.of_nat (length triangle_indices) / 6).
Proof.
  unfold third_of_length. f_equal.
  rewrite (Qfloor_comp _ (Z.of_nat (length triangle_indices) # 6));
    [reflexivity|].
  unfold Qeq, Qdiv, Qmult, Qinv, inject_Z. cbn. lia.
Qed.

(** With [debug] on, the report throws exactly on a mesh without
    indices. *)
Lemma analysis_throws_iff :
  analyzeTriangleFiltering vertices triangle_indices opacities true
  = TypeError
  <-> triangle_indices = [].
Proof.
  unfold analyzeTriangleFiltering. cbn [negb]. cbv zeta.
  set (sorted := sort_by_difference _).
  assert (Hlen : length sorted
                 = Z.to_nat
                     (- ((- Z.of_nat (length triangle_indices)) / 3))).
  { unfold sorted. rewrite sort_by_difference_length.
    rewrite (proj1 (scan_weights_filtered _)), length_map, length_seq.
    apply trip_count_third. }
  rewrite median_index.
  destruct (sorted !! _) as [median|] eqn:E.
  + split; [discriminate|]. intros ->.
    apply lookup_lt_Some in E. rewrite Hlen in E.
    change (length (@nil Z)) with 0%nat in E.
    change (Z.of_nat 0) with 0%Z in E.
    change (- 0)%Z with 0%Z in E.
    rewrite !Z.div_0_l in E by lia. cbn in E. lia.
  + split; [|reflexivity]. intros _.
    apply lookup_ge_None in E. rewrite Hlen in E.
    destruct triangle_indices as [|v l]; [reflexivity|].
    exfalso. cbn [length] in E.
    set (L := Z.of_nat (S (length l))) in *.
    assert (HL : (0 < L)%Z) by (unfold L; lia).
    clearbody L.
    pose proof (Z.div_mod L 6 ltac:(lia)) as H6.
    pose proof (Z.mod_pos_bound L 6 ltac:(lia)) as B6.
    pose proof (Z.div_mod (- L) 3 ltac:(lia)) as H3.
    pose proof (Z.mod_pos_bound (- L) 3 ltac:(lia)) as B3.
    lia.
Qed.

(** X25.  With [debug] off the analysis returns the all-zero record
    without reading its inputs: the count of filtered triangles, the
    total, the percentage and the least, greatest, mean and median
    weight are all 0.  With [debug] on it throws, at the report of the
    median, exactly when the mesh has no index at all; it returns for
    every other input, also for indices out of range. *)
Theorem analysis_throws_on_empty_mesh :
  analyzeTriangleFiltering vertices triangle_indices opacities false
  = Returned
      {| minWeightFiltered := 0;
         totalTriangles := 0;
         filterPercentage := Fin 0;
         weightStats := {| ws_min := Fin 0; ws_max := Fin 0;
                           ws_mean := Fin 0; ws_median := Fin 0 |} |}
  /\ (analyzeTriangleFiltering vertices triangle_indices opacities true
      = TypeError
      <-> triangle_indices = []).
Proof.
  split.
  - reflexivity.
  - apply analysis_throws_iff.
Qed.

Hypothesis indices_in_range :
  forall k v, triangle_indices !! k = Some v ->
    (0 <= v < Z.of_nat (length opacities))%Z.
Variable T : nat.
Hypothesis whole_triangles : length triangle_indices = (T * 3)%nat.

Lemma weight_is_finite i : (i < T)%nat -> exists q, m i = Fin q.
Proof using indices_in_range whole_triangles.
  intros Hi. unfold triangleMinWeight. cbv zeta.
  assert (Hidx : forall j, (j < 3)%nat ->
            exists v w, triangle_indices !! (i * 3 + j)%nat = Some v
                        /\ get opacities v = Some w).
  { intros j Hj.
    destruct (lookup_lt_is_Some_2 triangle_indices (i * 3 + j)%nat
                ltac:(lia)) as [v Hv].
    pose proof (indices_in_range _ _ Hv) as Hr.
    destruct (lookup_lt_is_Some_2 opacities (Z.to_nat v) ltac:(lia))
      as [w Hw].
    exists v, w. split; [exact Hv|]. rewrite get_Some by exact Hr.
    exact Hw. }
  destruct (Hidx 0%nat ltac:(lia)) as (v0 & w0 & -> & H0).
  destruct (Hidx 1%nat ltac:(lia)) as (v1 & w1 & -> & H1).
  destruct (Hidx 2%nat ltac:(lia)) as (v2 & w2 & -> & H2).
  cbn [f32_at]. rewrite H0, H1, H2. cbn [of_slot].
  destruct (min3_Fin w0 w1 w2) as (q & -> & _). exists q. reflexivity.
Qed.

Lemma trip_count_triangles :
  trip_count (third_of_length triangle_indices) = T.
Proof using whole_triangles.
  rewrite trip_count_third, whole_triangles.
  rewrite Nat2Z.inj_mul. change (Z.of_nat 3) with 3%Z.
  replace (- (Z.of_nat T * 3))%Z with ((- Z.of_nat T) * 3)%Z by lia.
  rewrite Z.div_mul by lia. lia.
Qed.

(** The running minimum and maximum of the loop. *)
Lemma scan_extrema n :
  (0 < n <= T)%nat ->
  (exists a, (a < n)%nat /\ scan_min (scan n) = m a)
  /\ (exists b, (b < n)%nat /\ scan_max (scan n) = m b)
  /\ forall i, (i < n)%nat ->
       le (scan_min (scan n)) (m i) = true
       /\ le (m i) (scan_max (scan n)) = true.
Proof using indices_in_range whole_triangles.
  induction n as [|n IH]; [lia|]. intros Hn.
  rewrite for_loop_S, scan_step_fields. cbn [scan_min scan_max].
  destruct (weight_is_finite n ltac:(lia)) as [q Hq].
  destruct (Nat.eq_dec n 0) as [-> | Hpos].
  - cbn [for_loop seq fold_left scan_min scan_max]. rewrite Hq.
    cbn [min2 max2 lt].
    split; [exists 0%nat; split; [lia | symmetry; exact Hq]|].
    split; [exists 0%nat; split; [lia | symmetry; exact Hq]|].
    intros i Hi. replace i with 0%nat by lia. rewrite Hq. cbn [le].
    split; apply Qle_bool_iff; lra.
  - destruct (IH ltac:(lia)) as ((a & Ha & Hmin) & (b & Hb & Hmax) & Hall).
    destruct (weight_is_finite a ltac:(lia)) as [qa Hqa].
    destruct (weight_is_finite b ltac:(lia)) as [qb Hqb].
    rewrite Hmin, Hmax in *. rewrite Hqa, Hqb, Hq in *.
    cbn [min2 max2 lt].
    assert (Hold : forall i, (i < n)%nat ->
              exists qi, m i = Fin qi /\ (qa <= qi <= qb)%Q).
    { intros i Hi. destruct (weight_is_finite i ltac:(lia)) as [qi Hqi].
      exists qi. split; [exact Hqi|].
      destruct (Hall i Hi) as [H1 H2]. rewrite Hqi in H1, H2.
      cbn [le] in H1, H2. apply Qle_bool_iff in H1, H2. lra. }
    destruct (Qlt_bool q qa) eqn:Elo; destruct (Qlt_bool qb q) eqn:Ehi;
      try apply Qlt_bool_iff in Elo; try apply Qlt_bool_false in Elo;
      try apply Qlt_bool_iff in Ehi; try apply Qlt_bool_false in Ehi.
    all: split;
      [first [exists n; split; [lia | symmetry; exact Hq]
             | exists a; split; [lia | symmetry; exact Hqa]]|].
    all: split;
      [first [exists n; split; [lia | symmetry; exact Hq]
             | exists b; split; [lia | symmetry; exact Hqb]]|].
    all: intros i Hi; destruct (Nat.eq_dec i n) as [-> | Hne];
      [rewrite Hq
      | destruct (Hold i ltac:(lia)) as (qi & -> & Hlo & Hhi)];
      cbn [le]; split; apply Qle_bool_iff; lra.
Qed.

(** X26.  For a mesh of [T > 0] whole triangles with every index in
    range, the analysis with [debug] on returns: the number of triangles
    is [T]; the filtered count is the number of triangles whose minimum
    weight, as the builder stores it, is below [0.01]; the reported
    minimum and maximum are attained by a triangle and bound the minimum
    weight of every triangle. *)
Theorem analysis_counts_culled_triangles :
  (0 < T)%nat ->
  exists r,
    analyzeTriangleFiltering vertices triangle_indices opacities true
    = Returned r
    /\ (totalTriangles r == inject_Z (Z.of_nat T))%Q
    /\ minWeightFiltered r = Z.of_nat (count_below culled T)
    /\ (exists a, (a < T)%nat /\ ws_min (weightStats r) = m a)
    /\ (exists b, (b < T)%nat /\ ws_max (weightStats r) = m b)
    /\ forall i, (i < T)%nat ->
         le (ws_min (weightStats r)) (m i) = true
         /\ le (m i) (ws_max (weightStats r)) = true.
Proof using indices_in_range whole_triangles.
  intros HT.
  destruct (analyzeTriangleFiltering vertices triangle_indices opacities
              true) as [r|] eqn:E.
  2:{ apply analysis_throws_iff in E.
      rewrite E in whole_triangles. cbn in whole_triangles. lia. }
  exists r. split; [reflexivity|].
  unfold analyzeTriangleFiltering in E. cbn [negb] in E. cbv zeta in E.
  destruct (sort_by_difference _ !! _) as [median|]; [|discriminate].
  injection E as <-.
  cbn [totalTriangles minWeightFiltered weightStats ws_min ws_max].
  rewrite trip_count_triangles.
  split.
  { unfold third_of_length. rewrite whole_triangles, Nat2Z.inj_mul.
    rewrite inject_Z_mult. change (inject_Z (Z.of_nat 3)) with 3%Q.
    field. }
  split; [apply scan_weights_filtered|].
  destruct (scan_extrema T ltac:(lia)) as (Hmin & Hmax & Hall).
  split; [exact Hmin|]. split; [exact Hmax | exact Hall].
Qed.

(** X27.  For the same meshes the reported median is the entry at
    position [T / 2] of the minimum weights of the triangles in
    ascending order: the upper median when [T] is even. *)
Theorem analysis_median_is_middle_weight :
  (0 < T)%nat ->
  exists r sorted,
    analyzeTriangleFiltering vertices triangle_indices opacities true
    = Returned r
    /\ Permutation sorted (map m (seq 0 T))
    /\ StronglySorted (fun a b => le a b = true) sorted
    /\ sorted !! (T / 2)%nat = Some (ws_median (weightStats r)).
Proof using indices_in_range whole_triangles.
  intros HT.
  destruct (analyzeTriangleFiltering vertices triangle_indices opacities
              true) as [r|] eqn:E.
  2:{ apply analysis_throws_iff in E.
      rewrite E in whole_triangles. cbn in whole_triangles. lia. }
  exists r, (sort_by_difference (map m (seq 0 T))).
  split; [reflexivity|].
  split; [apply sort_by_difference_perm|].
  split.
  { apply sort_by_difference_sorted. apply Forall_forall.
    intros x Hx. apply list_elem_of_fmap in Hx as (i & -> & Hi).
    apply elem_of_seq in Hi. apply weight_is_finite. lia. }
  unfold analyzeTriangleFiltering in E. cbn [negb] in E. cbv zeta in E.
  rewrite trip_count_triangles in E.
  rewrite (proj1 (scan_weights_filtered T)) in E.
  rewrite median_index, whole_triangles in E.
  replace (Z.to_nat (Z.of_nat (T * 3) / 6)) with (T / 2)%nat in E.
  2:{ rewrite Nat2Z.inj_mul. change (Z.of_nat 3) with 3%Z.
      replace 6%Z with (3 * 2)%Z by lia.
      rewrite Z.mul_comm, Z.div_mul_cancel_l by lia.
      change 2%Z with (Z.of_nat 2). rewrite <- Nat2Z.inj_div.
      rewrite Nat2Z.id. reflexivity. }
  destruct (sort_by_difference _ !! _) as [median|]; [|discriminate].
  injection E as <-. reflexivity.
Qed.

End Analysis.

(* ================================================================== *)
(** * Part VII: the further properties on sample inputs *)
(* ================================================================== *)

Section BuilderWitnesses.
Import JS TypedArray Geometry GeometrySpec Samples SHTexture.

Lemma corner_record_copies_vertex_witness :
  exists g,
    createTriangleSplatsGeometry quad_vertices quad_indices quad_opacities
      None None None None 0 = Some g
    /\ position g !! 15%nat = Some (Fin 0)
    /\ position g !! 16%nat = Some (Fin 1)
    /\ aOpacity g !! 5%nat = Some (Fin (1 # 2))
    /\ aVertexIndex g !! 5%nat = Some (Fin 3).
Proof.
  destruct (corner_record_copies_vertex quad_vertices quad_indices
              quad_opacities None None None None 0 1%nat 2%nat)
    as (g & Hg & Hp & Ho & _ & Hv & _).
  - lia.
  - simpl. lia.
  - exists g. split; [exact Hg|].
    split; [exact (Hp 0%nat ltac:(lia))|].
    split; [exact (Hp 1%nat ltac:(lia))|].
    split; [exact Ho | apply (Hv 3%Z); [reflexivity | lia]].
Defined.

Lemma corner_barycentric_is_unit_witness :
  exists g,
    createTriangleSplatsGeometry quad_vertices quad_indices quad_opacities
      None None None None 0 = Some g
    /\ aBarycentric g !! 17%nat = Some (Fin 1)
    /\ length (aBarycentric g) = 18%nat.
Proof.
  destruct (corner_barycentric_is_unit quad_vertices quad_indices
              quad_opacities None None None None 0 1%nat 2%nat 2%nat)
    as (g & Hg & Hb & Hlen).
  - lia.
  - lia.
  - simpl. lia.
  - exists g. split; [exact Hg|]. split; [exact Hb | exact Hlen].
Defined.

Lemma triangle_attributes_repeat_corners_witness :
  exists g o0 o1 o2,
    createTriangleSplatsGeometry quad_vertices quad_indices quad_opacities
      None None None None 0 = Some g
    /\ aOpacity g !! 3%nat = Some o0
    /\ aOpacity g !! 4%nat = Some o1
    /\ aOpacity g !! 5%nat = Some o2
    /\ aTriangleOpacity0 g !! 4%nat = Some o0
    /\ aTriangleOpacity1 g !! 4%nat = Some o1
    /\ aTriangleOpacity2 g !! 4%nat = Some o2.
Proof.
  destruct (triangle_attributes_repeat_corners quad_vertices quad_indices
              quad_opacities None None None None 0 1%nat 1%nat)
    as (g & Hg & _ & (o0 & o1 & o2 & H) & _).
  - lia.
  - simpl. lia.
  - exists g, o0, o1, o2. split; [exact Hg | exact H].
Defined.

Lemma min_weight_of_stored_opacities_witness :
  exists g w0 w1 w2,
    createTriangleSplatsGeometry quad_vertices quad_indices quad_opacities
      None None None None 0 = Some g
    /\ aTriangleOpacity0 g !! 1%nat = Some w0
    /\ aTriangleOpacity1 g !! 1%nat = Some w1
    /\ aTriangleOpacity2 g !! 1%nat = Some w2
    /\ aTriangleMinWeight g !! 1%nat = Some (min3 w0 w1 w2).
Proof.
  apply (min_weight_of_stored_opacities quad_vertices quad_indices
           quad_opacities None None None None 0 0%nat 1%nat).
  - lia.
  - simpl. lia.
Defined.

Lemma center_is_mean_of_corners_witness :
  exists g p0 p1 p2,
    createTriangleSplatsGeometry quad_vertices quad_indices quad_opacities
      None None None None 0 = Some g
    /\ position g !! 9%nat = Some p0
    /\ position g !! 12%nat = Some p1
    /\ position g !! 15%nat = Some p2
    /\ geom_triangleCenters g !! 3%nat
       = Some (div (add (add p0 p1) p2) (Fin 3)).
Proof.
  destruct (center_is_mean_of_corners quad_vertices quad_indices
              quad_opacities None None None None 0 1%nat 0%nat)
    as (g & p0 & p1 & p2 & Hg & H0 & H1 & H2 & Hc & _).
  - lia.
  - simpl. lia.
  - exists g, p0, p1, p2. repeat split; assumption.
Defined.

Lemma corner_colour_is_scaled_byte_witness :
  exists g a,
    createTriangleSplatsGeometry quad_vertices quad_indices quad_opacities
      None (Some quad_colors) None None 0 = Some g
    /\ aColor g = Some a
    /\ a !! 15%nat = Some (Fin (51 / 255)).
Proof.
  destruct (corner_colour_is_scaled_byte quad_vertices quad_indices
              quad_opacities None (Some quad_colors) None None 0
              5%nat 0%nat) as (g & Hg & _ & Hc).
  - simpl. lia.
  - lia.
  - destruct (Hc quad_colors eq_refl) as (a & Ha & _ & _ & Hbyte).
    exists g, a. split; [exact Hg|]. split; [exact Ha|].
    apply (Hbyte 3%Z 51%Z); [reflexivity | reflexivity | lia].
Defined.

Lemma sh_texture_layout_witness :
  exists g t,
    createTriangleSplatsGeometry quad_vertices quad_indices quad_opacities
      None None (Some quad_features_dc) None 0 = Some g
    /\ shDataTexture g = Some t
    /\ tex_data t !! 50%nat = Some (Fin 6)
    /\ tex_data t !! 51%nat = Some (Fin 0).
Proof.
  destruct (sh_texture_layout quad_vertices quad_indices quad_opacities
              None None None 0 quad_features_dc 1%nat 2%nat)
    as (g & t & Hg & Ht & H2); [lia | lia | simpl; lia |].
  destruct (sh_texture_layout quad_vertices quad_indices quad_opacities
              None None None 0 quad_features_dc 1%nat 3%nat)
    as (g' & t' & Hg' & Ht' & H3); [lia | lia | simpl; lia |].
  rewrite Hg in Hg'. injection Hg' as <-.
  rewrite Ht in Ht'. injection Ht' as <-.
  exists g, t. split; [exact Hg|]. split; [exact Ht|].
  split; [exact H2 | exact H3].
Defined.

Lemma shader_reads_packed_coefficients_witness :
  exists g t f_rest,
    createTriangleSplatsGeometry quad_vertices quad_indices quad_opacities
      None None (Some quad_features_dc) (Some quad_features_rest) 1
    = Some g
    /\ shDataTexture g = Some t
    /\ loadCoefficients (Fin 0) 1
         (fetchSHDataAt (tex_data t) (Z.of_nat (tex_width t))
            (Z.of_nat (tex_height t)) 3)
         unset_numbers
       = Some f_rest
    /\ f_rest !! 2%nat = Some (Fin (33 / 4), Fin (34 / 4), Fin (35 / 4))
    /\ f_rest !! 3%nat = Some (NaN, NaN, NaN).
Proof.
  destruct (shader_reads_packed_coefficients quad_vertices quad_indices
              quad_opacities None None (Some quad_features_rest) 1
              quad_features_dc 3%nat unset_numbers)
    as (g & t & Hg & Ht & _ & f_rest & Hload & _ & Hin & Hout).
  - lia.
  - simpl. lia.
  - lia.
  - reflexivity.
  - exists g, t, f_rest. split; [exact Hg|]. split; [exact Ht|].
    split; [exact Hload|].
    split; [exact (Hin 2%nat ltac:(simpl; lia))
           | exact (Hout 3%nat ltac:(simpl; lia))].
Defined.

End BuilderWitnesses.

Section ColourWitnesses.
Import GLSL SHTexture SH Samples.
Local Open Scope R_scope.

Lemma dc_texture_fetch i :
  (0 <= i < 12)%Z ->
  exists t,
    fetchSHDataAt (texels dc_texture) (texSize_x dc_texture)
      (texSize_y dc_texture) 0 i = Some t
    /\ tw t = 0
    /\ ((0 < i)%Z -> tx t = 0 /\ ty t = 0 /\ tz t = 0).
Proof.
  intros Hi.
  assert (i = 0 \/ i = 1 \/ i = 2 \/ i = 3 \/ i = 4 \/ i = 5 \/ i = 6
          \/ i = 7 \/ i = 8 \/ i = 9 \/ i = 10 \/ i = 11)%Z
    as [-> | [-> | [-> | [-> | [-> | [-> | [-> | [-> | [-> | [-> | [->
       | ->]]]]]]]]]]] by lia.
  1: eexists; split; [reflexivity|]; split; [reflexivity | intros H; lia].
  all: eexists; split; [reflexivity|]; split; [reflexivity|];
    intros _; repeat split; reflexivity.
Qed.

Lemma vertex_colour_is_determined_witness :
  computeVertexColor 3 dc_texture eye unset_zeros 0 ahead
  = computeVertexColor 3 dc_texture eye unset_ones 0 ahead.
Proof.
  apply (vertex_colour_is_determined dc_texture eye 0%Z ahead 3%Z
           unset_zeros unset_ones).
  - right. right. reflexivity.
  - reflexivity.
  - reflexivity.
Defined.

Lemma degree_two_reads_unassigned_coefficient_witness :
  exists K : vec3,
    computeVertexColor 2 dc_texture eye unset_ones 0 ahead
    = Some (shifted_color
              (add3 K
                 (scale3
                    (elem 0 SH_C2 4
                     * (x3 (normalize3 (sub3 ahead eye))
                        * x3 (normalize3 (sub3 ahead eye))
                        - y3 (normalize3 (sub3 ahead eye))
                          * y3 (normalize3 (sub3 ahead eye))))
                    (Vec3 1 1 1)))).
Proof.
  destruct (degree_two_reads_unassigned_coefficient dc_texture eye 0%Z
              ahead) as [K HK].
  - intros i Hi. destruct (dc_texture_fetch i ltac:(lia)) as (t & Ht & _).
    exists t. exact Ht.
  - exists K. apply (HK unset_ones). reflexivity.
Defined.

Lemma colour_of_dc_only_witness :
  exists f_dc,
    computeVertexColor 0 dc_texture eye unset_ones 0 ahead
    = Some (shifted_color (scale3 SH_C0 f_dc))
    /\ computeVertexColor 3 dc_texture eye unset_ones 0 ahead
       = Some (shifted_color (scale3 SH_C0 f_dc)).
Proof.
  apply (colour_of_dc_only dc_texture eye 0%Z ahead 3%Z unset_ones).
  - right. reflexivity.
  - reflexivity.
  - exact dc_texture_fetch.
Defined.

End ColourWitnesses.

Section SorterWitnesses.
Import JS TypedArray Geometry GeometrySpec Sorter SorterSpec TriangleSorter.

Lemma quad_indices_in_range k v :
  quad_indices !! k = Some v ->
  (0 <= v /\ v * 3 + 2 < Z.of_nat (length quad_vertices))%Z.
Proof.
  do 6 (destruct k as [|k];
        [intros H; injection H as <-; simpl; lia|]).
  discriminate.
Qed.

Lemma scenario_min : is_min_depth scenario_centers scenario_viewMatrix 5 (-20).
Proof.
  split.
  - exists 4%nat. split; [lia | reflexivity].
  - intros i Hi.
    do 5 (destruct i as [|i]; [vm_compute; discriminate|]). lia.
Qed.

Lemma scenario_max : is_max_depth scenario_centers scenario_viewMatrix 5 (-1).
Proof.
  split.
  - exists 3%nat. split; [lia | reflexivity].
  - intros i Hi.
    do 5 (destruct i as [|i]; [vm_compute; discriminate|]). lia.
Qed.

Lemma scenario_range : ~ (-1 - -20 <= DEPTH_RANGE_EPS)%Q.
Proof. vm_compute. intros H. apply H. reflexivity. Qed.






Lemma degenerate_request_keeps_input_order_witness :
  sortAndPrepareIndexBuffer 1 [0; 0; -5]%Q scenario_viewMatrix
  = [0; 1; 2]%Z
  /\ sortAndPrepareIndexBuffer 5 scenario_centers [] = identityIndices 5.
Proof.
  split.
  - apply (degenerate_request_keeps_input_order 1 [0; 0; -5]%Q
             scenario_viewMatrix).
    left. lia.
  - apply (degenerate_request_keeps_input_order 5 scenario_centers []).
    right. left. simpl. lia.
Defined.

End SorterWitnesses.

Section AnalysisWitnesses.
Import JS TypedArray Geometry GeometrySpec Analyze SorterSpec.

Lemma quad_opacities_in_range k v :
  quad_indices !! k = Some v ->
  (0 <= v < Z.of_nat (length quad_opacities))%Z.
Proof.
  do 6 (destruct k as [|k];
        [intros H; injection H as <-; simpl; lia|]).
  discriminate.
Qed.

Lemma analysis_counts_culled_triangles_witness :
  exists r,
    analyzeTriangleFiltering quad_vertices quad_indices quad_opacities true
    = Returned r
    /\ (totalTriangles r == 2)%Q
    /\ minWeightFiltered r = 2%Z.
Proof.
  destruct (analysis_counts_culled_triangles quad_vertices quad_indices
              quad_opacities quad_opacities_in_range 2%nat eq_refl)
    as (r & Hr & Htotal & Hcount & _).
  - lia.
  - exists r. split; [exact Hr|]. split; [exact Htotal | exact Hcount].
Defined.

Lemma analysis_median_is_middle_weight_witness :
  exists r (sorted : list number),
    analyzeTriangleFiltering quad_vertices quad_indices quad_opacities true
    = Returned r
    /\ sorted !! 1%nat = Some (ws_median (weightStats r)).
Proof.
  destruct (analysis_median_is_middle_weight quad_vertices quad_indices
              quad_opacities quad_opacities_in_range 2%nat eq_refl)
    as (r & sorted & Hr & _ & _ & Hmedian).
  - lia.
  - exists r, sorted. split; [exact Hr | exact Hmedian].
Defined.

End AnalysisWitnesses.

Section SplatWitnesses.
Import GLSL TypedArray VertexStage ShaderSpec Pipeline.
Local Open Scope R_scope.

Local Abbreviation corners := (projected_of sliver_uniforms sliver).
Local Abbreviation corner := (elem zero2 corners).
Local Abbreviation centre := (incenter_of corners).
Local Abbreviation inradius :=
  (Rabs (bary_denom (corner 0%nat) (corner 1%nat) (corner 2%nat))
   / perimeter_of corners).
Local Abbreviation weight :=
  (pow (0.01 / aTriangleMinWeight sliver) (1 / sigma sliver_uniforms)).
Local Abbreviation line k :=
  (delta (edge_normal sliver_uniforms sliver k)
     (edge_offset sliver_uniforms sliver k)).
Local Abbreviation red := (Vec3 1 0 0).
Local Abbreviation green := (Vec3 0 1 0).
Local Abbreviation blue := (Vec3 0 0 1).

Lemma sliver_long_edges k :
  (k < 3)%nat -> 1e-4 < distance2 (corner k) (corner ((k + 1) mod 3)%nat).
Proof.
  intros Hk. rewrite sliver_projected.
  assert (k = 0 \/ k = 1 \/ k = 2)%nat as [-> | [-> | ->]] by lia;
    [ change ((0 + 1) mod 3)%nat with 1%nat
    | change ((1 + 1) mod 3)%nat with 2%nat
    | change ((2 + 1) mod 3)%nat with 0%nat ];
    cbn [elem nth];
    [ rewrite sliver_side_c | rewrite sliver_side_a
    | rewrite sliver_side_b ]; lra.
Qed.

Lemma sliver_edge_distances k :
  (k < 3)%nat ->
  edge_distance sliver_uniforms sliver k = - inradius
  /\ line k centre = - inradius.
Proof.
  intros Hk.
  pose proof (sliver_long_edges 0 ltac:(lia)) as H01.
  pose proof (sliver_long_edges 1 ltac:(lia)) as H12.
  pose proof (sliver_long_edges 2 ltac:(lia)) as H20.
  change ((0 + 1) mod 3)%nat with 1%nat in H01.
  change ((1 + 1) mod 3)%nat with 2%nat in H12.
  change ((2 + 1) mod 3)%nat with 0%nat in H20.
  pose proof (oriented_edge_facts corners centre k) as (_ & _ & Hd & _).
  cbv zeta in Hd.
  unfold edge_distance, edge_normal, edge_offset, edge_of.
  rewrite <- Hd. split; [|]; unfold projected_of in *; cbn [elem nth] in *;
    apply (incenter_distances _ _ _ (conj H01 (conj H12 H20)) k Hk).
Qed.

Lemma sliver_inradius : inradius = 1 / 20000.
Proof.
  destruct sliver_is_emitted as (gl & v & _ & Hd & _).
  rewrite (proj1 (sliver_edge_distances 2 ltac:(lia))) in Hd. lra.
Qed.

Lemma sliver_weight : weight = 1 / 100.
Proof.
  cbn [sliver sliver_uniforms aTriangleMinWeight sigma]. unfold pow.
  destruct (lessThanEqual (0.01 / 1) 0) eqn:E;
    [apply lessThanEqual_true in E; lra|].
  replace (1 / 1) with 1 by lra. rewrite Rpower_1 by lra. lra.
Qed.

Lemma sliver_centre_line :
  Rmax (line 0%nat centre) (Rmax (line 1%nat centre) (line 2%nat centre))
  = - (1 / 20000).
Proof.
  rewrite (proj2 (sliver_edge_distances 0 ltac:(lia))).
  rewrite (proj2 (sliver_edge_distances 1 ltac:(lia))).
  rewrite (proj2 (sliver_edge_distances 2 ltac:(lia))).
  rewrite sliver_inradius.
  unfold Rmax. repeat destruct (Rle_dec _ _); lra.
Qed.

Lemma sliver_centre_alpha :
  Rmin 0.99
    (aTriangleMinWeight sliver
     * pow (Rmax 0
              (- Rmax (line 0%nat centre)
                   (Rmax (line 1%nat centre) (line 2%nat centre))
               / inradius - weight))
         (sigma sliver_uniforms))
  = 0.99.
Proof.
  rewrite sliver_centre_line, sliver_inradius, sliver_weight.
  cbn [sliver sliver_uniforms aTriangleMinWeight sigma].
  replace (- - (1 / 20000) / (1 / 20000) - 1 / 100) with 0.99 by lra.
  rewrite Rmax_right by lra. unfold pow.
  destruct (lessThanEqual 0.99 0) eqn:E;
    [apply lessThanEqual_true in E; lra|].
  rewrite Rpower_1 by lra. rewrite Rmin_left; lra.
Qed.

(** The fragment at the incenter of the sliver is written with the
    greatest alpha. *)
Lemma sliver_centre_is_written :
  exists gl v rgba,
    main sliver_uniforms sliver = Emitted gl v
    /\ FragmentStage.main 1 centre (fragment_inputs v red green blue)
       = FragmentStage.FragColor rgba
    /\ w4 rgba = 0.99.
Proof.
  destruct sliver_is_emitted as (gl & v & Hmain & _ & Hphi).
  destruct (emitted_offsets sliver_uniforms sliver gl v Hmain)
    as (_ & Ho0 & Ho1 & Ho2 & Hn0 & Hn1 & Hn2).
  cbv zeta in Ho0, Ho1, Ho2.
  pose proof (main_emitted _ _ _ _ Hmain) as Hm. cbv zeta in Hm.
  destruct Hm as (_ & _ & _ & _ & Hm & _).
  pose proof (fragment_of_distances 1 centre
                (fragment_inputs v red green blue)) as [_ Hwrite].
  cbn [fragment_inputs FragmentStage.vNormal0 FragmentStage.vNormal1
       FragmentStage.vNormal2 FragmentStage.vOffset0 FragmentStage.vOffset1
       FragmentStage.vOffset2 FragmentStage.vTriangleMinWeight
       FragmentStage.vPhiCenterScale FragmentStage.vScreenPos0
       FragmentStage.vScreenPos1 FragmentStage.vScreenPos2
       FragmentStage.vColor0 FragmentStage.vColor1 FragmentStage.vColor2]
    in Hwrite.
  rewrite Hn0, Hn1, Hn2, Ho0, Ho1, Ho2, Hm, Hphi in Hwrite.
  assert (Hmove : forall k,
            delta (edge_normal sliver_uniforms sliver k)
              (edge_offset sliver_uniforms sliver k
               - shrink_amount sliver_uniforms sliver) centre
            = line k centre - shrink_amount sliver_uniforms sliver)
    by (intros k; unfold delta; ring).
  rewrite !Hmove, Rmax_shift, sliver_centre_line in Hwrite.
  assert (Hs : shrink_amount sliver_uniforms sliver
               = - (1 / 20000) * (1 / 100)).
  { unfold shrink_amount.
    rewrite (proj1 (sliver_edge_distances 0 ltac:(lia))).
    rewrite sliver_inradius, sliver_weight. reflexivity. }
  rewrite Hs in Hwrite.
  cbn [sliver aTriangleMinWeight] in Hwrite.
  replace ((- (1 / 20000) - - (1 / 20000) * (1 / 100)) * - 20000)
    with 0.99 in Hwrite by lra.
  assert (Halpha : Rmin 0.99 (1 * pow (Rmax 0 0.99) 1) = 0.99).
  { rewrite Rmax_right by lra. unfold pow.
    destruct (lessThanEqual 0.99 0) eqn:E;
      [apply lessThanEqual_true in E; lra|].
    rewrite Rpower_1 by lra. rewrite Rmin_left; lra. }
  rewrite Halpha in Hwrite.
  eexists gl, v, _. split; [exact Hmain|].
  split; [apply Hwrite; lra | reflexivity].
Qed.




Lemma written_fragment_is_inside_triangle_witness :
  exists gl v,
    main sliver_uniforms sliver = Emitted gl v
    /\ forall k, (k < 3)%nat ->
         line k centre <= shrink_amount sliver_uniforms sliver
         /\ shrink_amount sliver_uniforms sliver <= 0.
Proof.
  destruct sliver_centre_is_written as (gl & v & rgba & Hmain & Hfrag & _).
  exists gl, v. split; [exact Hmain|]. intros k Hk.
  destruct (written_fragment_is_inside_triangle sliver_uniforms sliver
              gl v red green blue 1 centre rgba Hmain Hfrag k Hk)
    as (Hin & Hs & _).
  split; [exact Hin | exact Hs].
Defined.

(** The sample fragment of the fragment stage is written. *)
Lemma inner_fragment_is_written :
  exists rgba,
    FragmentStage.main 1 (Vec2 2 2) inner_fragment
    = FragmentStage.FragColor rgba.
Proof.
  pose proof (fragment_of_distances 1 (Vec2 2 2) inner_fragment)
    as [_ Hwrite].
  eexists. apply Hwrite.
  - unfold delta, dot2, Rmax. simpl.
    repeat destruct (Rle_dec _ _); lra.
  - assert (HM : Rmax (delta (FragmentStage.vNormal0 inner_fragment)
                         (FragmentStage.vOffset0 inner_fragment)
                         (Vec2 2 2))
                   (Rmax (delta (FragmentStage.vNormal1 inner_fragment)
                            (FragmentStage.vOffset1 inner_fragment)
                            (Vec2 2 2))
                         (delta (FragmentStage.vNormal2 inner_fragment)
                            (FragmentStage.vOffset2 inner_fragment)
                            (Vec2 2 2))) = -2).
    { unfold delta, dot2, Rmax. simpl.
      repeat destruct (Rle_dec _ _); lra. }
    rewrite HM. simpl.
    rewrite (Rmax_right 0 (-2 * -1)) by lra. unfold pow.
    destruct (lessThanEqual _ _) eqn:E;
      [apply lessThanEqual_true in E; lra|].
    rewrite Rpower_1 by lra. rewrite Rmin_left; lra.
Qed.

Lemma written_alpha_is_bounded_witness :
  exists rgba,
    FragmentStage.main 1 (Vec2 2 2) inner_fragment
    = FragmentStage.FragColor rgba
    /\ 1 / 255 <= w4 rgba <= 0.99.
Proof.
  destruct inner_fragment_is_written as [rgba Hfrag].
  exists rgba. split; [exact Hfrag|].
  apply (written_alpha_is_bounded 1 (Vec2 2 2) inner_fragment rgba Hfrag).
Defined.

End SplatWitnesses.
